(** * Policy-Generator: the condition tree and the policy state of the editor

    A shallow embedding of the React hooks that edit an Azure Policy
    document, each in a module of its name:

    - [useConditionGroup]  (components/ConditionGroup/hooks/useConditionGroup.ts)
    - [ConditionItem]      (components/ConditionGroup/components/ConditionItem.tsx)
    - the type guards      (components/ConditionGroup/types/index.ts)
    - [useCondition]       (components/ConditionEditor/hooks/useCondition.ts)
    - [useCountCondition]  (components/CountConditionEditor/hooks/useCountCondition.ts)
    - [usePolicyEditorState] (components/PolicyEditor/hooks/usePolicyEditorState.ts)
    - [initialPolicyTemplate] (constants/policy.ts)
    - [useWhereCondition]  (components/CountConditionEditor/hooks/useWhereCondition.ts)
    - [OperationsList], [DetailsForm], [DetailsTab]
                           (components/DetailsForm, components/PolicyEditor)
    - [useParameters]      (components/PolicyEditor/hooks/useParameters.ts)
    - [isValidJSONArray]   (utils/validation.ts)

    The hooks work on plain JavaScript objects and tell the node kinds
    apart by the keys an object has, so the embedding keeps JavaScript
    values as they are: strings are sequences of 16-bit code units,
    numbers are binary64 floating-point numbers, objects are property
    lists in enumeration order, a property read of a missing key is
    [undefined], [in] and a property read of [undefined] raise a
    TypeError.  The preview pane shows [JSON.stringify(policy, null, 2)]
    and reads edits back with [JSON.parse]; both are given on text, with
    Number::toString and the numerals of JSON and of [Number(text)]
    rounded to the nearest double.

    A handler that calls [setPolicy] or [onUpdate] is a function from the
    state, or the children, it was rendered with to the new one. *)

From Stdlib Require Import List ZArith NArith Lia Bool.
From Stdlib Require Import Permutation.
From Stdlib Require Strings.Byte.
From Stdlib Require Import DecimalN DecimalPos DecimalFacts.
Import ListNotations.
Open Scope list_scope.
Open Scope Z_scope.
Set Warnings "-register-all".

(** ** Strings *)

(** A string is a sequence of UTF-16 code units, each a number below
    65536; a character outside the basic plane is the two code units of
    its surrogate pair, as in JavaScript.  The handlers make no code
    unit of their own: the strings they hold are made of the units of
    their inputs and of the literals of the code. *)
Definition code_unit : Type := N.

Inductive string : Type :=
| EmptyString
| String (c : code_unit) (s : string).

Module String.

(** [a === b] *)
Fixpoint eqb (a b : string) : bool :=
  match a, b with
  | EmptyString, EmptyString => true
  | String c a', String d b' => (c =? d)%N && eqb a' b'
  | _, _ => false
  end.

(** [a + b] *)
Fixpoint append (a b : string) : string :=
  match a with
  | EmptyString => b
  | String c a' => String c (append a' b)
  end.

(** [s.length] *)
Fixpoint length (s : string) : nat :=
  match s with
  | EmptyString => O
  | String _ r => S (length r)
  end.

End String.

Fixpoint units (s : string) : list code_unit :=
  match s with
  | EmptyString => []
  | String c r => c :: units r
  end.

Fixpoint of_units (l : list code_unit) : string :=
  match l with
  | [] => EmptyString
  | c :: r => String c (of_units r)
  end.

(** String literals of this file are ASCII text; a literal with any
    other byte is refused. *)
Fixpoint string_of_bytes (l : list Byte.byte) : option string :=
  match l with
  | [] => Some EmptyString
  | b :: r =>
      if (Byte.to_N b <? 128)%N then
        match string_of_bytes r with
        | Some s => Some (String (Byte.to_N b) s)
        | None => None
        end
      else None
  end.

Fixpoint bytes_of_string (s : string) : option (list Byte.byte) :=
  match s with
  | EmptyString => Some []
  | String c r =>
      if (c <? 128)%N then
        match Byte.of_N c, bytes_of_string r with
        | Some b, Some l => Some (b :: l)
        | _, _ => None
        end
      else None
  end.

Declare Scope js_scope.
Delimit Scope js_scope with js.
String Notation string string_of_bytes bytes_of_string : js_scope.
Open Scope js_scope.

(** The code unit of a one-letter literal. *)
Definition char (s : string) : code_unit :=
  match s with
  | String c _ => c
  | EmptyString => 0%N
  end.

(** ** Numbers *)

(** A number is an IEEE 754 binary64 value: NaN, an infinity, a zero,
    or [m * 2 ^ e] with its sign.  The numbers of JavaScript are the
    values [is_double] holds of: a normal number has
    [2 ^ 52 <= m < 2 ^ 53] and [-1074 <= e <= 971], a subnormal one has
    [m < 2 ^ 52] and [e = -1074]. *)
Inductive number : Type :=
| NaN
| Infinity (negative : bool)
| Zero (negative : bool)
| Finite (negative : bool) (m : positive) (e : Z).

Definition is_double (x : number) : bool :=
  match x with
  | Finite _ m e =>
      (2 ^ 52 <=? Zpos m) && (Zpos m <? 2 ^ 53) && (-1074 <=? e) && (e <=? 971)
      || (Zpos m <? 2 ^ 52) && (e =? -1074)
  | _ => true
  end.

Definition is_finite (x : number) : bool :=
  match x with
  | Zero _ | Finite _ _ _ => true
  | NaN | Infinity _ => false
  end.

(** [isNaN(x)] *)
Definition isNaN (x : number) : bool :=
  match x with
  | NaN => true
  | _ => false
  end.

(** [-x] *)
Definition negate (x : number) : number :=
  match x with
  | NaN => NaN
  | Infinity s => Infinity (negb s)
  | Zero s => Zero (negb s)
  | Finite s m e => Finite (negb s) m e
  end.

Definition number_eqb (x y : number) : bool :=
  match x, y with
  | NaN, NaN => true
  | Infinity a, Infinity b => Bool.eqb a b
  | Zero a, Zero b => Bool.eqb a b
  | Finite a m e, Finite b m' e' =>
      Bool.eqb a b && (m =? m')%positive && (e =? e')
  | _, _ => false
  end.

(** The exponent of the double nearest to the positive rational
    [N / D]: with [2 ^ E <= N / D < 2 ^ (E + 1)] it is [E - 52], and
    [-1074] for the subnormal numbers.  [E] is read off the integer part
    of [N / D] scaled by a power of two that makes it at least one
    wherever [E - 52] is above [-1074]. *)
Definition binary_exponent (N D : Z) : Z :=
  let sh := Z.log2 D + 1075 in
  Z.max (Z.log2 (N * 2 ^ sh / D) - sh - 52) (-1074).

(** The integer nearest to [num / den], the even one of two that are
    equally near. *)
Definition round_half_even (num den : Z) : Z :=
  let q := num / den in
  let r := num mod den in
  if 2 * r <? den then q
  else if den <? 2 * r then q + 1
  else if Z.even q then q else q + 1.

(** The Number value for the positive rational [N / D]: round to
    nearest, ties to even, overflow to infinity, underflow to zero. *)
Definition round_ratio (N D : Z) : number :=
  let e := binary_exponent N D in
  let m := if 0 <=? e then round_half_even N (D * 2 ^ e)
           else round_half_even (N * 2 ^ (- e)) D in
  let e' := if m =? 2 ^ 53 then e + 1 else e in
  let m' := if m =? 2 ^ 53 then 2 ^ 52 else m in
  if 971 <? e' then Infinity false
  else match m' with
       | Zpos p => Finite false p e'
       | _ => Zero false
       end.

(** The Number value for an integer. *)
Definition of_Z (n : Z) : number :=
  match n with
  | Z0 => Zero false
  | Zpos p => round_ratio (Zpos p) 1
  | Zneg p => negate (round_ratio (Zpos p) 1)
  end.
Coercion of_Z : Z >-> number.
Arguments of_Z : simpl never.

(** The Number value for the decimal [s * 10 ^ E], [s] not negative. *)
Definition decimal_to_number (s E : Z) : number :=
  if s <=? 0 then Zero false
  else if 0 <=? E then round_ratio (s * 10 ^ E) 1
  else round_ratio s (10 ^ (- E)).

(** ** JavaScript values *)

(** The values a policy document is made of. *)
Inductive value : Type :=
| VUndef
| VNull
| VBool (b : bool)
| VNum (n : number)
| VStr (s : string)
| VArr (elems : list value)
| VObj (props : list (string * value)).

Abbreviation props := (list (string * value)).

(** Outcome of running JavaScript code that may raise a TypeError. *)
Inductive result (A : Type) : Type :=
| Ok (a : A)
| TypeError.
Arguments Ok {A} a.
Arguments TypeError {A}.

Definition bind {A B} (r : result A) (k : A -> result B) : result B :=
  match r with
  | Ok a => k a
  | TypeError => TypeError
  end.

Notation "x <- e ;; k" := (bind e (fun x => k))
  (at level 61, e at next level, right associativity).
Notation "' p <- e ;; k" := (bind e (fun p => k))
  (at level 61, p pattern, e at next level, right associativity).

(** *** Property lists *)

Fixpoint own_get (k : string) (o : props) : option value :=
  match o with
  | [] => None
  | (k', v) :: r => if String.eqb k k' then Some v else own_get k r
  end.

Definition has_own (k : string) (o : props) : bool :=
  match own_get k o with Some _ => true | None => false end.

Fixpoint replace_prop (k : string) (v : value) (o : props) : props :=
  match o with
  | [] => []
  | (k', v') :: r =>
      if String.eqb k k' then (k', v) :: r else (k', v') :: replace_prop k v r
  end.

(** Decimal numerals.  [digits_value] reads a run of decimal digits. *)
Definition is_digit (c : code_unit) : bool :=
  ((48 <=? c) && (c <=? 57))%N.

Definition digit_value (c : code_unit) : N := (c - 48)%N.

Fixpoint digits_value (acc : N) (s : list code_unit) : N :=
  match s with
  | [] => acc
  | c :: r => digits_value (acc * 10 + digit_value c)%N r
  end.

(** An array index is the canonical numeral of an integer below 2^32 - 1.
    JavaScript enumerates such keys first, in ascending order, and the
    other keys after them in creation order. *)
Definition array_index (k : string) : option N :=
  let cs := units k in
  match cs with
  | [] => None
  | c :: r =>
      if forallb is_digit cs
         && (match r with [] => true | _ => negb (c =? char "0")%N end)
         && (List.length cs <=? 10)%nat
      then
        let n := digits_value 0 cs in
        if (n <? 4294967295)%N then Some n else None
      else None
  end.

(** [key_before k k']: a new key [k] is enumerated before the existing [k']. *)
Definition key_before (k k' : string) : bool :=
  match array_index k with
  | None => false
  | Some i =>
      match array_index k' with
      | None => true
      | Some j => (i <? j)%N
      end
  end.

Fixpoint insert_prop (k : string) (v : value) (o : props) : props :=
  match o with
  | [] => [(k, v)]
  | (k', v') :: r =>
      if key_before k k' then (k, v) :: o else (k', v') :: insert_prop k v r
  end.

(** [o[k] = v] on an ordinary object: an existing property keeps its
    place, a new one is created. *)
Definition put (k : string) (v : value) (o : props) : props :=
  if has_own k o then replace_prop k v o else insert_prop k v o.

(** [delete o[k]]. *)
Fixpoint remove_prop (k : string) (o : props) : props :=
  match o with
  | [] => []
  | (k', v) :: r => if String.eqb k k' then r else (k', v) :: remove_prop k r
  end.

(** An object literal [{ k1: v1, ..., kn: vn }] (computed keys included):
    the properties are defined one after the other. *)
Definition obj_lit_onto (base : props) (entries : props) : props :=
  fold_left (fun acc kv => put (fst kv) (snd kv) acc) entries base.

Definition obj (entries : props) : value := VObj (obj_lit_onto [] entries).

(** The digits of a decimal numeral, most significant first. *)
Fixpoint uint_units (d : Decimal.uint) : list code_unit :=
  match d with
  | Decimal.Nil => []
  | Decimal.D0 d' => char "0" :: uint_units d'
  | Decimal.D1 d' => char "1" :: uint_units d'
  | Decimal.D2 d' => char "2" :: uint_units d'
  | Decimal.D3 d' => char "3" :: uint_units d'
  | Decimal.D4 d' => char "4" :: uint_units d'
  | Decimal.D5 d' => char "5" :: uint_units d'
  | Decimal.D6 d' => char "6" :: uint_units d'
  | Decimal.D7 d' => char "7" :: uint_units d'
  | Decimal.D8 d' => char "8" :: uint_units d'
  | Decimal.D9 d' => char "9" :: uint_units d'
  end.

(** The decimal numeral of a natural number, without leading zeros. *)
Definition digits (n : N) : list code_unit :=
  match N.to_uint n with
  | Decimal.Nil => [char "0"]
  | d => uint_units d
  end.

(** Numeral of a natural number, as [String(i)] gives it. *)
Definition nat_numeral (n : nat) : string := of_units (digits (N.of_nat n)).

Fixpoint indexed_from {A} (f : A -> value) (i : nat) (l : list A) : props :=
  match l with
  | [] => []
  | x :: r => (nat_numeral i, f x) :: indexed_from f (S i) r
  end.

(** The own enumerable properties of a value, as a spread [{...x}] and
    [Object.keys] see them. *)
Definition own_props (x : value) : props :=
  match x with
  | VObj o => o
  | VArr l => indexed_from (fun v => v) 0 l
  | VStr s => indexed_from (fun c => VStr (String c EmptyString)) 0
                (units s)
  | _ => []
  end.

(** [{ ...x, k1: v1, ... }]: the own properties of [x] are copied in
    their order, then the listed ones are defined. *)
Definition spread_lit (x : value) (entries : props) : value :=
  VObj (obj_lit_onto (own_props x) entries).

(** *** Operators of the language *)

(** [k in x].  The hooks only test the names [not], [allOf], [anyOf],
    [count] and [field], none of which is inherited from a prototype. *)
Definition js_in (k : string) (x : value) : result bool :=
  match x with
  | VObj o => Ok (has_own k o)
  | VArr l => Ok (has_own k (own_props x) || String.eqb k "length")
  | _ => TypeError
  end.

(** [x.k] and [x[k]] for a string key.  On an array or a string the
    elements and [length] are there; the methods they inherit are not
    values of this embedding, and no handler reads one. *)
Definition js_get (x : value) (k : string) : result value :=
  match x with
  | VUndef | VNull => TypeError
  | VObj o => Ok (match own_get k o with Some v => v | None => VUndef end)
  | VArr l =>
      Ok (match own_get k (own_props x) with
          | Some v => v
          | None => if String.eqb k "length"
                    then VNum (Z.of_nat (List.length l)) else VUndef
          end)
  | VStr s =>
      Ok (match own_get k (own_props x) with
          | Some v => v
          | None => if String.eqb k "length"
                    then VNum (Z.of_nat (String.length s)) else VUndef
          end)
  | _ => Ok VUndef
  end.

Definition truthy (x : value) : bool :=
  match x with
  | VUndef | VNull => false
  | VBool b => b
  | VNum n => match n with NaN | Zero _ => false | _ => true end
  | VStr s => negb (String.eqb s "")
  | VArr _ | VObj _ => true
  end.

(** [a || b] *)
Definition js_or (a b : value) : value := if truthy a then a else b.

(** [Object.keys(x)] *)
Definition object_keys (x : value) : result (list string) :=
  match x with
  | VUndef | VNull => TypeError
  | _ => Ok (map fst (own_props x))
  end.

(** [arr[idx]] for a numeric index. *)
Definition arr_at (l : list value) (idx : Z) : value :=
  if idx <? 0 then VUndef else nth (Z.to_nat idx) l VUndef.

(** [arr.filter((x, i) => f x i)] *)
Fixpoint filter_from (f : value -> Z -> bool) (i : Z) (l : list value)
  : list value :=
  match l with
  | [] => []
  | x :: r => if f x i then x :: filter_from f (i + 1) r
              else filter_from f (i + 1) r
  end.

Definition js_filter (f : value -> Z -> bool) (l : list value) : list value :=
  filter_from f 0 l.

(** [const a = [...arr]; a[idx] = x] for an index inside the array. *)
Fixpoint set_nth (n : nat) (x : value) (l : list value) : list value :=
  match l, n with
  | [], _ => []
  | _ :: r, O => x :: r
  | y :: r, S n' => y :: set_nth n' x r
  end.

(** [a[idx] = x] for any integer index.  Inside the array the element is
    replaced, and at [a.length] the array grows by one.  A write further
    out leaves holes, and a write at a negative index defines a named
    property of the array: arrays with holes or named properties are not
    values of this embedding, and such a write has no value here. *)
Definition arr_set (l : list value) (idx : Z) (x : value)
  : option (list value) :=
  if idx <? 0 then None
  else if (Z.to_nat idx <? List.length l)%nat
  then Some (set_nth (Z.to_nat idx) x l)
  else if (Z.to_nat idx =? List.length l)%nat then Some (l ++ [x])
  else None.

(** [arr.map((x, i) => f x i)] *)
Fixpoint map_from (f : value -> Z -> value) (i : Z) (l : list value)
  : list value :=
  match l with
  | [] => []
  | x :: r => f x i :: map_from f (i + 1) r
  end.

Definition js_map (f : value -> Z -> value) (l : list value) : list value :=
  map_from f 0 l.

(** [a && b] *)
Definition js_and (a b : value) : value := if truthy a then b else a.

(** [x?.k] *)
Definition js_get_optional (x : value) (k : string) : result value :=
  match x with
  | VUndef | VNull => Ok VUndef
  | _ => js_get x k
  end.

(** The white space and line terminators, which
    [String.prototype.trim] strips from both ends: TAB, LF, VT, FF, CR,
    the space, the no-break space, the space separators of Unicode, the
    line and paragraph separators and the byte order mark. *)
Definition is_trim_space (c : code_unit) : bool :=
  ((9 <=? c) && (c <=? 13) || (c =? 32) || (c =? 160) || (c =? 5760)
   || (8192 <=? c) && (c <=? 8202) || (c =? 8232) || (c =? 8233)
   || (c =? 8239) || (c =? 8287) || (c =? 12288) || (c =? 65279))%N.

Fixpoint trim_start (s : list code_unit) : list code_unit :=
  match s with
  | c :: r => if is_trim_space c then trim_start r else s
  | [] => []
  end.

Definition trim (s : string) : string :=
  of_units (rev (trim_start (rev (trim_start (units s))))).

(** ** Numbers as text *)

(** Number::toString writes a finite number [x] other than zero with
    the digits of the integer [s] and the exponent [n] for which
    [s * 10 ^ (n - k)] is [x], [s] having [k] digits, [k] as small as
    possible, and [s] as near to [x] as possible.

    [decimal_exponent P Q] is the [n] with
    [10 ^ (n - 1) <= P / Q < 10 ^ n]. *)
Fixpoint scale (fuel : nat) (P Q j : Z) : Z :=
  match fuel with
  | O => j
  | S f => if Q <=? P then j else scale f (P * 10) Q (j + 1)
  end.

Definition decimal_exponent (P Q : Z) : Z :=
  if Q <=? P then Z.of_nat (List.length (digits (Z.to_N (P / Q))))
  else 1 - scale 400 (P * 10) Q 1.

(** The decimals of [k] digits next to [P / Q] on either side, the
    nearer one first (the even one, when they are equally near), each
    with its exponent [n - k]. *)
Definition candidates (P Q n k : Z) : list (Z * Z) :=
  let num := if 0 <=? k - n then P * 10 ^ (k - n) else P in
  let den := if 0 <=? k - n then Q else Q * 10 ^ (n - k) in
  let lo := num / den in
  let r := num mod den in
  let below := (lo, n - k) in
  let above := if lo + 1 =? 10 ^ k then (1, n) else (lo + 1, n - k) in
  if 2 * r <? den then [below; above]
  else if den <? 2 * r then [above; below]
  else if Z.even lo then [below; above] else [above; below].

(** The first [k], from the given one on, with a decimal of [k] digits
    whose Number value is [x]. *)
Fixpoint search (fuel : nat) (x : number) (P Q n k : Z) : option (Z * Z) :=
  match fuel with
  | O => None
  | S f =>
      match find (fun d => number_eqb (decimal_to_number (fst d) (snd d)) x)
                 (candidates P Q n k) with
      | Some d => Some d
      | None => search f x P Q n (k + 1)
      end
  end.

(** The decimal that is [m * 2 ^ e] exactly. *)
Definition exact_decimal (m : positive) (e : Z) : Z * Z :=
  if 0 <=? e then (Zpos m * 2 ^ e, 0) else (Zpos m * 5 ^ (- e), e).

(** Seventeen digits tell any two doubles apart, so the search ends
    within them; the exact decimal stands behind it. *)
Definition shortest_decimal (m : positive) (e : Z) : Z * Z :=
  let P := if 0 <=? e then Zpos m * 2 ^ e else Zpos m in
  let Q := if 0 <=? e then 1 else 2 ^ (- e) in
  match search 17 (Finite false m e) P Q (decimal_exponent P Q) 1 with
  | Some d => d
  | None => exact_decimal m e
  end.

(** The five layouts of Number::toString for [s * 10 ^ E]. *)
Definition decimal_text (s E : Z) : list code_unit :=
  let ds := digits (Z.to_N s) in
  let k := Z.of_nat (List.length ds) in
  let n := E + k in
  if (k <=? n) && (n <=? 21) then ds ++ repeat (char "0") (Z.to_nat (n - k))
  else if (0 <? n) && (n <=? 21)
  then firstn (Z.to_nat n) ds ++ char "." :: skipn (Z.to_nat n) ds
  else if (-6 <? n) && (n <=? 0)
  then char "0" :: char "." :: repeat (char "0") (Z.to_nat (- n)) ++ ds
  else
    let exponent :=
      (if 0 <=? n - 1 then char "+" else char "-")
      :: digits (Z.to_N (Z.abs (n - 1))) in
    match ds with
    | [] => []
    | [d] => d :: char "e" :: exponent
    | d :: r => d :: char "." :: r ++ char "e" :: exponent
    end.

(** Number::toString *)
Definition number_text (x : number) : list code_unit :=
  match x with
  | NaN => units "NaN"
  | Infinity false => units "Infinity"
  | Infinity true => units "-Infinity"
  | Zero _ => units "0"
  | Finite negative m e =>
      let (s, E) := shortest_decimal m e in
      if negative then char "-" :: decimal_text s E else decimal_text s E
  end.

(** ** JSON text *)

(** The text side of [JSON.stringify(x, null, 2)] and [JSON.parse], on
    lists of code units. *)

Module JSON.

Definition chars (s : string) : list code_unit := units s.

Definition dquote : code_unit := 34%N.
Definition backslash : code_unit := 92%N.
Definition newline : code_unit := 10%N.
Definition space : code_unit := 32%N.
Definition comma : code_unit := 44%N.
Definition colon : code_unit := 58%N.

Definition is_char (c : code_unit) (n : N) : bool := (c =? n)%N.

(** *** JSON.stringify *)

Definition hex_char (n : N) : code_unit :=
  if (n <? 10)%N then (48 + n)%N else (87 + n)%N.

(** [\uXXXX] with lower-case hexadecimal digits. *)
Definition unicode_escape (n : N) : list code_unit :=
  [backslash; char "u"; hex_char (n / 4096); hex_char ((n / 256) mod 16);
   hex_char ((n / 16) mod 16); hex_char (n mod 16)]%N.

(** QuoteJSONString, one code unit that is not a surrogate. *)
Definition quote_char (c : code_unit) : list code_unit :=
  if (c =? 8)%N then [backslash; char "b"]
  else if (c =? 9)%N then [backslash; char "t"]
  else if (c =? 10)%N then [backslash; char "n"]
  else if (c =? 12)%N then [backslash; char "f"]
  else if (c =? 13)%N then [backslash; char "r"]
  else if (c =? 34)%N then [backslash; dquote]
  else if (c =? 92)%N then [backslash; backslash]
  else if (c <? 32)%N then unicode_escape c
  else [c].

Definition is_high_surrogate (c : code_unit) : bool :=
  ((55296 <=? c) && (c <=? 56319))%N.

Definition is_low_surrogate (c : code_unit) : bool :=
  ((56320 <=? c) && (c <=? 57343))%N.

(** QuoteJSONString over the code points of the string: a high
    surrogate followed by a low one is a character and is written as it
    is; a surrogate on its own is written as an escape. *)
Fixpoint quote_units (s : list code_unit) : list code_unit :=
  match s with
  | [] => []
  | c :: r =>
      if is_high_surrogate c then
        match r with
        | d :: r' =>
            if is_low_surrogate d then c :: d :: quote_units r'
            else unicode_escape c ++ quote_units r
        | [] => unicode_escape c
        end
      else if is_low_surrogate c then unicode_escape c ++ quote_units r
      else quote_char c ++ quote_units r
  end.

Definition quote (s : string) : list code_unit :=
  dquote :: quote_units (chars s) ++ [dquote].

(** SerializeJSONProperty with the gap of two spaces; [ind] is the
    current indentation.  An [undefined] array element is written as
    [null], an [undefined] property is left out, and a number that is
    not finite is written as [null]. *)
Fixpoint serialize (ind : list code_unit) (x : value) {struct x} : list code_unit :=
  let ind' := space :: space :: ind in
  match x with
  | VUndef | VNull => chars "null"
  | VBool true => chars "true"
  | VBool false => chars "false"
  | VNum n => if is_finite n then number_text n else chars "null"
  | VStr s => quote s
  | VArr l =>
      char "[" ::
      (fix elements (first : bool) (l : list value) : list code_unit :=
         match l with
         | [] => if first then [] else newline :: ind
         | y :: l' =>
             (if first then [newline] else [comma; newline])
             ++ ind' ++ serialize ind' y ++ elements false l'
         end) true l
      ++ [char "]"]
  | VObj o =>
      char "{" ::
      (fix members (first : bool) (o : props) : list code_unit :=
         match o with
         | [] => if first then [] else newline :: ind
         | (k, VUndef) :: o' => members first o'
         | (k, y) :: o' =>
             (if first then [newline] else [comma; newline])
             ++ ind' ++ quote k ++ [colon; space]
             ++ serialize ind' y ++ members false o'
         end) true o
      ++ [char "}"]
  end.

(** [JSON.stringify(x, null, 2)]; [None] is the [undefined] it returns
    for [undefined]. *)
Definition stringify (x : value) : option string :=
  match x with
  | VUndef => None
  | _ => Some (of_units (serialize [] x))
  end.

(** SerializeJSONProperty with the empty gap, as [JSON.stringify(x)]
    writes: no line breaks, no indentation, no space after the colon. *)
Fixpoint serialize_compact (x : value) {struct x} : list code_unit :=
  match x with
  | VUndef | VNull => chars "null"
  | VBool true => chars "true"
  | VBool false => chars "false"
  | VNum n => if is_finite n then number_text n else chars "null"
  | VStr s => quote s
  | VArr l =>
      char "[" ::
      (fix elements (first : bool) (l : list value) : list code_unit :=
         match l with
         | [] => []
         | y :: l' =>
             (if first then [] else [comma])
             ++ serialize_compact y ++ elements false l'
         end) true l
      ++ [char "]"]
  | VObj o =>
      char "{" ::
      (fix members (first : bool) (o : props) : list code_unit :=
         match o with
         | [] => []
         | (k, VUndef) :: o' => members first o'
         | (k, y) :: o' =>
             (if first then [] else [comma])
             ++ quote k ++ [colon]
             ++ serialize_compact y ++ members false o'
         end) true o
      ++ [char "}"]
  end.

(** [JSON.stringify(x)] *)
Definition stringify_compact (x : value) : option string :=
  match x with
  | VUndef => None
  | _ => Some (of_units (serialize_compact x))
  end.

(** *** JSON.parse *)

Definition is_ws (c : code_unit) : bool :=
  is_char c 32 || is_char c 10 || is_char c 13 || is_char c 9.

Fixpoint skip_ws (s : list code_unit) : list code_unit :=
  match s with
  | c :: r => if is_ws c then skip_ws r else s
  | [] => []
  end.

Fixpoint strip_prefix (p s : list code_unit) : option (list code_unit) :=
  match p, s with
  | [], _ => Some s
  | a :: p', b :: s' => if (a =? b)%N then strip_prefix p' s' else None
  | _ :: _, [] => None
  end.

Definition hex_value (c : code_unit) : option N :=
  let n := c in
  if ((48 <=? n) && (n <=? 57))%N then Some (n - 48)%N
  else if ((97 <=? n) && (n <=? 102))%N then Some (n - 87)%N
  else if ((65 <=? n) && (n <=? 70))%N then Some (n - 55)%N
  else None.

(** The escapes of one letter. *)
Definition simple_escape (e : code_unit) : option code_unit :=
  if (e =? 34)%N then Some dquote
  else if (e =? 92)%N then Some backslash
  else if (e =? 47)%N then Some (char "/")
  else if (e =? 98)%N then Some 8%N
  else if (e =? 102)%N then Some 12%N
  else if (e =? 110)%N then Some 10%N
  else if (e =? 114)%N then Some 13%N
  else if (e =? 116)%N then Some 9%N
  else None.

(** The characters of a string literal after its opening quote, up to and
    including the closing one. *)
Fixpoint parse_chars (s : list code_unit) : option (string * list code_unit) :=
  match s with
  | [] => None
  | c :: r =>
      if is_char c 34 then Some (EmptyString, r)
      else if is_char c 92 then
        match r with
        | [] => None
        | e :: r1 =>
            if is_char e 117 then
              match r1 with
              | h1 :: h2 :: h3 :: h4 :: r2 =>
                  match hex_value h1, hex_value h2, hex_value h3, hex_value h4
                  with
                  | Some a, Some b, Some c', Some d =>
                      let n := (((a * 16 + b) * 16 + c') * 16 + d)%N in
                      match parse_chars r2 with
                      | Some (str, rest) => Some (String n str, rest)
                      | None => None
                      end
                  | _, _, _, _ => None
                  end
              | _ => None
              end
            else
              match simple_escape e with
              | Some c' =>
                  match parse_chars r1 with
                  | Some (str, rest) => Some (String c' str, rest)
                  | None => None
                  end
              | None => None
              end
        end
      else if (c <? 32)%N then None
      else
        match parse_chars r with
        | Some (str, rest) => Some (String c str, rest)
        | None => None
        end
  end.

Fixpoint span_digits (s : list code_unit) : list code_unit * list code_unit :=
  match s with
  | c :: r =>
      if is_digit c then let (d, r') := span_digits r in (c :: d, r')
      else ([], s)
  | [] => ([], [])
  end.

(** The fraction of a numeral: a point and at least one digit, or
    nothing. *)
Definition parse_fraction (s : list code_unit)
  : option (list code_unit * list code_unit) :=
  match s with
  | c :: r =>
      if is_char c 46 then
        match span_digits r with
        | ([], _) => None
        | (ds, rest) => Some (ds, rest)
        end
      else Some ([], s)
  | [] => Some ([], [])
  end.

Definition parse_sign (s : list code_unit) : bool * list code_unit :=
  match s with
  | c :: r =>
      if is_char c 45 then (true, r)
      else if is_char c 43 then (false, r)
      else (false, s)
  | [] => (false, [])
  end.

(** The exponent of a numeral: [e] or [E], a sign or none, and at least
    one digit; or nothing. *)
Definition parse_exponent (s : list code_unit)
  : option (Z * list code_unit) :=
  match s with
  | c :: r =>
      if is_char c 101 || is_char c 69 then
        let (negative, r1) := parse_sign r in
        match span_digits r1 with
        | ([], _) => None
        | (ds, rest) =>
            let v := Z.of_N (digits_value 0 ds) in
            Some (if negative then - v else v, rest)
        end
      else Some (0, s)
  | [] => Some (0, [])
  end.

(** What follows the integer digits [int] of a numeral: a fraction
    and an exponent.  The value is the Number value for the decimal the
    numeral denotes. *)
Definition after_int (int r : list code_unit)
  : option (number * list code_unit) :=
  match parse_fraction r with
  | None => None
  | Some (frac, r1) =>
      match parse_exponent r1 with
      | None => None
      | Some (ex, rest) =>
          Some (decimal_to_number
                  (Z.of_N (digits_value 0 (int ++ frac)))
                  (ex - Z.of_nat (List.length frac)),
                rest)
      end
  end.

(** A numeral without its sign: [0] or a digit run without a leading
    zero, then a fraction and an exponent. *)
Definition parse_unsigned (s : list code_unit)
  : option (number * list code_unit) :=
  let (int, r) := span_digits s in
  match int with
  | [] => None
  | d :: more =>
      if is_char d 48 && negb (match more with [] => true | _ => false end)
      then None
      else after_int int r
  end.

Definition parse_number (s : list code_unit) : option (value * list code_unit) :=
  match s with
  | c :: r =>
      if is_char c 45 then
        match parse_unsigned r with
        | Some (x, rest) => Some (VNum (negate x), rest)
        | None => None
        end
      else
        match parse_unsigned s with
        | Some (x, rest) => Some (VNum x, rest)
        | None => None
        end
  | [] => None
  end.

Definition parse_literal (word : string) (x : value) (s : list code_unit)
  : option (value * list code_unit) :=
  match strip_prefix (chars word) s with
  | Some rest => Some (x, rest)
  | None => None
  end.

(** Recursive descent over the text.  Every call consumes a character,
    so a fuel of the length of the text never runs out. *)
Fixpoint parse_value (fuel : nat) (s : list code_unit) {struct fuel}
  : option (value * list code_unit) :=
  match fuel with
  | O => None
  | S f =>
      match skip_ws s with
      | [] => None
      | c :: r =>
          if is_char c 34 then
            match parse_chars r with
            | Some (str, rest) => Some (VStr str, rest)
            | None => None
            end
          else if is_char c 91 then
            match skip_ws r with
            | c2 :: r2 =>
                if is_char c2 93 then Some (VArr [], r2)
                else parse_elements f r []
            | [] => None
            end
          else if is_char c 123 then
            match skip_ws r with
            | c2 :: r2 =>
                if is_char c2 125 then Some (VObj [], r2)
                else parse_members f r []
            | [] => None
            end
          else if is_char c 110 then parse_literal "ull" VNull r
          else if is_char c 116 then parse_literal "rue" (VBool true) r
          else if is_char c 102 then parse_literal "alse" (VBool false) r
          else parse_number (c :: r)
      end
  end
with parse_elements (fuel : nat) (s : list code_unit) (acc : list value)
  {struct fuel} : option (value * list code_unit) :=
  match fuel with
  | O => None
  | S f =>
      match parse_value f s with
      | None => None
      | Some (x, r) =>
          match skip_ws r with
          | c :: r' =>
              if is_char c 44 then parse_elements f r' (x :: acc)
              else if is_char c 93 then Some (VArr (rev (x :: acc)), r')
              else None
          | [] => None
          end
      end
  end
with parse_members (fuel : nat) (s : list code_unit) (acc : props)
  {struct fuel} : option (value * list code_unit) :=
  match fuel with
  | O => None
  | S f =>
      match skip_ws s with
      | c :: r =>
          if is_char c 34 then
            match parse_chars r with
            | None => None
            | Some (k, r1) =>
                match skip_ws r1 with
                | c1 :: r2 =>
                    if is_char c1 58 then
                      match parse_value f r2 with
                      | None => None
                      | Some (x, r3) =>
                          match skip_ws r3 with
                          | c3 :: r4 =>
                              if is_char c3 44
                              then parse_members f r4 (put k x acc)
                              else if is_char c3 125
                              then Some (VObj (put k x acc), r4)
                              else None
                          | [] => None
                          end
                      end
                    else None
                | [] => None
                end
            end
          else None
      | [] => None
      end
  end.

(** [JSON.parse(s)]; [None] is the SyntaxError. *)
Definition parse (s : string) : option value :=
  let cs := chars s in
  match parse_value (S (List.length cs)) cs with
  | Some (x, rest) =>
      match skip_ws rest with
      | [] => Some x
      | _ :: _ => None
      end
  | None => None
  end.

(** *** Round trip: the measures and the well-formed documents *)

(** The elements of an array and the members of an object, as
    [serialize] writes them. *)
Fixpoint ser_elements (ind : list code_unit) (first : bool) (l : list value)
  : list code_unit :=
  match l with
  | [] => if first then [] else newline :: ind
  | y :: l' =>
      (if first then [newline] else [comma; newline])
      ++ (space :: space :: ind) ++ serialize (space :: space :: ind) y
      ++ ser_elements ind false l'
  end.

Fixpoint ser_members (ind : list code_unit) (first : bool) (o : props)
  : list code_unit :=
  match o with
  | [] => if first then [] else newline :: ind
  | (k, VUndef) :: o' => ser_members ind first o'
  | (k, y) :: o' =>
      (if first then [newline] else [comma; newline])
      ++ (space :: space :: ind) ++ quote k ++ [colon; space]
      ++ serialize (space :: space :: ind) y ++ ser_members ind false o'
  end.

Fixpoint compact_elements (first : bool) (l : list value) : list code_unit :=
  match l with
  | [] => []
  | y :: l' =>
      (if first then [] else [comma])
      ++ serialize_compact y ++ compact_elements false l'
  end.

Fixpoint compact_members (first : bool) (o : props) : list code_unit :=
  match o with
  | [] => []
  | (k, VUndef) :: o' => compact_members first o'
  | (k, y) :: o' =>
      (if first then [] else [comma])
      ++ quote k ++ [colon]
      ++ serialize_compact y ++ compact_members false o'
  end.

(** Fuel that parsing the text of [x] takes. *)
Fixpoint need (x : value) : nat :=
  match x with
  | VArr l =>
      S ((fix needs (l : list value) : nat :=
            match l with
            | [] => O
            | y :: r => S (need y + needs r)
            end) l)
  | VObj o =>
      S ((fix needs (o : props) : nat :=
            match o with
            | [] => O
            | (_, y) :: r => S (need y + needs r)
            end) o)
  | _ => 1%nat
  end.

Fixpoint needs (l : list value) : nat :=
  match l with
  | [] => O
  | y :: r => S (need y + needs r)
  end.

Fixpoint needs_members (o : props) : nat :=
  match o with
  | [] => O
  | (_, y) :: r => S (need y + needs_members r)
  end.

(** The numbers JSON text can hold: the finite ones, the negative zero
    left out (it is written as [0]). *)
Definition json_number (x : number) : bool :=
  match x with
  | Zero false | Finite _ _ _ => true
  | _ => false
  end.

(** A document as the editor holds it: no [undefined] in it, and in
    every object the properties in the order in which defining them one
    by one leaves them (as the properties of any JavaScript object
    are). *)
Fixpoint document (x : value) : Prop :=
  match x with
  | VUndef => False
  | VNull | VBool _ | VStr _ => True
  | VNum n => is_double n = true
  | VArr l =>
      (fix all (l : list value) : Prop :=
         match l with
         | [] => True
         | y :: r => document y /\ all r
         end) l
  | VObj o =>
      obj_lit_onto [] o = o
      /\ (fix all (o : props) : Prop :=
            match o with
            | [] => True
            | (_, y) :: r => document y /\ all r
            end) o
  end.

(** A document that JSON text can hold: one whose numbers are finite
    and not the negative zero. *)
Fixpoint well_formed (x : value) : Prop :=
  match x with
  | VUndef => False
  | VNull | VBool _ | VStr _ => True
  | VNum n => is_double n = true /\ json_number n = true
  | VArr l =>
      (fix all (l : list value) : Prop :=
         match l with
         | [] => True
         | y :: r => well_formed y /\ all r
         end) l
  | VObj o =>
      obj_lit_onto [] o = o
      /\ (fix all (o : props) : Prop :=
            match o with
            | [] => True
            | (_, y) :: r => well_formed y /\ all r
            end) o
  end.

(** What JSON text keeps of a number: one that is not finite becomes
    null, and the negative zero the positive one. *)
Definition number_image (x : number) : value :=
  match x with
  | NaN | Infinity _ => VNull
  | Zero _ => VNum (Zero false)
  | Finite _ _ _ => VNum x
  end.

(** What JSON text keeps of a document. *)
Fixpoint json_image (x : value) : value :=
  match x with
  | VNum n => number_image n
  | VArr l => VArr (map json_image l)
  | VObj o => VObj (map (fun '(k, y) => (k, json_image y)) o)
  | _ => x
  end.

Definition image_members (o : props) : props :=
  map (fun '(k, y) => (k, json_image y)) o.

(** What may follow a numeral: not a digit, a point or an exponent. *)
Definition number_end (rest : list code_unit) : bool :=
  match rest with
  | [] => true
  | c :: _ =>
      negb (is_digit c || is_char c 46 || is_char c 101 || is_char c 69)
  end.

End JSON.
Import JSON.

(** ** Number(text) *)

(** StringToNumber: the text without the white space around it is
    empty (the number is [0]), a numeral in radix 16, 8 or 2, or a
    signed decimal numeral or [Infinity]; any other text is NaN. *)
Fixpoint radix_value (radix acc : N) (s : list code_unit) : option N :=
  match s with
  | [] => Some acc
  | c :: r =>
      match hex_value c with
      | Some d =>
          if (d <? radix)%N then radix_value radix (acc * radix + d)%N r
          else None
      | None => None
      end
  end.

(** [0x], [0o] and [0b] numerals, with at least one digit and no sign. *)
Definition non_decimal_literal (s : list code_unit) : option number :=
  match s with
  | z :: p :: (_ :: _) as ds =>
      if is_char z 48 then
        let radix :=
          if is_char p 120 || is_char p 88 then Some 16%N
          else if is_char p 111 || is_char p 79 then Some 8%N
          else if is_char p 98 || is_char p 66 then Some 2%N
          else None in
        match radix with
        | Some radix =>
            match radix_value radix 0 ds with
            | Some n => Some (of_Z (Z.of_N n))
            | None => None
            end
        | None => None
        end
      else None
  | _ => None
  end.

(** StrUnsignedDecimalLiteral: digits with a point anywhere or nowhere,
    one digit at least, and an exponent or none. *)
Definition unsigned_decimal_literal (s : list code_unit) : option number :=
  if String.eqb (of_units s) "Infinity" then Some (Infinity false)
  else
    let (int, r) := span_digits s in
    let (frac, r1) :=
      match r with
      | c :: r' => if is_char c 46 then span_digits r' else ([], r)
      | [] => ([], [])
      end in
    match int ++ frac with
    | [] => None
    | ds =>
        match parse_exponent r1 with
        | Some (ex, []) =>
            Some (decimal_to_number
                    (Z.of_N (digits_value 0 ds))
                    (ex - Z.of_nat (List.length frac)))
        | _ => None
        end
    end.

Definition decimal_literal (s : list code_unit) : option number :=
  let (negative, r) := parse_sign s in
  match unsigned_decimal_literal r with
  | Some x => Some (if negative then negate x else x)
  | None => None
  end.

(** [Number(s)] for a string [s] *)
Definition Number (s : string) : number :=
  match units (trim s) with
  | [] => Zero false
  | text =>
      match non_decimal_literal text with
      | Some x => x
      | None =>
          match decimal_literal text with
          | Some x => x
          | None => NaN
          end
      end
  end.

(** ** The condition types (types/policy.ts) *)

(** [AVAILABLE_OPERATORS] of constants/policy.ts. *)
Inductive operator : Type :=
| OpEquals | OpNotEquals | OpLike | OpNotLike | OpMatch | OpMatchInsensitively
| OpNotMatch | OpNotMatchInsensitively | OpContains | OpNotContains
| OpIn | OpNotIn | OpContainsKey | OpNotContainsKey
| OpLess | OpLessOrEquals | OpGreater | OpGreaterOrEquals | OpExists.

Definition operator_name (op : operator) : string :=
  match op with
  | OpEquals => "equals" | OpNotEquals => "notEquals"
  | OpLike => "like" | OpNotLike => "notLike"
  | OpMatch => "match" | OpMatchInsensitively => "matchInsensitively"
  | OpNotMatch => "notMatch"
  | OpNotMatchInsensitively => "notMatchInsensitively"
  | OpContains => "contains" | OpNotContains => "notContains"
  | OpIn => "in" | OpNotIn => "notIn"
  | OpContainsKey => "containsKey" | OpNotContainsKey => "notContainsKey"
  | OpLess => "less" | OpLessOrEquals => "lessOrEquals"
  | OpGreater => "greater" | OpGreaterOrEquals => "greaterOrEquals"
  | OpExists => "exists"
  end.

(** [COUNT_OPERATORS] of constants/policy.ts. *)
Inductive count_operator : Type := CountGreater | CountLess | CountEquals.

Definition count_operator_name (op : count_operator) : string :=
  match op with
  | CountGreater => "greater"
  | CountLess => "less"
  | CountEquals => "equals"
  end.

Inductive kind : Type := AllOf | AnyOf.

Definition kind_key (k : kind) : string :=
  match k with AllOf => "allOf" | AnyOf => "anyOf" end.

Definition flip_kind (k : kind) : kind :=
  match k with AllOf => AnyOf | AnyOf => AllOf end.

(** The three unwrapped shapes: [SimpleCondition], [NestedCondition] and
    [CountCondition].  The children of a group, the value of a leaf, the
    [where] clause and the threshold of a count are kept as the
    JavaScript values they are. *)
Inductive plain_condition : Type :=
| Simple (field : string) (op : operator) (v : value)
| Nested (k : kind) (children : list value)
| Count (field : string) (where_ : value) (op : count_operator)
        (threshold : value).

(** A condition is one of the three shapes, bare or under one [not]. *)
Inductive condition : Type :=
| Plain (c : plain_condition)
| Negated (c : plain_condition).

(** The object a condition is in the document. *)
Definition plain_object (c : plain_condition) : value :=
  match c with
  | Simple f op v => VObj [("field", VStr f); (operator_name op, v)]
  | Nested k cs => VObj [(kind_key k, VArr cs)]
  | Count f w op n =>
      VObj [("count", VObj [("field", VStr f); ("where", w)]);
            (count_operator_name op, n)]
  end.

Definition condition_object (c : condition) : value :=
  match c with
  | Plain p => plain_object p
  | Negated p => VObj [("not", plain_object p)]
  end.

(** A group, bare or negated, as the root [if] and a nested child are. *)
Definition group_object (negated : bool) (k : kind) (children : list value)
  : value :=
  condition_object
    (if negated then Negated (Nested k children) else Plain (Nested k children)).

Definition toggle_negation (c : condition) : condition :=
  match c with
  | Plain p => Negated p
  | Negated p => Plain p
  end.

(** ** Type guards (components/ConditionGroup/types/index.ts) *)

Definition isSimpleCondition (c : value) : result bool :=
  f <- js_in "field" c ;;
  plain <- (if f then cnt <- js_in "count" c ;; Ok (negb cnt) else Ok false) ;;
  if plain then Ok true
  else
    n <- js_in "not" c ;;
    if n then inner <- js_get c "not" ;; js_in "field" inner else Ok false.

Definition isCountCondition (c : value) : result bool :=
  cnt <- js_in "count" c ;;
  if cnt then Ok true
  else
    n <- js_in "not" c ;;
    if n then inner <- js_get c "not" ;; js_in "count" inner else Ok false.

Definition isNestedCondition (c : value) : result bool :=
  n <- js_in "not" c ;;
  if n then
    notCondition <- js_get c "not" ;;
    a <- js_in "allOf" notCondition ;;
    if a then Ok true else js_in "anyOf" notCondition
  else
    a <- js_in "allOf" c ;;
    g <- (if a then Ok true else js_in "anyOf" c) ;;
    if g then cnt <- js_in "count" c ;; Ok (negb cnt) else Ok false.

(** ** useConditionGroup *)

(** What a handler did with its [onUpdate] callback: called it with a new
    value, or returned without calling it. *)
Inductive update (A : Type) : Type :=
| Updated (a : A)
| NoUpdate.
Arguments Updated {A} a.
Arguments NoUpdate {A}.

Module useConditionGroup.

Definition handleAddCondition (conditions : list value) : list value :=
  obj [("field", VStr ""); ("equals", VStr "")] :: conditions.

Definition handleAddNestedGroup (conditions : list value) (isNot : bool)
  : list value :=
  let newGroup := obj [("anyOf", VArr [])] in
  conditions ++ [if isNot then obj [("not", newGroup)] else newGroup].

Definition handleAddCountCondition (conditions : list value) : list value :=
  obj [("count", obj [("field", VStr ""); ("where", obj [("anyOf", VArr [])])]);
       ("greater", VNum 0)]
  :: conditions.

Definition handleRemoveCondition (conditions : list value) (idx : Z)
  : list value :=
  if (List.length conditions =? 1)%nat
  then [obj [("field", VStr ""); ("equals", VStr "")]]
  else js_filter (fun _ i => negb (i =? idx)) conditions.

Definition handleToggleGroupType (conditions : list value) (idx : Z)
  : result (update (list value)) :=
  let condition := arr_at conditions idx in
  nested <- isNestedCondition condition ;;
  if negb nested then Ok NoUpdate
  else
    isConditionNot <- js_in "not" condition ;;
    groupCondition <-
      (if isConditionNot then js_get condition "not" else Ok condition) ;;
    allOf <- js_get groupCondition "allOf" ;;
    anyOf <- js_get groupCondition "anyOf" ;;
    let currentConditions := js_or (js_or allOf anyOf) (VArr []) in
    let newType := if truthy allOf then "anyOf" else "allOf" in
    let newGroup := obj [(newType, currentConditions)] in
    let newConditions :=
      set_nth (Z.to_nat idx)
        (if isConditionNot then obj [("not", newGroup)] else newGroup)
        conditions in
    Ok (Updated newConditions).

(** [newConditions[idx] = updated] on a copy of the children. *)
Definition handleUpdateCondition (conditions : list value) (idx : Z)
    (updated : value) : option (list value) :=
  arr_set conditions idx updated.

Inductive Direction : Type := up | down.

(** The two elements are read first and then written,
    [newConditions[idx]] before [newConditions[targetIdx]]. *)
Definition handleMoveCondition (conditions : list value) (idx : Z)
    (direction : Direction) : option (update (list value)) :=
  if match direction with
     | up => idx =? 0
     | down => idx =? Z.of_nat (List.length conditions) - 1
     end
  then Some NoUpdate
  else
    let targetIdx :=
      match direction with up => idx - 1 | down => idx + 1 end in
    let atTarget := arr_at conditions targetIdx in
    let atIdx := arr_at conditions idx in
    match arr_set conditions idx atTarget with
    | Some newConditions =>
        match arr_set newConditions targetIdx atIdx with
        | Some swapped => Some (Updated swapped)
        | None => None
        end
    | None => None
    end.

End useConditionGroup.
Import useConditionGroup.

(** ** useCondition *)

(** [keys.find(key => key !== k) || default] *)
Definition first_key_other_than (k : string) (default : string)
    (keys : list string) : string :=
  match find (fun key => negb (String.eqb key k)) keys with
  | Some key => if String.eqb key "" then default else key
  | None => default
  end.

Module useCondition.

Record condition_state : Type := {
  cs_isNot : bool;
  cs_simpleCondition : value;
  cs_operator : string
}.

(** The values the hook computes when it renders. *)
Definition state (condition : value) : result condition_state :=
  isNot <- js_in "not" condition ;;
  simpleCondition <- (if isNot then js_get condition "not" else Ok condition) ;;
  keys <- object_keys simpleCondition ;;
  Ok {| cs_isNot := isNot; cs_simpleCondition := simpleCondition;
        cs_operator := first_key_other_than "field" "equals" keys |}.

(** The [value] the hook returns for the value field: the compact JSON
    text of an array under [in] and [notIn], the stored value otherwise. *)
Definition value_ (st : condition_state) : result value :=
  let operator := cs_operator st in
  currentValue <- js_get (cs_simpleCondition st) operator ;;
  Ok (if String.eqb operator "in" || String.eqb operator "notIn" then
        match currentValue with
        | VArr _ =>
            match JSON.stringify_compact currentValue with
            | Some text => VStr text
            | None => VUndef
            end
        | _ => currentValue
        end
      else currentValue).

(** [checked] is the state the NOT checkbox has been put in. *)
Definition handleNotToggle (st : condition_state) (checked : bool) : value :=
  if checked then obj [("not", cs_simpleCondition st)]
  else cs_simpleCondition st.

Definition handleOperatorChange (st : condition_state) (newOperator : string)
  : result value :=
  let simpleCondition := cs_simpleCondition st in
  oldValue <- js_get simpleCondition (cs_operator st) ;;
  let rest := VObj (remove_prop (cs_operator st) (own_props simpleCondition)) in
  field <- js_get simpleCondition "field" ;;
  let newCondition :=
    spread_lit rest [("field", field); (newOperator, oldValue)] in
  Ok (if cs_isNot st then obj [("not", newCondition)] else newCondition).

Definition handleValueChange (st : condition_state) (newValue : string)
  : value :=
  let operator := cs_operator st in
  let processedValue :=
    if String.eqb operator "in" || String.eqb operator "notIn" then
      match JSON.parse newValue with
      | Some (VArr l) => VArr l
      | Some _ => VStr newValue
      | None => VStr newValue
      end
    else VStr newValue in
  let newCondition :=
    spread_lit (cs_simpleCondition st) [(operator, processedValue)] in
  if cs_isNot st then obj [("not", newCondition)] else newCondition.

Definition handleFieldChange (st : condition_state) (newField : string)
  : value :=
  let newCondition :=
    spread_lit (cs_simpleCondition st) [("field", VStr newField)] in
  if cs_isNot st then obj [("not", newCondition)] else newCondition.

End useCondition.
Import useCondition.

(** ** useCountCondition *)

Module useCountCondition.

Definition isCountNot (condition : value) : result bool :=
  js_in "not" condition.

Definition getCurrentOperator (condition : value) : result string :=
  n <- isCountNot condition ;;
  if n then
    inner <- js_get condition "not" ;;
    keys <- object_keys inner ;;
    Ok (first_key_other_than "count" "greater" keys)
  else
    keys <- object_keys condition ;;
    Ok (first_key_other_than "count" "greater" keys).

Definition getCurrentValue (condition : value) : result value :=
  operator <- getCurrentOperator condition ;;
  n <- isCountNot condition ;;
  if n then inner <- js_get condition "not" ;; js_get inner operator
  else js_get condition operator.

Definition handleToggleCountNot (condition : value) : result value :=
  operator <- getCurrentOperator condition ;;
  currentValue <- getCurrentValue condition ;;
  n <- isCountNot condition ;;
  if n then
    inner <- js_get condition "not" ;;
    count <- js_get inner "count" ;;
    v <- js_get inner operator ;;
    Ok (obj [("count", count); (operator, v)])
  else
    count <- js_get condition "count" ;;
    Ok (obj [("not", obj [("count", count); (operator, currentValue)])]).

Definition getCountField (condition : value) : result value :=
  n <- isCountNot condition ;;
  if n then
    inner <- js_get condition "not" ;;
    count <- js_get inner "count" ;;
    js_get count "field"
  else
    count <- js_get condition "count" ;;
    js_get count "field".

Definition handleFieldChange (condition : value) (field : string)
  : result value :=
  n <- isCountNot condition ;;
  if n then
    inner <- js_get condition "not" ;;
    count <- js_get inner "count" ;;
    Ok (obj [("not",
              spread_lit inner [
                ("count", spread_lit count [("field", VStr field)])])])
  else
    count <- js_get condition "count" ;;
    Ok (spread_lit condition [
          ("count", spread_lit count [("field", VStr field)])]).

Definition handleOperatorChange (condition : value) (newOperator : string)
  : result value :=
  currentValue <- getCurrentValue condition ;;
  n <- isCountNot condition ;;
  if n then
    inner <- js_get condition "not" ;;
    count <- js_get inner "count" ;;
    Ok (obj [("not", obj [("count", count); (newOperator, currentValue)])])
  else
    count <- js_get condition "count" ;;
    Ok (obj [("count", count); (newOperator, currentValue)]).

(** A text that [Number] reads as a number, the empty text left out,
    is stored as that number; any other text as the string it is. *)
Definition handleValueChange (condition : value) (val : string)
  : result value :=
  operator <- getCurrentOperator condition ;;
  let isNumber := negb (isNaN (Number val)) && negb (String.eqb val "") in
  let processedValue := if isNumber then VNum (Number val) else VStr val in
  n <- isCountNot condition ;;
  if n then
    inner <- js_get condition "not" ;;
    count <- js_get inner "count" ;;
    Ok (obj [("not", obj [("count", count); (operator, processedValue)])])
  else
    count <- js_get condition "count" ;;
    Ok (obj [("count", count); (operator, processedValue)]).

End useCountCondition.
Import useCountCondition.

(** ** useWhereCondition *)

Module useWhereCondition.

Definition isCountNot (condition : value) : result bool :=
  js_in "not" condition.

Definition isWhereNot (condition : value) : result bool :=
  n <- isCountNot condition ;;
  if n then
    inner <- js_get condition "not" ;;
    count <- js_get inner "count" ;;
    where_ <- js_get count "where" ;;
    js_in "not" where_
  else
    count <- js_get condition "count" ;;
    where_ <- js_get count "where" ;;
    js_in "not" where_.

(** The [whereCondition] that [getWhereType] and [getWhereConditions]
    both compute: the [where] clause, under its [not] when it has one. *)
Definition whereCondition (condition : value) : result value :=
  n <- isCountNot condition ;;
  countCondition <-
    (if n then inner <- js_get condition "not" ;; js_get inner "count"
     else js_get condition "count") ;;
  whereNot <- isWhereNot condition ;;
  where_ <- js_get countCondition "where" ;;
  if whereNot then js_get where_ "not" else Ok where_.

Definition getWhereType (condition : value) : result string :=
  w <- whereCondition condition ;;
  a <- js_in "allOf" w ;;
  Ok (if a then "allOf" else "anyOf").

Definition getWhereConditions (condition : value) : result value :=
  type <- getWhereType condition ;;
  w <- whereCondition condition ;;
  cs <- js_get w type ;;
  Ok (js_or cs (VArr [])).

(** The [onUpdate] call the three handlers end with. *)
Definition update_where (condition newWhereCondition : value)
  : result value :=
  n <- isCountNot condition ;;
  if n then
    inner <- js_get condition "not" ;;
    count <- js_get inner "count" ;;
    Ok (obj [("not",
              spread_lit inner [
                ("count", spread_lit count [("where", newWhereCondition)])])])
  else
    count <- js_get condition "count" ;;
    Ok (spread_lit condition [
          ("count", spread_lit count [("where", newWhereCondition)])]).

Definition handleWhereConditionsUpdate (condition : value)
    (conditions : list value) : result value :=
  type <- getWhereType condition ;;
  whereNot <- isWhereNot condition ;;
  let newWhereCondition :=
    if whereNot then obj [("not", obj [(type, VArr conditions)])]
    else obj [(type, VArr conditions)] in
  update_where condition newWhereCondition.

Definition handleToggleWhereType (condition : value) : result value :=
  currentType <- getWhereType condition ;;
  let newType := if String.eqb currentType "allOf" then "anyOf" else "allOf" in
  conditions <- getWhereConditions condition ;;
  whereNot <- isWhereNot condition ;;
  let newWhereCondition :=
    if whereNot then obj [("not", obj [(newType, conditions)])]
    else obj [(newType, conditions)] in
  update_where condition newWhereCondition.

Definition handleToggleWhereNot (condition : value) : result value :=
  type <- getWhereType condition ;;
  conditions <- getWhereConditions condition ;;
  whereNot <- isWhereNot condition ;;
  let newWhereCondition :=
    if whereNot then obj [(type, conditions)]
    else obj [("not", obj [(type, conditions)])] in
  update_where condition newWhereCondition.

End useWhereCondition.

(** ** ConditionItem *)

Module ConditionItem.

(** The nested-group branch. *)

Record group_props : Type := {
  gp_isNot : bool;
  gp_type : string;
  gp_conditions : value
}.

Definition group (condition : value) : result group_props :=
  isNot <- js_in "not" condition ;;
  groupCondition <- (if isNot then js_get condition "not" else Ok condition) ;;
  a <- js_in "allOf" groupCondition ;;
  let groupType := if a then "allOf" else "anyOf" in
  cs <- js_get groupCondition groupType ;;
  Ok {| gp_isNot := isNot; gp_type := groupType;
        gp_conditions := js_or cs (VArr []) |}.

(** The [onUpdate] the item hands to its [ConditionGroup]. *)
Definition onUpdate (g : group_props)
    (updatedConditions : list value) : value :=
  let newGroup := obj [(gp_type g, VArr updatedConditions)] in
  if gp_isNot g then obj [("not", newGroup)] else newGroup.

(** The [onToggleNot] the item hands to its [ConditionGroup]. *)
Definition onToggleNot (g : group_props) : value :=
  let newGroup := obj [(gp_type g, gp_conditions g)] in
  if gp_isNot g then newGroup else obj [("not", newGroup)].

(** What the item renders: the editor of the first guard that holds of
    the condition, or nothing. *)
Inductive rendering : Type :=
| ConditionEditor
| CountConditionEditor
| ConditionGroup
| nothing.

Definition render (condition : value) : result rendering :=
  simple <- isSimpleCondition condition ;;
  if simple then Ok ConditionEditor
  else
    cnt <- isCountCondition condition ;;
    if cnt then Ok CountConditionEditor
    else
      nested <- isNestedCondition condition ;;
      if nested then Ok ConditionGroup else Ok nothing.

(** Which editor, and so which NOT toggle, a child gets: a leaf gets the
    ConditionEditor, whose NOT checkbox shows [isNot] and hands the
    flipped state to [handleNotToggle]; a count gets the
    CountConditionEditor and [handleToggleCountNot]; a group gets a
    ConditionGroup with [onToggleNot]; anything else renders nothing. *)
Definition toggleNot (condition : value)
  : result (update value) :=
  simple <- isSimpleCondition condition ;;
  if simple then
    st <- useCondition.state condition ;;
    Ok (Updated (handleNotToggle st (negb (cs_isNot st))))
  else
    cnt <- isCountCondition condition ;;
    if cnt then
      c <- handleToggleCountNot condition ;; Ok (Updated c)
    else
      nested <- isNestedCondition condition ;;
      if nested then
        g <- group condition ;;
        Ok (Updated (onToggleNot g))
      else Ok NoUpdate.

End ConditionItem.

(** ** usePolicyEditorState *)

(** [initialPolicyTemplate] of constants/policy.ts. *)
Definition initialPolicyTemplate : value :=
  obj [("properties", obj [
    ("displayName", VStr "");
    ("description", VStr "");
    ("policyType", VStr "Custom");
    ("mode", VStr "All");
    ("metadata", obj [
      ("version", VStr "1.0.0");
      ("category", VStr "");
      ("preview", VBool false)]);
    ("version", VStr "1.0.0");
    ("parameters", obj [
      ("effect", obj [
        ("type", VStr "String");
        ("metadata", obj [
          ("displayName", VStr "Effect");
          ("description", VStr
             "The effect determines what happens when the policy rule is evaluated to match")]);
        ("allowedValues", VArr [VStr "Audit"; VStr "Deny"; VStr "Disabled"]);
        ("defaultValue", VStr "Audit")])]);
    ("policyRule", obj [
      ("if", obj [("allOf", VArr [])]);
      ("then", obj [("effect", VStr "[parameters('effect')]")])])])].

Module usePolicyEditorState.

(** The policy document and the selected effect. *)
Record editor_state : Type := {
  policy : value;
  selectedEffect : string
}.

Definition initial_state : editor_state :=
  {| policy := initialPolicyTemplate; selectedEffect := "audit" |}.

(** Case mapping of the letters a-z and A-Z, which are the letters of
    the effects the selector offers; the other code units are left as
    they are.  No character other than a capital letter A-Z is mapped
    by [toLowerCase] to text made of the letters of [modify] only, so
    the test [value.toLowerCase() === 'modify'] is decided as in
    JavaScript on every string. *)
Definition lower_char (c : code_unit) : code_unit :=
  if ((65 <=? c) && (c <=? 90))%N then (c + 32)%N else c.

Definition upper_char (c : code_unit) : code_unit :=
  if ((97 <=? c) && (c <=? 122))%N then (c - 32)%N else c.

Fixpoint map_string (f : code_unit -> code_unit) (s : string) : string :=
  match s with
  | EmptyString => EmptyString
  | String c r => String (f c) (map_string f r)
  end.

Definition toLowerCase : string -> string := map_string lower_char.
Definition toUpperCase : string -> string := map_string upper_char.

(** [{...prev, properties: {...prev.properties, [k]: x}}] *)
Definition with_property (prev : value) (k : string) (x : value)
  : result value :=
  properties <- js_get prev "properties" ;;
  Ok (spread_lit prev [("properties", spread_lit properties [(k, x)])]).

Definition set_policy (st : editor_state) (p : value) : editor_state :=
  {| policy := p; selectedEffect := selectedEffect st |}.

Definition handleDisplayNameChange (st : editor_state) (val : string)
  : result editor_state :=
  p <- with_property (policy st) "displayName" (VStr val) ;;
  Ok (set_policy st p).

Definition handleDescriptionChange (st : editor_state) (val : string)
  : result editor_state :=
  p <- with_property (policy st) "description" (VStr val) ;;
  Ok (set_policy st p).

Definition handleCategoryChange (st : editor_state) (val : string)
  : result editor_state :=
  properties <- js_get (policy st) "properties" ;;
  metadata <- js_get properties "metadata" ;;
  p <- with_property (policy st) "metadata"
         (spread_lit metadata [("category", VStr val)]) ;;
  Ok (set_policy st p).

Definition handleModeChange (st : editor_state) (val : string)
  : result editor_state :=
  p <- with_property (policy st) "mode" (VStr val) ;;
  Ok (set_policy st p).

Definition effect_allowedValues (val : string) : value :=
  if String.eqb (toLowerCase val) "modify"
  then VArr [VStr "Modify"; VStr "Disabled"]
  else VArr [VStr "Audit"; VStr "Deny"; VStr "Disabled"].

Definition handleEffectChange (st : editor_state) (val : string)
  : result editor_state :=
  let defaultValue :=
    match val with
    | EmptyString => EmptyString
    | String c r =>
        String.append (toUpperCase (String c EmptyString)) (toLowerCase r)
    end in
  let prev := policy st in
  properties <- js_get prev "properties" ;;
  parameters <- js_get properties "parameters" ;;
  effect <- js_get parameters "effect" ;;
  policyRule <- js_get properties "policyRule" ;;
  let then_ :=
    if String.eqb (toLowerCase val) "modify" then
      obj [("effect", VStr "[parameters('effect')]");
           ("details", obj [
              ("roleDefinitionIds", VArr []);
              ("operations", VArr [obj [("operation", VStr "add");
                                        ("field", VStr "");
                                        ("value", VStr "")]])])]
    else obj [("effect", VStr "[parameters('effect')]")] in
  Ok {| policy :=
          spread_lit prev [("properties", spread_lit properties [
            ("parameters", spread_lit parameters [
               ("effect", spread_lit effect [
                  ("allowedValues", effect_allowedValues val);
                  ("defaultValue", VStr defaultValue)])]);
            ("policyRule", spread_lit policyRule [("then", then_)])])];
        selectedEffect := val |}.

(** A falsy argument ([undefined] or the empty string) and a text that
    does not parse leave the state as it is. *)
Definition handleEditorChange (st : editor_state) (val : option string)
  : editor_state :=
  match val with
  | None => st
  | Some text =>
      if String.eqb text "" then st
      else
        match JSON.parse text with
        | Some updatedPolicy => set_policy st updatedPolicy
        | None => st
        end
  end.

Definition policy_if (p : value) : result value :=
  properties <- js_get p "properties" ;;
  policyRule <- js_get properties "policyRule" ;;
  js_get policyRule "if".

Definition isRootNot (p : value) : result bool :=
  ifc <- policy_if p ;; js_in "not" ifc.

Definition root_ifCondition (p : value) : result value :=
  n <- isRootNot p ;;
  ifc <- policy_if p ;;
  if n then js_get ifc "not" else Ok ifc.

Definition getCurrentGroupType (p : value) : result string :=
  ifCondition <- root_ifCondition p ;;
  a <- js_in "allOf" ifCondition ;;
  Ok (if a then "allOf" else "anyOf").

Definition getCurrentConditions (p : value) : result value :=
  type <- getCurrentGroupType p ;;
  ifCondition <- root_ifCondition p ;;
  cs <- js_get ifCondition type ;;
  Ok (js_or cs (VArr [])).

(** The [setPolicy] updater shared by the three root handlers. *)
Definition set_if (prev : value) (newIfCondition : value) : result value :=
  properties <- js_get prev "properties" ;;
  policyRule <- js_get properties "policyRule" ;;
  Ok (spread_lit prev [("properties", spread_lit properties [
        ("policyRule", spread_lit policyRule [("if", newIfCondition)])])]).

Definition handleUpdateConditions (st : editor_state)
    (conditions : list value) : result editor_state :=
  type <- getCurrentGroupType (policy st) ;;
  isNot <- isRootNot (policy st) ;;
  let newIfCondition :=
    if isNot then obj [("not", obj [(type, VArr conditions)])]
    else obj [(type, VArr conditions)] in
  p <- set_if (policy st) newIfCondition ;;
  Ok (set_policy st p).

Definition handleToggleGroupType (st : editor_state)
  : result editor_state :=
  currentType <- getCurrentGroupType (policy st) ;;
  let newType := if String.eqb currentType "allOf" then "anyOf" else "allOf" in
  conditions <- getCurrentConditions (policy st) ;;
  isNot <- isRootNot (policy st) ;;
  let newIfCondition :=
    if isNot then obj [("not", obj [(newType, conditions)])]
    else obj [(newType, conditions)] in
  p <- set_if (policy st) newIfCondition ;;
  Ok (set_policy st p).

Definition handleToggleNot (st : editor_state) : result editor_state :=
  type <- getCurrentGroupType (policy st) ;;
  conditions <- getCurrentConditions (policy st) ;;
  isNot <- isRootNot (policy st) ;;
  let newIfCondition :=
    if isNot then obj [(type, conditions)]
    else obj [("not", obj [(type, conditions)])] in
  p <- set_if (policy st) newIfCondition ;;
  Ok (set_policy st p).

Definition handleUpdateDetails (st : editor_state) (details : value)
  : result editor_state :=
  properties <- js_get (policy st) "properties" ;;
  policyRule <- js_get properties "policyRule" ;;
  p <- with_property (policy st) "policyRule"
         (spread_lit policyRule [
            ("then", obj [("effect", VStr "[parameters('effect')]");
                          ("details", details)])]) ;;
  Ok (set_policy st p).

Definition handleUpdateParameter (st : editor_state) (name : string)
    (parameter : value) : result editor_state :=
  properties <- js_get (policy st) "properties" ;;
  parameters <- js_get properties "parameters" ;;
  p <- with_property (policy st) "parameters"
         (spread_lit parameters [(name, parameter)]) ;;
  Ok (set_policy st p).

Definition handleRemoveParameter (st : editor_state) (name : string)
  : result editor_state :=
  if String.eqb name "effect" then Ok st
  else
    properties <- js_get (policy st) "properties" ;;
    parameters <- js_get properties "parameters" ;;
    let newParameters := VObj (remove_prop name (own_props parameters)) in
    p <- with_property (policy st) "parameters" newParameters ;;
    Ok (set_policy st p).

End usePolicyEditorState.
Import usePolicyEditorState.

(** ** OperationsList, DetailsForm and DetailsTab *)

Module OperationsList.

Definition handleAddOperation (operations : list value) : list value :=
  operations
  ++ [obj [("operation", VStr ""); ("field", VStr ""); ("value", VStr "")]].

Definition handleRemoveOperation (operations : list value) (index : Z)
  : list value :=
  js_filter (fun _ i => negb (i =? index)) operations.

Definition handleOperationChange (operations : list value) (index : Z)
    (field val : string) : list value :=
  js_map
    (fun op i =>
       if i =? index then
         if String.eqb field "condition" && negb (truthy (VStr (trim val)))
         then VObj (remove_prop "condition" (own_props op))
         else spread_lit op [(field, VStr val)]
       else op)
    operations.

End OperationsList.

Module DetailsForm.

Record form_props : Type := {
  roleDefinitionIds : value;
  conflictEffect : value;
  operations : value
}.

(** [{ roleDefinitionIds, ...(conflictEffect && { conflictEffect }),
      operations }] *)
Definition details (roleDefinitionIds conflictEffect operations : value)
  : value :=
  VObj
    (obj_lit_onto
       (obj_lit_onto
          (obj_lit_onto [] [("roleDefinitionIds", roleDefinitionIds)])
          (own_props
             (js_and conflictEffect
                (obj [("conflictEffect", conflictEffect)]))))
       [("operations", operations)]).

Definition handleUpdateRoles (p : form_props) (newRoleIds : value) : value :=
  details newRoleIds (conflictEffect p) (operations p).

Definition handleUpdateEffect (p : form_props) (newEffect : value) : value :=
  details (roleDefinitionIds p) newEffect (operations p).

Definition handleUpdateOperations (p : form_props) (newOperations : value)
  : value :=
  details (roleDefinitionIds p) (conflictEffect p) newOperations.

End DetailsForm.

Module DetailsTab.

(** The props the tab hands to the DetailsForm. *)
Definition form_props (policy : value) : result DetailsForm.form_props :=
  properties <- js_get policy "properties" ;;
  policyRule <- js_get properties "policyRule" ;;
  then_ <- js_get policyRule "then" ;;
  details <- js_get then_ "details" ;;
  roleDefinitionIds <- js_get_optional details "roleDefinitionIds" ;;
  conflictEffect <- js_get_optional details "conflictEffect" ;;
  operations <- js_get_optional details "operations" ;;
  Ok {| DetailsForm.roleDefinitionIds := js_or roleDefinitionIds (VArr []);
        DetailsForm.conflictEffect := js_or conflictEffect (VStr "");
        DetailsForm.operations := js_or operations (VArr []) |}.

End DetailsTab.

(** ** validation.ts and useParameters *)

Definition isValidJSONArray (str : string) : bool :=
  match JSON.parse str with
  | Some (VArr _) => true
  | _ => false
  end.

Module useParameters.

Record ParameterForm : Type := {
  name : string;
  type : string;
  description : string;
  displayName : string;
  allowedValues : list string;
  defaultValue : string
}.

(** [name.includes(' ')] *)
Definition includes_space (name : string) : bool :=
  existsb (fun c => is_char c 32) (units name).

Definition validateParameterName (name : string) : bool :=
  if negb (truthy (VStr (trim name))) then false
  else if includes_space name then false
  else true.

Definition validateForm (parameterForm : ParameterForm) : bool :=
  if negb (validateParameterName (name parameterForm)) then false
  else if match allowedValues parameterForm with
          | first :: _ => truthy (VStr first) && negb (isValidJSONArray first)
          | [] => false
          end
  then false
  else if String.eqb (type parameterForm) "object"
          && truthy (VStr (defaultValue parameterForm))
  then match JSON.parse (defaultValue parameterForm) with
       | Some _ => true
       | None => false
       end
  else true.

(** What the submission of the form does with [onUpdate]: [Updated] with
    the name and the parameter object, [NoUpdate] when the form is not
    valid or a [JSON.parse] of the [try] block throws. *)
Definition handleAddParameter (parameterForm : ParameterForm)
  : update (string * value) :=
  if negb (validateForm parameterForm) then NoUpdate
  else
    let type := type parameterForm in
    let defaultValue := defaultValue parameterForm in
    let allowed : option props :=
      match allowedValues parameterForm with
      | first :: _ =>
          if truthy (VStr first) then
            match JSON.parse first with
            | Some parsed => Some [("allowedValues", parsed)]
            | None => None
            end
          else Some []
      | [] => Some []
      end in
    let default : option value :=
      if String.eqb type "object" then
        if truthy (VStr defaultValue) then JSON.parse defaultValue
        else Some (obj [])
      else if String.eqb type "array" then JSON.parse defaultValue
      else if String.eqb type "integer" || String.eqb type "float"
      then Some (VNum (Number defaultValue))
      else Some (VStr defaultValue) in
    match allowed, default with
    | Some allowed, Some default =>
        Updated
          (name parameterForm,
           VObj
             (obj_lit_onto
                (obj_lit_onto
                   (obj_lit_onto []
                      [("type", VStr type);
                       ("metadata",
                        obj [("displayName",
                              VStr (displayName parameterForm));
                             ("description",
                              VStr (description parameterForm))])])
                   allowed)
                [("defaultValue", default)]))
    | _, _ => NoUpdate
    end.

End useParameters.

(** The edits the editor offers, one per handler. *)
Inductive edit : Type :=
| DisplayNameChange (val : string)
| DescriptionChange (val : string)
| CategoryChange (val : string)
| ModeChange (val : string)
| EffectChange (val : string)
| EditorChange (val : option string)
| UpdateConditions (conditions : list value)
| ToggleGroupType
| ToggleNot
| UpdateDetails (details : value)
| UpdateParameter (name : string) (parameter : value)
| RemoveParameter (name : string).

Definition apply_edit (st : editor_state) (e : edit) : result editor_state :=
  match e with
  | DisplayNameChange v => handleDisplayNameChange st v
  | DescriptionChange v => handleDescriptionChange st v
  | CategoryChange v => handleCategoryChange st v
  | ModeChange v => handleModeChange st v
  | EffectChange v => handleEffectChange st v
  | EditorChange v => Ok (handleEditorChange st v)
  | UpdateConditions cs => handleUpdateConditions st cs
  | ToggleGroupType => usePolicyEditorState.handleToggleGroupType st
  | ToggleNot => handleToggleNot st
  | UpdateDetails d => handleUpdateDetails st d
  | UpdateParameter n x => handleUpdateParameter st n x
  | RemoveParameter n => handleRemoveParameter st n
  end.

(** [policy.properties.parameters.effect.allowedValues] *)
Definition effect_parameter_allowedValues (p : value) : result value :=
  properties <- js_get p "properties" ;;
  parameters <- js_get properties "parameters" ;;
  effect <- js_get parameters "effect" ;;
  js_get effect "allowedValues".

(** The allowed values the selected effect calls for. *)
Definition allowedValues_match (st : editor_state) : Prop :=
  effect_parameter_allowedValues (policy st)
  = Ok (effect_allowedValues (selectedEffect st)).

(** A key that does not start with a digit, and is not [length], names
    no element and no built-in property of an array or a string. *)
Definition named (k : string) : bool :=
  match k with
  | EmptyString => true
  | String c _ => negb (is_digit c) && negb (String.eqb k "length")
  end.

(** The policy [p] is an object whose [properties.policyRule.if] is [g]:
    [o], [po] and [ro] are the properties of the document, of
    [properties] and of [policyRule]. *)
Definition root_shape (p : value) (o po ro : props) (g : value) : Prop :=
  p = VObj o
  /\ own_get "properties" o = Some (VObj po)
  /\ own_get "policyRule" po = Some (VObj ro)
  /\ own_get "if" ro = Some g.

Definition with_if (o po ro : props) (g : value) : value :=
  VObj (put "properties"
          (VObj (put "policyRule" (VObj (put "if" g ro)) po)) o).

(** The edits made through the form: every handler but the replacement
    of the whole document by JSON text and the definition of a parameter
    under the name [effect]. *)
Definition form_edit (e : edit) : bool :=
  match e with
  | EditorChange _ => false
  | UpdateParameter name _ => negb (String.eqb name "effect")
  | _ => true
  end.

Inductive form_reachable : editor_state -> Prop :=
| form_init : form_reachable initial_state
| form_step st e st' :
    form_reachable st -> form_edit e = true -> apply_edit st e = Ok st' ->
    form_reachable st'.

(** The policy [p] is an object whose
    [properties.parameters.effect.allowedValues] is [x]. *)
Definition effect_shape (p : value) (o po pa ef : props) (x : value) : Prop :=
  p = VObj o
  /\ own_get "properties" o = Some (VObj po)
  /\ own_get "parameters" po = Some (VObj pa)
  /\ own_get "effect" pa = Some (VObj ef)
  /\ own_get "allowedValues" ef = Some x.

(** The parameter form filled in with the name [effect] and nothing
    else: the type is the [string] the form starts with. *)
Definition effect_form : useParameters.ParameterForm :=
  {| useParameters.name := "effect";
     useParameters.type := "string";
     useParameters.description := "";
     useParameters.displayName := "";
     useParameters.allowedValues := [];
     useParameters.defaultValue := "" |}.

(** The state after choosing the effect [modify] in the template. *)
Definition modify_state : editor_state :=
  match handleEffectChange initial_state "modify" with
  | Ok st => st
  | TypeError => initial_state
  end.

(** The template with one leaf in its root group. *)
Definition one_leaf_state : editor_state :=
  match
    handleUpdateConditions initial_state
      [plain_object (Simple "location" OpEquals (VStr "westus"))]
  with
  | Ok st => st
  | TypeError => initial_state
  end.

(** The template after a count condition and a negated leaf were put
    into its root group. *)
Definition sample_state : editor_state :=
  match
    handleUpdateConditions initial_state
      (handleAddCountCondition
         [condition_object
            (Negated (Simple "location" OpIn
                        (VArr [VStr "westus"; VStr "eastus"])))])
  with
  | Ok st => st
  | TypeError => initial_state
  end.

(** The template after a count condition was put into its root group
    and the text [Infinity] was typed as its threshold. *)
Definition infinite_threshold_state : editor_state :=
  match
    c <- useCountCondition.handleValueChange
           (plain_object (Count "" (obj [("anyOf", VArr [])]) CountGreater
                            (VNum 0)))
           "Infinity" ;;
    handleUpdateConditions initial_state [c]
  with
  | Ok st => st
  | TypeError => initial_state
  end.

(** Two presses of the same control, the second on what the first
    produced. *)
Definition twice {A} (f : A -> result (update A)) (x : A)
  : result (update A) :=
  r <- f x ;;
  match r with
  | Updated y => f y
  | NoUpdate => Ok NoUpdate
  end.

Definition is_nested (c : condition) : bool :=
  match c with
  | Plain (Nested _ _) | Negated (Nested _ _) => true
  | _ => false
  end.

Definition is_simple (c : condition) : bool :=
  match c with
  | Plain (Simple _ _ _) | Negated (Simple _ _ _) => true
  | _ => false
  end.

(** The values that have properties to test with [in]: objects, arrays
    among them.  On anything else [k in x] throws. *)
Definition is_object (x : value) : bool :=
  match x with
  | VObj _ | VArr _ => true
  | _ => false
  end.

Definition is_count (c : condition) : bool :=
  match c with
  | Plain (Count _ _ _ _) | Negated (Count _ _ _ _) => true
  | _ => false
  end.

(** A shape, bare or under [not]. *)
Definition with_negation (negated : bool) (p : plain_condition) : condition :=
  if negated then Negated p else Plain p.

(** A count condition whose [where] clause is a group. *)
Definition counted (negated : bool) (f : string) (wn : bool) (wk : kind)
    (wcs : list value) (op : count_operator) (n : value) : value :=
  condition_object
    (with_negation negated (Count f (group_object wn wk wcs) op n)).

Definition is_editor_change (e : edit) : bool :=
  match e with EditorChange _ => true | _ => false end.

(** The skeleton the handlers count on: the document, its [properties],
    [parameters] and [policyRule] are objects, and the [if] of the rule
    is a group, bare or negated. *)
Definition policy_shape (p : value) : Prop :=
  exists (o po pa ro : props) (negated : bool) (k : kind) (cs : list value),
    p = VObj o
    /\ own_get "properties" o = Some (VObj po)
    /\ own_get "parameters" po = Some (VObj pa)
    /\ own_get "policyRule" po = Some (VObj ro)
    /\ own_get "if" ro = Some (group_object negated k cs).

(** [st'] differs from [st] in the property [k] of [properties], now
    [x], and in nothing else. *)
Definition changes_only (k : string) (x : value) (st st' : editor_state)
  : Prop :=
  exists o po o' po' : props,
    policy st = VObj o /\ own_get "properties" o = Some (VObj po)
    /\ policy st' = VObj o' /\ own_get "properties" o' = Some (VObj po')
    /\ own_get k po' = Some x
    /\ (forall k', k' <> k -> own_get k' po' = own_get k' po)
    /\ (forall k', k' <> "properties" -> own_get k' o' = own_get k' o)
    /\ selectedEffect st' = selectedEffect st.

(** [st'] differs from [st] in the property [k] of [policyRule], now
    [x], and in nothing else. *)
Definition changes_rule_only (k : string) (x : value) (st st' : editor_state)
  : Prop :=
  exists po ro ro' : props,
    js_get (policy st) "properties" = Ok (VObj po)
    /\ own_get "policyRule" po = Some (VObj ro)
    /\ changes_only "policyRule" (VObj ro') st st'
    /\ own_get k ro' = Some x
    /\ (forall k', k' <> k -> own_get k' ro' = own_get k' ro).

(** [policy.properties.policyRule.then] *)
Definition policy_then (p : value) : result value :=
  properties <- js_get p "properties" ;;
  policyRule <- js_get properties "policyRule" ;;
  js_get policyRule "then".

(** [policy.properties.parameters] *)
Definition policy_parameters (p : value) : result value :=
  properties <- js_get p "properties" ;;
  js_get properties "parameters".

(** * Properties *)

(** ** Strings *)

Lemma string_eqb_spec (a b : string) : reflect (a = b) (String.eqb a b).
Proof.
  revert b. induction a as [| c a IH]; intros [| d b]; cbn [String.eqb];
    try (constructor; congruence).
  destruct (N.eqb_spec c d) as [-> | Hne]; cbn [andb].
  - destruct (IH b) as [-> | Hne]; constructor; congruence.
  - constructor. congruence.
Qed.

Lemma string_eqb_refl (a : string) : String.eqb a a = true.
Proof. now destruct (string_eqb_spec a a). Qed.

Lemma string_eqb_neq (a b : string) : String.eqb a b = false <-> a <> b.
Proof. destruct (string_eqb_spec a b); split; congruence. Qed.

Lemma units_of_units (l : list code_unit) : units (of_units l) = l.
Proof. induction l as [| c l IH]; cbn; congruence. Qed.

Lemma of_units_units (s : string) : of_units (units s) = s.
Proof. induction s as [| c s IH]; cbn; congruence. Qed.

(** ** Arrays *)

Lemma arr_at_middle (before after : list value) (x : value) :
  arr_at (before ++ x :: after) (Z.of_nat (List.length before)) = x.
Proof.
  unfold arr_at.
  destruct (Z.ltb_spec (Z.of_nat (List.length before)) 0) as [H | _]; [lia |].
  rewrite Nat2Z.id. apply nth_middle.
Qed.

Lemma set_nth_middle (before after : list value) (x y : value) :
  set_nth (List.length before) y (before ++ x :: after) = before ++ y :: after.
Proof.
  induction before as [| b before IH]; simpl; [reflexivity |].
  now rewrite IH.
Qed.

Lemma arr_at_outside (l : list value) (idx : Z) :
  idx < 0 \/ Z.of_nat (List.length l) <= idx -> arr_at l idx = VUndef.
Proof.
  intros H. unfold arr_at.
  destruct (Z.ltb_spec idx 0) as [| Hge]; [reflexivity |].
  apply nth_overflow. lia.
Qed.

(** ** Group edits *)

Lemma flip_kind_involutive (k : kind) : flip_kind (flip_kind k) = k.
Proof. now destruct k. Qed.

(** C3: a new leaf goes to the front of the children and a new group to
    their end (wrapped in [not] when the parent is negated); the children
    already there keep their order. *)
Theorem add_keeps_children_in_order (conditions : list value) (isNot : bool) :
  handleAddCondition conditions
    = plain_object (Simple "" OpEquals (VStr "")) :: conditions
  /\ handleAddNestedGroup conditions isNot
    = conditions ++ [group_object isNot AnyOf []].
Proof.
  split; [reflexivity |].
  unfold handleAddNestedGroup. now destruct isNot.
Qed.

(** C10: with exactly one child, removal does not look at its index:
    whatever the index, in range or not, the children become the single
    fresh empty leaf. *)
Theorem remove_ignores_index_of_only_child (c : value) (idx : Z) :
  handleRemoveCondition [c] idx = [plain_object (Simple "" OpEquals (VStr ""))].
Proof. reflexivity. Qed.

Lemma handleToggleGroupType_flips
    (before after : list value) (negated : bool) (k : kind)
    (children : list value) :
  useConditionGroup.handleToggleGroupType
    (before ++ group_object negated k children :: after)
    (Z.of_nat (List.length before))
  = Ok (Updated
          (before ++ group_object negated (flip_kind k) children :: after)).
Proof.
  unfold useConditionGroup.handleToggleGroupType.
  rewrite arr_at_middle.
  destruct negated, k; cbn -[Z.to_nat Z.of_nat set_nth];
    now rewrite Nat2Z.id, set_nth_middle.
Qed.

Lemma handleToggleGroupType_not_nested
    (before after : list value) (c : condition) :
  is_nested c = false ->
  useConditionGroup.handleToggleGroupType
    (before ++ condition_object c :: after) (Z.of_nat (List.length before))
  = Ok NoUpdate.
Proof.
  intros H. unfold useConditionGroup.handleToggleGroupType.
  rewrite arr_at_middle.
  destruct c as [[f op v | k cs | f w op n] | [f op v | k cs | f w op n]];
    try discriminate H; destruct op; reflexivity.
Qed.

Lemma handleToggleGroupType_outside (conditions : list value) (idx : Z) :
  idx < 0 \/ Z.of_nat (List.length conditions) <= idx ->
  useConditionGroup.handleToggleGroupType conditions idx = TypeError.
Proof.
  intros H. unfold useConditionGroup.handleToggleGroupType.
  now rewrite (arr_at_outside _ _ H).
Qed.

(** ** Property lists *)

Lemma own_get_replace_prop_same (k : string) (v : value) (o : props) :
  has_own k o = true -> own_get k (replace_prop k v o) = Some v.
Proof.
  unfold has_own. induction o as [| [k' v'] r IH]; simpl; [discriminate |].
  destruct (String.eqb k k') eqn:E; simpl; rewrite E; auto.
Qed.

Lemma own_get_replace_prop_other (k k' : string) (v : value) (o : props) :
  k <> k' -> own_get k' (replace_prop k v o) = own_get k' o.
Proof.
  intros Hne. induction o as [| [k0 v0] r IH]; simpl; [reflexivity |].
  destruct (string_eqb_spec k k0) as [-> | Hk]; simpl.
  - destruct (string_eqb_spec k' k0); [congruence | reflexivity].
  - now rewrite IH.
Qed.

Lemma own_get_insert_prop_same (k : string) (v : value) (o : props) :
  own_get k o = None -> own_get k (insert_prop k v o) = Some v.
Proof.
  induction o as [| [k' v'] r IH]; simpl.
  - now rewrite string_eqb_refl.
  - destruct (String.eqb k k') eqn:E; [discriminate |]. intros H.
    destruct (key_before k k'); simpl.
    + now rewrite string_eqb_refl.
    + rewrite E. auto.
Qed.

Lemma own_get_insert_prop_other (k k' : string) (v : value) (o : props) :
  k <> k' -> own_get k' (insert_prop k v o) = own_get k' o.
Proof.
  intros Hne. induction o as [| [k0 v0] r IH]; simpl.
  - destruct (string_eqb_spec k' k); [congruence | reflexivity].
  - destruct (key_before k k0); simpl.
    + destruct (string_eqb_spec k' k); [congruence | reflexivity].
    + now rewrite IH.
Qed.

Lemma own_get_put_same (k : string) (v : value) (o : props) :
  own_get k (put k v o) = Some v.
Proof.
  unfold put. destruct (has_own k o) eqn:E.
  - now apply own_get_replace_prop_same.
  - apply own_get_insert_prop_same. unfold has_own in E.
    destruct (own_get k o); [discriminate | reflexivity].
Qed.

Lemma own_get_put_other (k k' : string) (v : value) (o : props) :
  k <> k' -> own_get k' (put k v o) = own_get k' o.
Proof.
  intros Hne. unfold put. destruct (has_own k o).
  - now apply own_get_replace_prop_other.
  - now apply own_get_insert_prop_other.
Qed.

Lemma has_own_put_same (k : string) (v : value) (o : props) :
  has_own k (put k v o) = true.
Proof. unfold has_own. now rewrite own_get_put_same. Qed.

Lemma replace_prop_twice (k : string) (v v' : value) (o : props) :
  replace_prop k v (replace_prop k v' o) = replace_prop k v o.
Proof.
  induction o as [| [k' v0] r IH]; simpl; [reflexivity |].
  destruct (String.eqb k k') eqn:E; simpl; rewrite E; [reflexivity |].
  now rewrite IH.
Qed.

Lemma replace_prop_insert_prop (k : string) (v v' : value) (o : props) :
  own_get k o = None ->
  replace_prop k v (insert_prop k v' o) = insert_prop k v o.
Proof.
  induction o as [| [k' v0] r IH]; simpl.
  - now rewrite string_eqb_refl.
  - destruct (String.eqb k k') eqn:E; [discriminate |]. intros H.
    destruct (key_before k k'); simpl.
    + now rewrite string_eqb_refl.
    + rewrite E. now rewrite IH.
Qed.

Lemma put_put_same (k : string) (v v' : value) (o : props) :
  put k v (put k v' o) = put k v o.
Proof.
  unfold put at 1. rewrite has_own_put_same. unfold put.
  destruct (has_own k o) eqn:E.
  - apply replace_prop_twice.
  - apply replace_prop_insert_prop. unfold has_own in E.
    destruct (own_get k o); [discriminate | reflexivity].
Qed.

Lemma replace_prop_own (k : string) (v : value) (o : props) :
  own_get k o = Some v -> replace_prop k v o = o.
Proof.
  induction o as [| [k' v0] r IH]; simpl; [reflexivity |].
  destruct (string_eqb_spec k k') as [-> | Hne].
  - now intros [= ->].
  - intros H. now rewrite IH.
Qed.

Lemma put_own (k : string) (v : value) (o : props) :
  own_get k o = Some v -> put k v o = o.
Proof.
  intros H. unfold put, has_own. rewrite H. now apply replace_prop_own.
Qed.

Lemma nat_numeral_head (i : nat) :
  exists c r, nat_numeral i = String c r /\ is_digit c = true.
Proof.
  unfold nat_numeral, digits.
  destruct (N.to_uint (N.of_nat i)); simpl; eauto.
Qed.

Lemma own_get_indexed_named {A} (f : A -> value) (k : string) (l : list A) :
  named k = true -> forall i, own_get k (indexed_from f i l) = None.
Proof.
  intros Hk. induction l as [| x r IH]; intros i; simpl; [reflexivity |].
  destruct (nat_numeral_head i) as (c & s & -> & Hc).
  destruct k as [| c' k']; simpl; [apply IH |].
  simpl in Hk. destruct (N.eqb_spec c' c) as [-> | _]; [| apply IH].
  rewrite Hc in Hk. discriminate.
Qed.

Lemma named_not_length (k : string) :
  named k = true -> String.eqb k "length" = false.
Proof.
  destruct k as [| a k]; [reflexivity |]. unfold named.
  now destruct (is_digit a), (String.eqb (String a k) "length").
Qed.

Lemma js_get_named (x : value) (k : string) (v : value) :
  named k = true -> js_get x k = Ok v -> v <> VUndef ->
  exists o, x = VObj o /\ own_get k o = Some v.
Proof.
  intros Hk H Hv. destruct x as [| | b | n | s | l | o]; simpl in H;
    try discriminate.
  - congruence.
  - congruence.
  - rewrite own_get_indexed_named, named_not_length in H by assumption.
    congruence.
  - rewrite own_get_indexed_named, named_not_length in H by assumption.
    congruence.
  - exists o. split; [reflexivity |].
    destruct (own_get k o); congruence.
Qed.

Lemma insert_prop_named (k : string) (v : value) (o : props) :
  array_index k = None -> insert_prop k v o = o ++ [(k, v)].
Proof.
  intros Hk. induction o as [| [k' v'] r IH]; cbn [insert_prop app];
    [reflexivity |].
  unfold key_before. rewrite Hk. now rewrite IH.
Qed.

Lemma own_get_absent (k : string) (o : props) :
  ~ In k (map fst o) -> own_get k o = None.
Proof.
  induction o as [| [k' v'] r IH]; cbn [own_get map fst In];
    [reflexivity |].
  intros H. destruct (string_eqb_spec k k') as [-> | _]; [tauto |].
  apply IH. tauto.
Qed.

Lemma obj_lit_onto_named (o acc : props) :
  NoDup (map fst (acc ++ o)) ->
  Forall (fun kv => array_index (fst kv) = None) o ->
  obj_lit_onto acc o = acc ++ o.
Proof.
  revert acc. induction o as [| [k v] r IH]; intros acc Hnd Hnamed.
  - cbn. now rewrite List.app_nil_r.
  - inversion Hnamed as [| ? ? Hk Hr]; subst. cbn [fst] in Hk.
    unfold obj_lit_onto in *. cbn [fold_left fst snd].
    assert (Hput : put k v acc = acc ++ [(k, v)]).
    { unfold put, has_own. rewrite own_get_absent.
      - now apply insert_prop_named.
      - rewrite map_app in Hnd. cbn [map fst] in Hnd.
        apply NoDup_remove_2 in Hnd. intros Hin. apply Hnd.
        apply in_or_app. now left. }
    rewrite Hput, IH; [now rewrite <- app_assoc | | assumption].
    now rewrite <- app_assoc.
Qed.

(** Properties with pairwise distinct keys, none of them an array index,
    are in enumeration order. *)
Lemma distinct_named_keys_in_order (o : props) :
  NoDup (map fst o) ->
  Forall (fun kv => array_index (fst kv) = None) o ->
  obj_lit_onto [] o = o.
Proof. intros Hnd Hnamed. now apply (obj_lit_onto_named o []). Qed.

Lemma js_get_own (o : props) (k : string) (v : value) :
  own_get k o = Some v -> js_get (VObj o) k = Ok v.
Proof. intros H. simpl. now rewrite H. Qed.

(** ** The root group of the policy *)

Lemma policy_if_shape (p g : value) :
  policy_if p = Ok g -> g <> VUndef ->
  exists o po ro, root_shape p o po ro g.
Proof.
  unfold policy_if. intros H Hg.
  destruct (js_get p "properties") as [properties |] eqn:E1; [| discriminate].
  simpl in H.
  destruct (js_get properties "policyRule") as [rule |] eqn:E2;
    [| discriminate].
  simpl in H.
  destruct (js_get_named rule "if" g eq_refl H Hg) as (ro & -> & Hro).
  destruct (js_get_named properties "policyRule" _ eq_refl E2)
    as (po & -> & Hpo); [discriminate |].
  destruct (js_get_named p "properties" _ eq_refl E1)
    as (o & -> & Ho); [discriminate |].
  exists o, po, ro. repeat split; assumption.
Qed.

Lemma root_shape_policy_if (p : value) (o po ro : props) (g : value) :
  root_shape p o po ro g -> policy_if p = Ok g.
Proof.
  intros (-> & Ho & Hpo & Hro). unfold policy_if.
  rewrite (js_get_own _ _ _ Ho). cbn [bind].
  rewrite (js_get_own _ _ _ Hpo). cbn [bind].
  now apply js_get_own.
Qed.

Lemma set_if_shape (p : value) (o po ro : props) (g new : value) :
  root_shape p o po ro g ->
  set_if p new = Ok (with_if o po ro new)
  /\ root_shape (with_if o po ro new)
       (put "properties" (VObj (put "policyRule" (VObj (put "if" new ro)) po)) o)
       (put "policyRule" (VObj (put "if" new ro)) po)
       (put "if" new ro) new.
Proof.
  intros (-> & Ho & Hpo & Hro). split.
  - unfold set_if. rewrite (js_get_own _ _ _ Ho). cbn [bind].
    rewrite (js_get_own _ _ _ Hpo). reflexivity.
  - repeat split; apply own_get_put_same.
Qed.

Lemma with_if_back (p : value) (o po ro : props) (g new : value) :
  root_shape p o po ro g ->
  with_if
    (put "properties" (VObj (put "policyRule" (VObj (put "if" new ro)) po)) o)
    (put "policyRule" (VObj (put "if" new ro)) po)
    (put "if" new ro) g
  = p.
Proof.
  intros (-> & Ho & Hpo & Hro). unfold with_if.
  rewrite !put_put_same.
  rewrite (put_own "if" g ro Hro), (put_own "policyRule" _ po Hpo).
  now rewrite (put_own "properties" _ o Ho).
Qed.

Lemma set_policy_back (st : editor_state) (p : value) :
  set_policy (set_policy st p) (policy st) = st.
Proof. now destruct st. Qed.

Lemma group_object_defined (negated : bool) (k : kind) (cs : list value) :
  group_object negated k cs <> VUndef.
Proof. now destruct negated. Qed.

Lemma root_view (p : value) (negated : bool) (k : kind) (cs : list value) :
  policy_if p = Ok (group_object negated k cs) ->
  isRootNot p = Ok negated
  /\ getCurrentGroupType p = Ok (kind_key k)
  /\ getCurrentConditions p = Ok (VArr cs).
Proof.
  intros H.
  unfold getCurrentConditions, getCurrentGroupType, root_ifCondition, isRootNot.
  rewrite H. now destruct negated, k.
Qed.

Lemma handleToggleNot_root
    (st : editor_state) (negated : bool) (k : kind) (cs : list value) :
  policy_if (policy st) = Ok (group_object negated k cs) ->
  exists st',
    handleToggleNot st = Ok st'
    /\ policy_if (policy st') = Ok (group_object (negb negated) k cs)
    /\ selectedEffect st' = selectedEffect st
    /\ handleToggleNot st' = Ok st.
Proof.
  intros H.
  destruct (policy_if_shape _ _ H (group_object_defined _ _ _))
    as (o & po & ro & Hs).
  destruct (root_view _ _ _ _ H) as (Hn & Ht & Hc).
  destruct (set_if_shape _ _ _ _ _ (group_object (negb negated) k cs) Hs)
    as (Hset & Hs').
  assert (H' := root_shape_policy_if _ _ _ _ _ Hs').
  destruct (root_view _ _ _ _ H') as (Hn' & Ht' & Hc').
  destruct (set_if_shape _ _ _ _ _ (group_object negated k cs) Hs')
    as (Hset' & _).
  rewrite (with_if_back _ _ _ _ _ _ Hs) in Hset'.
  exists (set_policy st (with_if o po ro (group_object (negb negated) k cs))).
  repeat split.
  - unfold handleToggleNot. rewrite Ht, Hc, Hn. cbn [bind].
    replace (if negated then _ else _)
      with (group_object (negb negated) k cs) by now destruct negated, k.
    now rewrite Hset.
  - exact H'.
  - unfold handleToggleNot. simpl policy. rewrite Ht', Hc', Hn'. cbn [bind].
    replace (if negb negated then _ else _)
      with (group_object negated k cs) by now destruct negated, k.
    rewrite Hset'. simpl. now rewrite set_policy_back.
Qed.

Lemma root_handleToggleGroupType_root
    (st : editor_state) (negated : bool) (k : kind) (cs : list value) :
  policy_if (policy st) = Ok (group_object negated k cs) ->
  exists st',
    usePolicyEditorState.handleToggleGroupType st = Ok st'
    /\ policy_if (policy st') = Ok (group_object negated (flip_kind k) cs)
    /\ selectedEffect st' = selectedEffect st
    /\ usePolicyEditorState.handleToggleGroupType st' = Ok st.
Proof.
  intros H.
  destruct (policy_if_shape _ _ H (group_object_defined _ _ _))
    as (o & po & ro & Hs).
  destruct (root_view _ _ _ _ H) as (Hn & Ht & Hc).
  destruct (set_if_shape _ _ _ _ _ (group_object negated (flip_kind k) cs) Hs)
    as (Hset & Hs').
  assert (H' := root_shape_policy_if _ _ _ _ _ Hs').
  destruct (root_view _ _ _ _ H') as (Hn' & Ht' & Hc').
  destruct (set_if_shape _ _ _ _ _ (group_object negated k cs) Hs')
    as (Hset' & _).
  rewrite (with_if_back _ _ _ _ _ _ Hs) in Hset'.
  exists (set_policy st
            (with_if o po ro (group_object negated (flip_kind k) cs))).
  repeat split.
  - unfold usePolicyEditorState.handleToggleGroupType.
    rewrite Ht, Hc, Hn. cbn [bind].
    replace (if negated then _ else _)
      with (group_object negated (flip_kind k) cs) by now destruct negated, k.
    now rewrite Hset.
  - exact H'.
  - unfold usePolicyEditorState.handleToggleGroupType. simpl policy.
    rewrite Ht', Hc', Hn'. cbn [bind].
    replace (if negated then _ else _)
      with (group_object negated k cs) by now destruct negated, k.
    rewrite Hset'. simpl. now rewrite set_policy_back.
Qed.

(** ** The effect parameter *)

(** Unfold the object literals of a handler into their [put]s. *)
Ltac lit :=
  unfold spread_lit, obj_lit_onto; cbn [fold_left fst snd own_props].
Ltac lit_in H :=
  unfold spread_lit, obj_lit_onto in H; cbn [fold_left fst snd own_props] in H.

Lemma effect_allowedValues_defined (e : string) :
  effect_allowedValues e <> VUndef.
Proof. unfold effect_allowedValues. now destruct (String.eqb _ _). Qed.

Lemma allowedValues_shape (p x : value) :
  effect_parameter_allowedValues p = Ok x -> x <> VUndef ->
  exists o po pa ef, effect_shape p o po pa ef x.
Proof.
  unfold effect_parameter_allowedValues. intros H Hx.
  destruct (js_get p "properties") as [properties |] eqn:E1; [| discriminate].
  cbn [bind] in H.
  destruct (js_get properties "parameters") as [parameters |] eqn:E2;
    [| discriminate].
  cbn [bind] in H.
  destruct (js_get parameters "effect") as [effect |] eqn:E3; [| discriminate].
  cbn [bind] in H.
  destruct (js_get_named effect "allowedValues" x eq_refl H Hx)
    as (ef & -> & Hef).
  destruct (js_get_named parameters "effect" _ eq_refl E3)
    as (pa & -> & Hpa); [discriminate |].
  destruct (js_get_named properties "parameters" _ eq_refl E2)
    as (po & -> & Hpo); [discriminate |].
  destruct (js_get_named p "properties" _ eq_refl E1)
    as (o & -> & Ho); [discriminate |].
  exists o, po, pa, ef. repeat split; assumption.
Qed.

Lemma own_get_remove_prop_other (k k' : string) (o : props) :
  k <> k' -> own_get k' (remove_prop k o) = own_get k' o.
Proof.
  intros Hne. induction o as [| [k0 v0] r IH]; simpl; [reflexivity |].
  destruct (string_eqb_spec k k0) as [-> | Hk]; simpl.
  - destruct (string_eqb_spec k' k0); [congruence | reflexivity].
  - now rewrite IH.
Qed.

(** Reading the allowed values back from a document whose [properties]
    were rebuilt around the same [parameters]. *)
Lemma allowedValues_of_properties (o po' pa ef : props) (x : value) :
  own_get "parameters" po' = Some (VObj pa) ->
  own_get "effect" pa = Some (VObj ef) ->
  own_get "allowedValues" ef = Some x ->
  effect_parameter_allowedValues (VObj (put "properties" (VObj po') o)) = Ok x.
Proof.
  intros Hpo Hpa Hef. unfold effect_parameter_allowedValues.
  rewrite (js_get_own _ "properties" _ (own_get_put_same _ _ _)). cbn [bind].
  rewrite (js_get_own _ _ _ Hpo). cbn [bind].
  rewrite (js_get_own _ _ _ Hpa). cbn [bind].
  now apply js_get_own.
Qed.

Lemma with_property_keeps_allowedValues
    (p : value) (o po pa ef : props) (x : value) (k : string) (y : value) :
  effect_shape p o po pa ef x -> k <> "parameters" ->
  exists p', with_property p k y = Ok p'
             /\ effect_parameter_allowedValues p' = Ok x.
Proof.
  intros (-> & Ho & Hpo & Hpa & Hef) Hk.
  unfold with_property. rewrite (js_get_own _ _ _ Ho). cbn [bind].
  eexists. split; [reflexivity |].
  lit.
  apply (allowedValues_of_properties _ _ pa ef); try assumption.
  now rewrite own_get_put_other.
Qed.

Lemma with_parameters_keeps_allowedValues
    (p : value) (o po pa ef : props) (x : value) (pa' : props) :
  effect_shape p o po pa ef x ->
  own_get "effect" pa' = Some (VObj ef) ->
  exists p', with_property p "parameters" (VObj pa') = Ok p'
             /\ effect_parameter_allowedValues p' = Ok x.
Proof.
  intros (-> & Ho & Hpo & Hpa & Hef) Hpa'.
  unfold with_property. rewrite (js_get_own _ _ _ Ho). cbn [bind].
  eexists. split; [reflexivity |].
  lit.
  apply (allowedValues_of_properties _ _ pa' ef); try assumption.
  apply own_get_put_same.
Qed.

Lemma set_if_keeps_allowedValues
    (p : value) (o po pa ef : props) (x new p' : value) :
  effect_shape p o po pa ef x ->
  set_if p new = Ok p' ->
  effect_parameter_allowedValues p' = Ok x.
Proof.
  intros (-> & Ho & Hpo & Hpa & Hef). unfold set_if.
  rewrite (js_get_own _ _ _ Ho). cbn [bind].
  destruct (js_get (VObj po) "policyRule") as [rule |]; [| discriminate].
  cbn [bind]. intros [= <-].
  lit.
  apply (allowedValues_of_properties _ _ pa ef); try assumption.
  now rewrite own_get_put_other.
Qed.

Lemma handleEffectChange_sets_allowedValues
    (st st' : editor_state) (val : string) :
  handleEffectChange st val = Ok st' ->
  effect_parameter_allowedValues (policy st') = Ok (effect_allowedValues val)
  /\ selectedEffect st' = val.
Proof.
  unfold handleEffectChange. intros H.
  destruct (js_get (policy st) "properties") as [properties |];
    [| discriminate].
  cbn [bind] in H.
  destruct (js_get properties "parameters") as [parameters |];
    [| discriminate].
  cbn [bind] in H.
  destruct (js_get parameters "effect") as [effect |]; [| discriminate].
  cbn [bind] in H.
  destruct (js_get properties "policyRule") as [policyRule |];
    [| discriminate].
  cbn [bind] in H. injection H as <-. split; [| reflexivity].
  cbn [policy]. lit.
  eapply allowedValues_of_properties.
  - rewrite own_get_put_other by discriminate. apply own_get_put_same.
  - apply own_get_put_same.
  - rewrite own_get_put_other by discriminate. apply own_get_put_same.
Qed.

Lemma form_edit_keeps_allowedValues (st st' : editor_state) (e : edit) :
  allowedValues_match st -> form_edit e = true ->
  apply_edit st e = Ok st' -> allowedValues_match st'.
Proof.
  unfold allowedValues_match. intros Hinv He Hstep.
  destruct (allowedValues_shape _ _ Hinv (effect_allowedValues_defined _))
    as (o & po & pa & ef & Hs).
  assert (Hkeep : forall k y,
             k <> "parameters" ->
             (p <- with_property (policy st) k y ;; Ok (set_policy st p))
             = Ok st' ->
             effect_parameter_allowedValues (policy st')
             = Ok (effect_allowedValues (selectedEffect st'))).
  { intros k y Hk H.
    destruct (with_property_keeps_allowedValues _ _ _ _ _ _ k y Hs Hk)
      as (p' & Hp' & Hav).
    rewrite Hp' in H. cbn [bind] in H. injection H as <-. exact Hav. }
  assert (Hroot : forall new,
             (p <- set_if (policy st) new ;; Ok (set_policy st p)) = Ok st' ->
             effect_parameter_allowedValues (policy st')
             = Ok (effect_allowedValues (selectedEffect st'))).
  { intros new H.
    destruct (set_if (policy st) new) as [p' |] eqn:Hset; [| discriminate].
    cbn [bind] in H. injection H as <-.
    exact (set_if_keeps_allowedValues _ _ _ _ _ _ _ _ Hs Hset). }
  destruct Hs as (Hp & Ho & Hpo & Hpa & Hef).
  destruct e as [v | v | v | v | v | v | cs | | | d | n x | n];
    cbn [apply_edit] in Hstep; try discriminate He.
  - apply (Hkeep "displayName" (VStr v)); [discriminate | exact Hstep].
  - apply (Hkeep "description" (VStr v)); [discriminate | exact Hstep].
  - unfold handleCategoryChange in Hstep.
    destruct (js_get (policy st) "properties") as [properties |];
      [| discriminate].
    cbn [bind] in Hstep.
    destruct (js_get properties "metadata") as [metadata |]; [| discriminate].
    cbn [bind] in Hstep.
    eapply (Hkeep "metadata"); [discriminate | exact Hstep].
  - apply (Hkeep "mode" (VStr v)); [discriminate | exact Hstep].
  - destruct (handleEffectChange_sets_allowedValues _ _ _ Hstep) as (H1 & H2).
    now rewrite H2.
  - unfold handleUpdateConditions in Hstep.
    destruct (getCurrentGroupType (policy st)) as [type |]; [| discriminate].
    cbn [bind] in Hstep.
    destruct (isRootNot (policy st)) as [isNot |]; [| discriminate].
    cbn [bind] in Hstep. eapply Hroot, Hstep.
  - unfold usePolicyEditorState.handleToggleGroupType in Hstep.
    destruct (getCurrentGroupType (policy st)) as [type |]; [| discriminate].
    cbn [bind] in Hstep.
    destruct (getCurrentConditions (policy st)) as [cs |]; [| discriminate].
    cbn [bind] in Hstep.
    destruct (isRootNot (policy st)) as [isNot |]; [| discriminate].
    cbn [bind] in Hstep. eapply Hroot, Hstep.
  - unfold handleToggleNot in Hstep.
    destruct (getCurrentGroupType (policy st)) as [type |]; [| discriminate].
    cbn [bind] in Hstep.
    destruct (getCurrentConditions (policy st)) as [cs |]; [| discriminate].
    cbn [bind] in Hstep.
    destruct (isRootNot (policy st)) as [isNot |]; [| discriminate].
    cbn [bind] in Hstep. eapply Hroot, Hstep.
  - unfold handleUpdateDetails in Hstep.
    destruct (js_get (policy st) "properties") as [properties |];
      [| discriminate].
    cbn [bind] in Hstep.
    destruct (js_get properties "policyRule") as [rule |]; [| discriminate].
    cbn [bind] in Hstep.
    eapply (Hkeep "policyRule"); [discriminate | exact Hstep].
  - cbn [form_edit] in He. apply negb_true_iff in He.
    apply string_eqb_neq in He.
    unfold handleUpdateParameter in Hstep. rewrite Hp in Hstep.
    rewrite (js_get_own _ _ _ Ho) in Hstep. cbn [bind] in Hstep.
    rewrite (js_get_own _ _ _ Hpo) in Hstep. cbn [bind] in Hstep.
    lit_in Hstep.
    destruct (with_parameters_keeps_allowedValues (policy st) o po pa ef
                (effect_allowedValues (selectedEffect st)) (put n x pa))
      as (p' & Hp' & Hav).
    { repeat split; assumption. }
    { now rewrite own_get_put_other. }
    rewrite Hp in Hp'. rewrite Hp' in Hstep. cbn [bind] in Hstep.
    injection Hstep as <-. exact Hav.
  - unfold handleRemoveParameter in Hstep.
    destruct (string_eqb_spec n "effect") as [-> | Hn].
    + injection Hstep as <-. exact Hinv.
    + rewrite Hp in Hstep.
      rewrite (js_get_own _ _ _ Ho) in Hstep. cbn [bind] in Hstep.
      rewrite (js_get_own _ _ _ Hpo) in Hstep. cbn [bind own_props] in Hstep.
      destruct (with_parameters_keeps_allowedValues (policy st) o po pa ef
                  (effect_allowedValues (selectedEffect st))
                  (remove_prop n pa))
        as (p' & Hp' & Hav).
      { repeat split; assumption. }
      { now rewrite own_get_remove_prop_other. }
      rewrite Hp in Hp'. rewrite Hp' in Hstep. cbn [bind] in Hstep.
      injection Hstep as <-. exact Hav.
Qed.

Lemma handleUpdateConditions_root
    (st : editor_state) (negated : bool) (k : kind) (cs new : list value) :
  policy_if (policy st) = Ok (group_object negated k cs) ->
  exists st',
    handleUpdateConditions st new = Ok st'
    /\ policy_if (policy st') = Ok (group_object negated k new).
Proof.
  intros H.
  destruct (policy_if_shape _ _ H (group_object_defined _ _ _))
    as (o & po & ro & Hs).
  destruct (root_view _ _ _ _ H) as (Hn & Ht & _).
  destruct (set_if_shape _ _ _ _ _ (group_object negated k new) Hs)
    as (Hset & Hs').
  exists (set_policy st (with_if o po ro (group_object negated k new))).
  split.
  - unfold handleUpdateConditions. rewrite Ht, Hn. cbn [bind].
    replace (if negated then _ else _)
      with (group_object negated k new) by now destruct negated, k.
    now rewrite Hset.
  - exact (root_shape_policy_if _ _ _ _ _ Hs').
Qed.

(** C2: removing the only child of a group (a nested child or the root,
    bare or negated, allOf or anyOf) leaves a group of the same kind with
    exactly one child, the fresh empty leaf [{field: "", equals: ""}]. *)
Theorem remove_only_child_leaves_empty_leaf :
  (forall (negated : bool) (k : kind) (c : value),
      exists g,
        ConditionItem.group (group_object negated k [c]) = Ok g
        /\ ConditionItem.gp_conditions g = VArr [c]
        /\ ConditionItem.onUpdate g (handleRemoveCondition [c] 0)
           = group_object negated k
               [plain_object (Simple "" OpEquals (VStr ""))])
  /\ (forall (st : editor_state) (negated : bool) (k : kind) (c : value),
         policy_if (policy st) = Ok (group_object negated k [c]) ->
         getCurrentConditions (policy st) = Ok (VArr [c])
         /\ exists st',
              handleUpdateConditions st (handleRemoveCondition [c] 0) = Ok st'
              /\ policy_if (policy st')
                 = Ok (group_object negated k
                         [plain_object (Simple "" OpEquals (VStr ""))])).
Proof.
  split.
  - intros negated k c. destruct negated, k; eexists; repeat split; reflexivity.
  - intros st negated k c H. split.
    + now destruct (root_view _ _ _ _ H) as (_ & _ & Hc).
    + exact (handleUpdateConditions_root st negated k [c] _ H).
Qed.

Lemma remove_only_child_leaves_empty_leaf_witness :
  policy_if (policy one_leaf_state)
  = Ok (group_object false AllOf
          [plain_object (Simple "location" OpEquals (VStr "westus"))])
  /\ getCurrentConditions (policy one_leaf_state)
     = Ok (VArr [plain_object (Simple "location" OpEquals (VStr "westus"))])
  /\ exists st',
       handleUpdateConditions one_leaf_state
         (handleRemoveCondition
            [plain_object (Simple "location" OpEquals (VStr "westus"))] 0)
       = Ok st'
       /\ policy_if (policy st')
          = Ok (group_object false AllOf
                  [plain_object (Simple "" OpEquals (VStr ""))]).
Proof.
  split; [reflexivity |].
  apply (proj2 remove_only_child_leaves_empty_leaf one_leaf_state false AllOf).
  reflexivity.
Defined.

(** From the template: add a leaf to the root, negate the root, toggle
    its kind; the children are still the one leaf. *)
Example root_add_negate_toggle :
  exists s1 s2 s3,
    handleUpdateConditions initial_state (handleAddCondition []) = Ok s1
    /\ handleToggleNot s1 = Ok s2
    /\ usePolicyEditorState.handleToggleGroupType s2 = Ok s3
    /\ policy_if (policy s3)
       = Ok (group_object true AnyOf
               [plain_object (Simple "" OpEquals (VStr ""))]).
Proof. do 3 eexists. repeat split; reflexivity. Qed.

(** ** The NOT toggles *)

Lemma ConditionItem_toggleNot_condition (c : condition) :
  ConditionItem.toggleNot (condition_object c)
  = Ok (Updated (condition_object (toggle_negation c))).
Proof.
  destruct c as [[f op v | k cs | f w op n] | [f op v | k cs | f w op n]];
    try (destruct op; reflexivity); destruct k; reflexivity.
Qed.

Lemma toggle_negation_involutive (c : condition) :
  toggle_negation (toggle_negation c) = c.
Proof. now destruct c. Qed.

(** A count object whose operator key comes before [count] has the same
    two properties after two toggles, [count] first. *)
Lemma handleToggleCountNot_key_order
    (f : string) (w : value) (op : count_operator) (n : value) :
  twice (fun c => r <- handleToggleCountNot c ;; Ok (Updated r))
    (VObj [(count_operator_name op, n);
           ("count", VObj [("field", VStr f); ("where", w)])])
  = Ok (Updated (plain_object (Count f w op n))).
Proof. destruct op; reflexivity. Qed.

(** C1: the NOT toggle of a child (leaf, group or count) wraps a bare
    condition in [not] and unwraps a negated one to exactly what was
    inside, so two toggles give the condition back; the same holds for
    the NOT toggle of the root group of the policy. *)
Theorem toggle_negation_twice_is_identity :
  (forall c : condition,
      ConditionItem.toggleNot (condition_object c)
      = Ok (Updated (condition_object (toggle_negation c)))
      /\ twice ConditionItem.toggleNot (condition_object c)
         = Ok (Updated (condition_object c)))
  /\ (forall (st : editor_state) (negated : bool) (k : kind)
             (children : list value),
         policy_if (policy st) = Ok (group_object negated k children) ->
         exists st',
           handleToggleNot st = Ok st'
           /\ policy_if (policy st')
              = Ok (group_object (negb negated) k children)
           /\ handleToggleNot st' = Ok st).
Proof.
  split.
  - intros c. split; [apply ConditionItem_toggleNot_condition |].
    unfold twice. rewrite ConditionItem_toggleNot_condition. cbn [bind].
    now rewrite ConditionItem_toggleNot_condition, toggle_negation_involutive.
  - intros st negated k children H.
    destruct (handleToggleNot_root st negated k children H)
      as (st' & H1 & H2 & _ & H3).
    exists st'. auto.
Qed.

Lemma toggle_negation_twice_is_identity_witness :
  policy_if (policy initial_state) = Ok (group_object false AllOf [])
  /\ exists st',
       handleToggleNot initial_state = Ok st'
       /\ policy_if (policy st') = Ok (group_object (negb false) AllOf [])
       /\ handleToggleNot st' = Ok initial_state.
Proof.
  split; [reflexivity |].
  apply (proj2 toggle_negation_twice_is_identity initial_state false AllOf []).
  reflexivity.
Defined.

(** C4: toggling the kind of a nested child, or of the root group, turns
    allOf into anyOf and back, keeps the children and an outer [not] as
    they were, and done twice gives the group back. *)
Theorem toggle_group_kind_flips_and_returns :
  (forall (before after : list value) (negated : bool) (k : kind)
          (children : list value),
      let l := before ++ group_object negated k children :: after in
      let idx := Z.of_nat (List.length before) in
      useConditionGroup.handleToggleGroupType l idx
      = Ok (Updated
              (before ++ group_object negated (flip_kind k) children :: after))
      /\ twice (fun l' => useConditionGroup.handleToggleGroupType l' idx) l
         = Ok (Updated l))
  /\ (forall (st : editor_state) (negated : bool) (k : kind)
             (children : list value),
         policy_if (policy st) = Ok (group_object negated k children) ->
         exists st',
           usePolicyEditorState.handleToggleGroupType st = Ok st'
           /\ policy_if (policy st')
              = Ok (group_object negated (flip_kind k) children)
           /\ usePolicyEditorState.handleToggleGroupType st' = Ok st).
Proof.
  split.
  - intros before after negated k children l idx. subst l idx.
    split; [apply handleToggleGroupType_flips |].
    unfold twice. rewrite handleToggleGroupType_flips. cbn [bind].
    rewrite handleToggleGroupType_flips, flip_kind_involutive. reflexivity.
  - intros st negated k children H.
    destruct (root_handleToggleGroupType_root st negated k children H)
      as (st' & H1 & H2 & _ & H3).
    exists st'. auto.
Qed.

Lemma toggle_group_kind_flips_and_returns_witness :
  policy_if (policy initial_state) = Ok (group_object false AllOf [])
  /\ exists st',
       usePolicyEditorState.handleToggleGroupType initial_state = Ok st'
       /\ policy_if (policy st') = Ok (group_object false (flip_kind AllOf) [])
       /\ usePolicyEditorState.handleToggleGroupType st' = Ok initial_state.
Proof.
  split; [reflexivity |].
  apply (proj2 toggle_group_kind_flips_and_returns initial_state false AllOf []).
  reflexivity.
Defined.

(** C5 as stated fails: asked to toggle the kind of a child that is a
    leaf, the handler does not throw. *)
Lemma toggle_kind_of_leaf_does_not_throw :
  ~ (forall (conditions : list value) (idx : Z) (c : condition),
        arr_at conditions idx = condition_object c ->
        is_nested c = false ->
        useConditionGroup.handleToggleGroupType conditions idx = TypeError).
Proof.
  intros H.
  specialize (H [plain_object (Simple "location" OpEquals (VStr "westus"))] 0
                (Plain (Simple "location" OpEquals (VStr "westus")))
                eq_refl eq_refl).
  discriminate H.
Qed.

Lemma js_in_array_named (k : string) (l : list value) :
  named k = true -> js_in k (VArr l) = Ok false.
Proof.
  intros Hk. cbn [js_in own_props]. unfold has_own.
  now rewrite own_get_indexed_named, named_not_length.
Qed.

(** The handler throws exactly when its guard does: on a value that is
    not an object, and on an object whose [not] is not one.  Once the
    guard has answered, every later read is of an object. *)
Lemma handleToggleGroupType_throws (conditions : list value) (idx : Z) :
  useConditionGroup.handleToggleGroupType conditions idx = TypeError
  <-> (is_object (arr_at conditions idx) = false
       \/ exists o x, arr_at conditions idx = VObj o
                      /\ own_get "not" o = Some x /\ is_object x = false).
Proof.
  unfold useConditionGroup.handleToggleGroupType.
  destruct (arr_at conditions idx) as [| | b | n | s | l | o] eqn:E;
    try (split; [intros _; left; reflexivity | reflexivity]).
  - unfold isNestedCondition.
    rewrite !js_in_array_named by reflexivity. cbn [bind negb].
    split; [discriminate |].
    intros [H | (o & x & H & _)]; discriminate H.
  - unfold isNestedCondition. cbn [js_in bind]. unfold has_own.
    destruct (own_get "not" o) as [inner |] eqn:En.
    + cbn [bind js_get]. rewrite En.
      destruct inner as [| | b | n | s | l | io];
        try (split; [intros _; right; exists o; eexists;
                     split; [reflexivity | split; [exact En | reflexivity]]
                    | reflexivity]).
      * rewrite !js_in_array_named by reflexivity. cbn [bind negb].
        split; [discriminate |].
        intros [H | (o' & x & [= <-] & Hx & Hob)]; [discriminate H |].
        rewrite En in Hx. injection Hx as <-. discriminate Hob.
      * cbn [js_in bind].
        split.
        -- destruct (has_own "allOf" io); cbn [bind negb];
             [| destruct (has_own "anyOf" io); cbn [bind negb]];
             unfold has_own; rewrite ?En; cbn [bind js_get]; discriminate.
        -- intros [H | (o' & x & [= <-] & Hx & Hob)]; [discriminate H |].
           rewrite En in Hx. injection Hx as <-. discriminate Hob.
    + cbn [bind].
      split.
      * destruct (match own_get "allOf" o with Some _ => true | None => false end);
          cbn [bind negb];
          [| destruct (match own_get "anyOf" o with
                       | Some _ => true | None => false end);
             cbn [bind negb]];
          try destruct (match own_get "count" o with
                        | Some _ => true | None => false end);
          cbn [bind negb]; unfold has_own; rewrite ?En; cbn [bind js_get];
          discriminate.
      * intros [H | (o' & x & [= <-] & Hx & Hob)]; [discriminate H |].
        rewrite En in Hx. discriminate Hx.
Qed.

(** C5, amended: asked to toggle the kind of a child that is not a group
    (a leaf or a count, bare or negated), the handler returns without
    calling [onUpdate], so the children stay as they are and nothing is
    thrown.  It throws a TypeError when the index addresses no child,
    and in general exactly when the value at the index is not an object
    ([undefined] where there is no child, [null], a boolean, a number, a
    string) or is an object whose [not] property is not an object. *)
Theorem toggle_kind_of_other_shape_is_silent :
  (forall (before after : list value) (c : condition),
      is_nested c = false ->
      useConditionGroup.handleToggleGroupType
        (before ++ condition_object c :: after)
        (Z.of_nat (List.length before))
      = Ok NoUpdate)
  /\ (forall (conditions : list value) (idx : Z),
         idx < 0 \/ Z.of_nat (List.length conditions) <= idx ->
         useConditionGroup.handleToggleGroupType conditions idx = TypeError)
  /\ (forall (conditions : list value) (idx : Z),
         useConditionGroup.handleToggleGroupType conditions idx = TypeError
         <-> (is_object (arr_at conditions idx) = false
              \/ exists o x,
                   arr_at conditions idx = VObj o
                   /\ own_get "not" o = Some x /\ is_object x = false)).
Proof.
  split; [| split].
  - apply handleToggleGroupType_not_nested.
  - apply handleToggleGroupType_outside.
  - apply handleToggleGroupType_throws.
Qed.

Lemma toggle_kind_of_other_shape_is_silent_witness :
  useConditionGroup.handleToggleGroupType
    ([] ++ condition_object (Negated (Count "tags[*]" (VObj []) CountLess (VNum 3)))
        :: [])
    (Z.of_nat (List.length (@nil value)))
  = Ok NoUpdate
  /\ useConditionGroup.handleToggleGroupType [] 0 = TypeError
  /\ useConditionGroup.handleToggleGroupType [VObj [("not", VNull)]] 0
     = TypeError.
Proof.
  split; [| split].
  - apply (proj1 toggle_kind_of_other_shape_is_silent). reflexivity.
  - apply (proj1 (proj2 toggle_kind_of_other_shape_is_silent)).
    right. simpl. lia.
  - apply (proj2 (proj2 toggle_kind_of_other_shape_is_silent)).
    right. exists [("not", VNull)], VNull. repeat split; reflexivity.
Defined.

(** ** The JSON pane and the value field *)

(** C7: a text that does not parse as JSON leaves the state, and so the
    policy document, exactly as it was. *)
Theorem unparsable_text_is_discarded (st : editor_state) (text : string) :
  JSON.parse text = None ->
  handleEditorChange st (Some text) = st.
Proof.
  intros H. unfold handleEditorChange.
  destruct (String.eqb text ""); [reflexivity |]. now rewrite H.
Qed.

Lemma unparsable_text_is_discarded_witness :
  JSON.parse "{ properties: " = None
  /\ handleEditorChange initial_state (Some "{ properties: ") = initial_state.
Proof.
  split; [reflexivity |].
  apply (unparsable_text_is_discarded initial_state "{ properties: ").
  reflexivity.
Defined.

(** C9 as stated fails: typing [westus] into the value field of a leaf
    whose operator is [in] stores the plain string under [in]. *)
Lemma value_under_in_can_be_a_string :
  ~ (forall (f : string) (v : value) (text : string) (st : condition_state),
        useCondition.state (plain_object (Simple f OpIn v)) = Ok st ->
        exists l,
          useCondition.handleValueChange st text = plain_object (Simple f OpIn (VArr l))).
Proof.
  intros H.
  destruct (H "location" (VArr []) "westus" _ eq_refl) as (l & Hl).
  discriminate Hl.
Qed.

(** Changing the operator to [in] carries the old value over as it is,
    a plain string included. *)
Lemma handleOperatorChange_keeps_value :
  exists st,
    useCondition.state (plain_object (Simple "location" OpEquals (VStr "westus")))
    = Ok st
    /\ useCondition.handleOperatorChange st "in"
       = Ok (plain_object (Simple "location" OpIn (VStr "westus"))).
Proof. eexists. split; reflexivity. Qed.

(** C9, amended: [handleValueChange] stores the typed text as a plain
    string under every operator other than [in] and [notIn]; under [in]
    and [notIn] it stores the array the text denotes when the text parses
    as a JSON array, and the text itself, as a plain string, when it does
    not parse or denotes something else. *)
Theorem handleValueChange_stores
    (negated : bool) (f : string) (op : operator) (v : value) (text : string) :
  let stored :=
    match op with
    | OpIn | OpNotIn =>
        match JSON.parse text with
        | Some (VArr l) => VArr l
        | _ => VStr text
        end
    | _ => VStr text
    end in
  let leaf x :=
    if negated then Negated (Simple f op x) else Plain (Simple f op x) in
  exists st,
    useCondition.state (condition_object (leaf v)) = Ok st
    /\ useCondition.handleValueChange st text = condition_object (leaf stored).
Proof.
  intros stored leaf. subst stored leaf.
  destruct negated, op; eexists; (split; [reflexivity |]);
    unfold useCondition.handleValueChange; cbn -[JSON.parse];
    try reflexivity;
    destruct (JSON.parse text) as [[| | b | n | s | l | o] |]; reflexivity.
Qed.

(** Under [in], numerals with a fraction or an exponent and escaped
    characters are read as [JSON.parse] reads them; a text that is not
    an array is kept as typed. *)
Example value_field_reads_json_arrays :
  exists st,
    useCondition.state (plain_object (Simple "sku" OpIn (VArr []))) = Ok st
    /\ useCondition.handleValueChange st "[1.5, 1e2, null]"
       = plain_object
           (Simple "sku" OpIn
              (VArr [VNum (decimal_to_number 15 (-1)); VNum 100; VNull]))
    /\ useCondition.handleValueChange st "[\u20ac]"
       = plain_object (Simple "sku" OpIn (VStr "[\u20ac]"))
    /\ useCondition.handleValueChange st "1.5"
       = plain_object (Simple "sku" OpIn (VStr "1.5")).
Proof. eexists. split; [reflexivity |]. vm_compute. repeat split. Qed.

(** C8 holds of every handler but one, which breaks it: submitting the
    parameter form with the name [effect] hands the new parameter to
    [handleUpdateParameter], which, unlike [handleRemoveParameter] and
    [handleEditParameter], has no guard for that name.  The effect
    parameter of the template is replaced by one without allowed values,
    while the selected effect stays [audit]. *)
Theorem parameter_form_overwrites_the_effect_parameter :
  exists (parameter : value) (st : editor_state),
    useParameters.handleAddParameter effect_form
    = Updated ("effect", parameter)
    /\ handleUpdateParameter initial_state "effect" parameter = Ok st
    /\ selectedEffect st = "audit"
    /\ effect_parameter_allowedValues (policy initial_state)
       = Ok (VArr [VStr "Audit"; VStr "Deny"; VStr "Disabled"])
    /\ effect_parameter_allowedValues (policy st) = Ok VUndef
    /\ handleRemoveParameter initial_state "effect" = Ok initial_state.
Proof. do 2 eexists. repeat split; reflexivity. Qed.

(** Through every other handler of the form the allowed values follow
    the selected effect: in every state reached from the template by any
    sequence of form handlers that defines no parameter named [effect],
    [parameters.effect.allowedValues] is [Modify, Disabled] when the
    selected effect is modify and [Audit, Deny, Disabled] otherwise. *)
Theorem form_edits_keep_allowedValues (st : editor_state) :
  form_reachable st ->
  effect_parameter_allowedValues (policy st)
  = Ok (VArr (if String.eqb (toLowerCase (selectedEffect st)) "modify"
              then [VStr "Modify"; VStr "Disabled"]
              else [VStr "Audit"; VStr "Deny"; VStr "Disabled"])).
Proof.
  intros H.
  assert (M : allowedValues_match st).
  { induction H as [| st e st' _ IH He Hstep].
    - reflexivity.
    - exact (form_edit_keeps_allowedValues st st' e IH He Hstep). }
  unfold allowedValues_match, effect_allowedValues in M. rewrite M.
  now destruct (String.eqb _ _).
Qed.

Lemma form_edits_keep_allowedValues_witness :
  form_reachable modify_state
  /\ effect_parameter_allowedValues (policy modify_state)
     = Ok (VArr [VStr "Modify"; VStr "Disabled"]).
Proof.
  assert (R : form_reachable modify_state).
  { apply (form_step initial_state (EffectChange "modify") modify_state
             form_init eq_refl).
    reflexivity. }
  split; [exact R | exact (form_edits_keep_allowedValues modify_state R)].
Defined.

(** ** JSON text: what is written is read back *)

(** *** Strings *)

Lemma hex_value_hex_char (d : N) :
  (d < 16)%N -> hex_value (hex_char d) = Some d.
Proof.
  intros H.
  assert (C : (d = 0 \/ d = 1 \/ d = 2 \/ d = 3 \/ d = 4 \/ d = 5 \/ d = 6
               \/ d = 7 \/ d = 8 \/ d = 9 \/ d = 10 \/ d = 11 \/ d = 12
               \/ d = 13 \/ d = 14 \/ d = 15)%N) by lia.
  repeat (destruct C as [-> | C]; [reflexivity |]). now subst.
Qed.

Lemma parse_chars_unicode_escape (n : N) (tail : list code_unit) :
  (n < 65536)%N ->
  parse_chars (unicode_escape n ++ tail)
  = match parse_chars tail with
    | Some (str, rest) => Some (String n str, rest)
    | None => None
    end.
Proof.
  intros H. unfold unicode_escape. cbn [app parse_chars].
  change (is_char backslash 34) with false.
  change (is_char backslash 92) with true.
  change (is_char (char "u") 117) with true. cbv iota.
  rewrite !hex_value_hex_char
    by (try apply N.mod_upper_bound; try apply N.Div0.div_lt_upper_bound; lia).
  pose proof (N.div_mod n 16 ltac:(lia)) as E1.
  pose proof (N.div_mod (n / 16) 16 ltac:(lia)) as E2.
  pose proof (N.div_mod (n / 256) 16 ltac:(lia)) as E3.
  rewrite N.Div0.div_div in E2, E3.
  change (16 * 16)%N with 256%N in E2. change (256 * 16)%N with 4096%N in E3.
  replace (((n / 4096 * 16 + (n / 256) mod 16) * 16 + (n / 16) mod 16) * 16
           + n mod 16)%N with n by lia.
  reflexivity.
Qed.

Lemma parse_chars_raw (c : code_unit) (tail : list code_unit) :
  (32 <= c)%N -> c <> 34%N -> c <> 92%N ->
  parse_chars (c :: tail)
  = match parse_chars tail with
    | Some (str, rest) => Some (String c str, rest)
    | None => None
    end.
Proof.
  intros H32 H34 H92. cbn [parse_chars]. unfold is_char.
  apply N.eqb_neq in H34, H92. rewrite H34, H92.
  apply N.ltb_ge in H32. now rewrite H32.
Qed.

Lemma parse_chars_quote_char (c : code_unit) (tail : list code_unit) :
  parse_chars (quote_char c ++ tail)
  = match parse_chars tail with
    | Some (str, rest) => Some (String c str, rest)
    | None => None
    end.
Proof.
  unfold quote_char.
  destruct (N.eqb_spec c 8) as [-> | H8]; [reflexivity |].
  destruct (N.eqb_spec c 9) as [-> | H9]; [reflexivity |].
  destruct (N.eqb_spec c 10) as [-> | H10]; [reflexivity |].
  destruct (N.eqb_spec c 12) as [-> | H12]; [reflexivity |].
  destruct (N.eqb_spec c 13) as [-> | H13]; [reflexivity |].
  destruct (N.eqb_spec c 34) as [-> | H34]; [reflexivity |].
  destruct (N.eqb_spec c 92) as [-> | H92]; [reflexivity |].
  destruct (N.ltb_spec c 32) as [Hlt | Hge].
  - apply parse_chars_unicode_escape. lia.
  - now apply parse_chars_raw.
Qed.

Lemma parse_chars_quoted_units (n : nat) :
  forall (s rest : list code_unit),
    (List.length s <= n)%nat ->
    parse_chars (quote_units s ++ dquote :: rest) = Some (of_units s, rest).
Proof.
  induction n as [| n IH]; intros s rest Hn.
  - destruct s; [reflexivity | cbn in Hn; lia].
  - destruct s as [| c r]; [reflexivity |].
    cbn [List.length] in Hn. cbn [quote_units of_units].
    assert (Hr : parse_chars (quote_units r ++ dquote :: rest)
                 = Some (of_units r, rest)) by (apply IH; lia).
    destruct (is_high_surrogate c) eqn:Hh.
    + unfold is_high_surrogate in Hh. apply andb_true_iff in Hh as [Hh1 Hh2].
      apply N.leb_le in Hh1, Hh2.
      destruct r as [| d r'].
      * rewrite parse_chars_unicode_escape by lia. reflexivity.
      * destruct (is_low_surrogate d) eqn:Hl.
        -- unfold is_low_surrogate in Hl. apply andb_true_iff in Hl as [Hl1 Hl2].
           apply N.leb_le in Hl1, Hl2.
           cbn [app of_units]. rewrite parse_chars_raw by lia.
           rewrite parse_chars_raw by lia.
           rewrite IH by (cbn [List.length] in Hn; lia). reflexivity.
        -- rewrite <- app_assoc, parse_chars_unicode_escape by lia.
           now rewrite Hr.
    + destruct (is_low_surrogate c) eqn:Hl.
      * unfold is_low_surrogate in Hl. apply andb_true_iff in Hl as [Hl1 Hl2].
        apply N.leb_le in Hl1, Hl2.
        rewrite <- app_assoc, parse_chars_unicode_escape by lia.
        now rewrite Hr.
      * rewrite <- app_assoc, parse_chars_quote_char. now rewrite Hr.
Qed.

Lemma parse_chars_quoted (s : string) (rest : list code_unit) :
  parse_chars (quote_units (chars s) ++ dquote :: rest) = Some (s, rest).
Proof.
  rewrite (parse_chars_quoted_units (List.length (chars s))) by lia.
  unfold chars. now rewrite of_units_units.
Qed.

(** *** Numerals *)

Lemma digits_value_acc (d : Decimal.uint) (acc : positive) :
  digits_value (Npos acc) (uint_units d) = Npos (Pos.of_uint_acc d acc).
Proof.
  revert acc.
  induction d as [| d IH | d IH | d IH | d IH | d IH | d IH | d IH | d IH
                  | d IH | d IH];
    intros acc; cbn [uint_units digits_value Pos.of_uint_acc];
    [reflexivity | ..];
    rewrite <- IH; f_equal; cbv [digit_value char]; lia.
Qed.

Lemma digits_value_uint (d : Decimal.uint) :
  digits_value 0 (uint_units d) = N.of_uint d.
Proof.
  unfold N.of_uint.
  induction d as [| d IH | d IH | d IH | d IH | d IH | d IH | d IH | d IH
                  | d IH | d IH];
    cbn [uint_units digits_value Pos.of_uint]; [reflexivity | exact IH | ..];
    apply (digits_value_acc d).
Qed.

Lemma to_uint_not_nil (n : N) : N.to_uint n <> Decimal.Nil.
Proof.
  destruct n as [| p]; [discriminate |]. apply Unsigned.to_uint_nonnil.
Qed.

Lemma digits_uint (n : N) : digits n = uint_units (N.to_uint n).
Proof.
  unfold digits. pose proof (to_uint_not_nil n) as H.
  destruct (N.to_uint n); [congruence | reflexivity ..].
Qed.

Lemma digits_value_digits (n : N) : digits_value 0 (digits n) = n.
Proof.
  rewrite digits_uint, digits_value_uint. apply DecimalN.Unsigned.of_to.
Qed.

Lemma uint_chars_are_digits (d : Decimal.uint) :
  forallb is_digit (uint_units d) = true.
Proof.
  induction d; cbn [uint_units forallb]; [reflexivity | ..];
    rewrite IHd; reflexivity.
Qed.

Lemma digits_are_digits (n : N) : forallb is_digit (digits n) = true.
Proof. rewrite digits_uint. apply uint_chars_are_digits. Qed.

Lemma nzhead_not_zero_headed (d d' : Decimal.uint) :
  Decimal.nzhead d <> Decimal.D0 d'.
Proof. induction d; cbn; try discriminate; assumption. Qed.

(** A numeral is [0] or starts with a digit other than [0]. *)
Lemma digits_head (n : N) :
  exists c r, digits n = c :: r
              /\ is_digit c = true
              /\ (is_char c 48 = true -> r = []).
Proof.
  rewrite digits_uint.
  assert (E : N.to_uint n = Decimal.unorm (N.to_uint n))
    by now rewrite <- DecimalN.Unsigned.to_of, DecimalN.Unsigned.of_to.
  rewrite E. unfold Decimal.unorm.
  pose proof (nzhead_not_zero_headed (N.to_uint n)) as H.
  destruct (Decimal.nzhead (N.to_uint n)) as
    [| d | d | d | d | d | d | d | d | d | d];
    try (specialize (H d); congruence);
    cbn [uint_units];
    do 2 eexists; (split; [reflexivity |]); split;
    try reflexivity; try discriminate.
Qed.

Lemma span_digits_app (ds rest : list code_unit) :
  forallb is_digit ds = true ->
  match rest with [] => true | c :: _ => negb (is_digit c) end = true ->
  span_digits (ds ++ rest) = (ds, rest).
Proof.
  intros Hds Hrest. induction ds as [| c ds IH]; cbn [app span_digits].
  - destruct rest as [| c r]; [reflexivity |]. cbn [span_digits].
    apply negb_true_iff in Hrest. now rewrite Hrest.
  - cbn [forallb] in Hds. apply andb_true_iff in Hds as [Hc Hds].
    now rewrite Hc, IH.
Qed.

Lemma number_end_not_digit (rest : list code_unit) :
  number_end rest = true ->
  match rest with [] => true | c :: _ => negb (is_digit c) end = true.
Proof.
  destruct rest as [| c r]; [reflexivity |]. cbn [number_end].
  destruct (is_digit c); [discriminate | reflexivity].
Qed.

(** *** Numbers: rounding *)

Lemma is_double_finite (s : bool) (m : positive) (e : Z) :
  is_double (Finite s m e) = true ->
  (2 ^ 52 <= Zpos m < 2 ^ 53 /\ -1074 <= e <= 971)
  \/ (Zpos m < 2 ^ 52 /\ e = -1074).
Proof.
  unfold is_double. intros H. apply orb_true_iff in H as [H | H].
  - apply andb_true_iff in H as [H H4]. apply andb_true_iff in H as [H H3].
    apply andb_true_iff in H as [H1 H2].
    apply Z.leb_le in H1, H3, H4. apply Z.ltb_lt in H2. left. lia.
  - apply andb_true_iff in H as [H1 H2].
    apply Z.ltb_lt in H1. apply Z.eqb_eq in H2. right. lia.
Qed.

Lemma round_half_even_exact (q den : Z) :
  0 < den -> round_half_even (q * den) den = q.
Proof.
  intros H. unfold round_half_even.
  rewrite Z.mod_mul, Z.div_mul by lia.
  destruct (Z.ltb_spec (2 * 0) den); [reflexivity | lia].
Qed.

Lemma binary_exponent_exact (N D : Z) (m : positive) (e : Z) :
  0 < D -> is_double (Finite false m e) = true ->
  N * 2 ^ (Z.max (- e) 0) = Zpos m * 2 ^ (Z.max e 0) * D ->
  binary_exponent N D = e.
Proof.
  intros HD Hd Heq. apply is_double_finite in Hd.
  unfold binary_exponent.
  pose proof (Z.log2_nonneg D) as HlD.
  set (sh := Z.log2 D + 1075).
  assert (Hsh : 0 <= e + sh) by (unfold sh; lia).
  assert (E : N * 2 ^ sh = Zpos m * 2 ^ (e + sh) * D).
  { destruct (Z.le_gt_cases 0 e) as [He | He].
    - rewrite Z.max_r, Z.max_l in Heq by lia. rewrite Z.pow_0_r, Z.mul_1_r in Heq.
      rewrite Heq. rewrite Z.pow_add_r by lia. ring.
    - rewrite Z.max_l, Z.max_r in Heq by lia. rewrite Z.pow_0_r, Z.mul_1_r in Heq.
      replace sh with (- e + (e + sh)) at 1 by lia.
      rewrite Z.pow_add_r by lia. rewrite Z.mul_assoc, Heq. ring. }
  rewrite E, Z.div_mul by lia.
  rewrite Z.log2_mul_pow2 by lia.
  destruct Hd as [[Hm He] | [Hm He]].
  - rewrite (Z.log2_unique (Zpos m) 52) by (simpl Z.succ; lia). lia.
  - assert (Z.log2 (Zpos m) < 52) by (apply Z.log2_lt_pow2; lia). lia.
Qed.

Lemma round_ratio_exact (N D : Z) (m : positive) (e : Z) :
  0 < D -> is_double (Finite false m e) = true ->
  N * 2 ^ (Z.max (- e) 0) = Zpos m * 2 ^ (Z.max e 0) * D ->
  round_ratio N D = Finite false m e.
Proof.
  intros HD Hd Heq. unfold round_ratio.
  rewrite (binary_exponent_exact N D m e HD Hd Heq).
  apply is_double_finite in Hd.
  assert (Hm : (if 0 <=? e then round_half_even N (D * 2 ^ e)
                else round_half_even (N * 2 ^ (- e)) D) = Zpos m).
  { destruct (Z.leb_spec 0 e) as [He | He].
    - rewrite Z.max_r, Z.max_l in Heq by lia. rewrite Z.pow_0_r, Z.mul_1_r in Heq.
      replace N with (Zpos m * (D * 2 ^ e)) by (rewrite Heq; ring).
      apply round_half_even_exact.
      pose proof (Z.pow_pos_nonneg 2 e). nia.
    - rewrite Z.max_l, Z.max_r in Heq by lia. rewrite Z.pow_0_r, Z.mul_1_r in Heq.
      rewrite Heq. now apply round_half_even_exact. }
  rewrite Hm.
  destruct (Z.eqb_spec (Zpos m) (2 ^ 53)) as [E | _]; [lia |].
  destruct (Z.ltb_spec 971 e) as [He | _]; [lia | reflexivity].
Qed.

Lemma round_half_even_scale (c num den : Z) :
  0 < c -> 0 < den ->
  round_half_even (num * c) (den * c) = round_half_even num den.
Proof.
  intros Hc Hden. unfold round_half_even.
  rewrite Z.div_mul_cancel_r by lia.
  rewrite Z.mul_mod_distr_r by lia.
  replace (2 * (num mod den * c)) with (2 * (num mod den) * c) by ring.
  destruct (Z.ltb_spec (2 * (num mod den) * c) (den * c)),
    (Z.ltb_spec (2 * (num mod den)) den); try nia; try reflexivity.
  destruct (Z.ltb_spec (den * c) (2 * (num mod den) * c)),
    (Z.ltb_spec den (2 * (num mod den))); try nia; reflexivity.
Qed.

Lemma round_half_even_bounds (num den lo hi : Z) :
  0 < den -> lo * den <= num -> num <= hi * den ->
  lo <= round_half_even num den <= hi.
Proof.
  intros Hden Hlo Hhi. unfold round_half_even.
  pose proof (Z.div_mod num den ltac:(lia)) as E.
  pose proof (Z.mod_pos_bound num den Hden) as Hr.
  set (q := num / den) in *. set (r := num mod den) in *.
  destruct (Z.ltb_spec (2 * r) den); [nia |].
  destruct (Z.ltb_spec den (2 * r)); [nia |].
  destruct (Z.even q); nia.
Qed.

Lemma round_half_even_nearest (num den : Z) :
  0 < den ->
  Z.abs (2 * num - 2 * round_half_even num den * den) <= den.
Proof.
  intros Hden. unfold round_half_even.
  pose proof (Z.div_mod num den ltac:(lia)) as E.
  pose proof (Z.mod_pos_bound num den Hden) as Hr.
  set (q := num / den) in *. set (r := num mod den) in *.
  destruct (Z.ltb_spec (2 * r) den); [nia |].
  destruct (Z.ltb_spec den (2 * r)); [nia |].
  destruct (Z.even q); nia.
Qed.

(** The scaled numerator and denominator the exponent is read off. *)
Lemma round_ratio_scaled (N D e : Z) :
  0 < D -> -1074 <= e ->
  (if 0 <=? e then round_half_even N (D * 2 ^ e)
   else round_half_even (N * 2 ^ (- e)) D)
  = round_half_even (N * 2 ^ (Z.log2 D + 1075))
      (D * 2 ^ (e + (Z.log2 D + 1075))).
Proof.
  intros HD He. pose proof (Z.log2_nonneg D) as HlD.
  set (sh := Z.log2 D + 1075).
  assert (Hsh : 1075 <= sh) by (unfold sh; lia).
  destruct (Z.leb_spec 0 e) as [H0 | H0].
  - rewrite <- (round_half_even_scale (2 ^ sh) N (D * 2 ^ e));
      [| apply Z.pow_pos_nonneg; lia
       | pose proof (Z.pow_pos_nonneg 2 e); nia].
    f_equal. rewrite Z.pow_add_r by lia. ring.
  - rewrite <- (round_half_even_scale (2 ^ (e + sh)) (N * 2 ^ (- e)) D);
      [| apply Z.pow_pos_nonneg; lia | assumption].
    f_equal. rewrite <- Z.mul_assoc, <- Z.pow_add_r by lia.
    do 2 f_equal. lia.
Qed.

Lemma binary_exponent_bounds (N D : Z) :
  0 < N -> 0 < D ->
  let sh := Z.log2 D + 1075 in
  let e := binary_exponent N D in
  -1074 <= e
  /\ N * 2 ^ sh < 2 ^ 53 * (D * 2 ^ (e + sh))
  /\ (-1074 < e -> 2 ^ 52 * (D * 2 ^ (e + sh)) <= N * 2 ^ sh).
Proof.
  intros HN HD sh e. pose proof (Z.log2_nonneg D) as HlD.
  assert (Hsh : 1075 <= sh) by (unfold sh; lia).
  unfold e, binary_exponent. fold sh.
  set (A := N * 2 ^ sh). set (Q := A / D). set (L := Z.log2 Q).
  pose proof (Z.div_mod A D ltac:(lia)) as E.
  pose proof (Z.mod_pos_bound A D HD) as Hr. fold Q in E.
  assert (HA : 0 < A) by (unfold A; pose proof (Z.pow_pos_nonneg 2 sh); nia).
  assert (HQ : 0 <= Q) by (apply Z.div_pos; lia).
  assert (HL : 0 <= L) by apply Z.log2_nonneg.
  assert (HQu : Q + 1 <= 2 ^ (L + 1)).
  { destruct (Z.eq_dec Q 0) as [-> | Hne].
    - unfold L. cbn. lia.
    - pose proof (Z.log2_spec Q ltac:(lia)) as [_ H]. fold L in H.
      replace (L + 1) with (Z.succ L) by lia. lia. }
  split; [lia |]. split.
  - set (ee := Z.max (L - sh - 52) (-1074)).
    assert (Hle : L + 1 <= 53 + (ee + sh)) by (unfold ee; lia).
    assert (Hp : 2 ^ (L + 1) <= 2 ^ (53 + (ee + sh)))
      by (apply Z.pow_le_mono_r; lia).
    rewrite (Z.pow_add_r 2 53 (ee + sh)) in Hp by (unfold ee; lia).
    assert (H1 : A < D * (Q + 1)) by lia.
    assert (H2 : D * (Q + 1) <= D * 2 ^ (L + 1))
      by (apply Z.mul_le_mono_nonneg_l; lia).
    assert (H3 : D * 2 ^ (L + 1) <= D * (2 ^ 53 * 2 ^ (ee + sh))).
    { apply Z.mul_le_mono_nonneg_l; [lia | exact Hp]. }
    replace (2 ^ 53 * (D * 2 ^ (ee + sh)))
      with (D * (2 ^ 53 * 2 ^ (ee + sh))) by ring.
    lia.
  - intros He.
    assert (Ee : Z.max (L - sh - 52) (-1074) = L - sh - 52) by lia.
    rewrite Ee in *.
    assert (HQ0 : 0 < Q).
    { destruct (Z.eq_dec Q 0) as [E0 | ?]; [| lia].
      unfold L in He. rewrite E0 in He. cbn in He. lia. }
    pose proof (Z.log2_spec Q HQ0) as [Hlo _]. fold L in Hlo.
    replace (L - sh - 52 + sh) with (L - 52) by lia.
    assert (Hp : 2 ^ L = 2 ^ 52 * 2 ^ (L - 52)).
    { rewrite <- Z.pow_add_r by lia. f_equal. lia. }
    assert (H1 : D * 2 ^ L <= D * Q)
      by (apply Z.mul_le_mono_nonneg_l; lia).
    rewrite Hp in H1.
    replace (2 ^ 52 * (D * 2 ^ (L - 52)))
      with (D * (2 ^ 52 * 2 ^ (L - 52))) by ring.
    lia.
Qed.

Lemma is_double_intro (s : bool) (m : positive) (e : Z) :
  (2 ^ 52 <= Zpos m < 2 ^ 53 /\ -1074 <= e <= 971)
  \/ (Zpos m < 2 ^ 52 /\ e = -1074) ->
  is_double (Finite s m e) = true.
Proof.
  intros [[Hm He] | [Hm He]]; unfold is_double; apply orb_true_iff.
  - left. rewrite !andb_true_iff.
    repeat split; (apply Z.leb_le || apply Z.ltb_lt); lia.
  - right. rewrite andb_true_iff.
    split; [apply Z.ltb_lt | apply Z.eqb_eq]; lia.
Qed.

(** The rounded value is a double. *)
Lemma round_ratio_is_double (N D : Z) :
  0 < N -> 0 < D -> is_double (round_ratio N D) = true.
Proof.
  intros HN HD.
  destruct (binary_exponent_bounds N D HN HD) as (He & Hhi & Hlo).
  unfold round_ratio.
  rewrite round_ratio_scaled by assumption.
  set (e := binary_exponent N D) in *.
  set (sh := Z.log2 D + 1075) in *.
  set (A := N * 2 ^ sh) in *. set (den := D * 2 ^ (e + sh)) in *.
  assert (Hden : 0 < den).
  { unfold den. pose proof (Z.log2_nonneg D).
    pose proof (Z.pow_pos_nonneg 2 (e + sh) ltac:(lia) ltac:(unfold sh; lia)).
    nia. }
  assert (HA : 0 < A) by (unfold A; pose proof (Z.log2_nonneg D);
    pose proof (Z.pow_pos_nonneg 2 sh ltac:(lia) ltac:(unfold sh; lia)); nia).
  pose proof (round_half_even_bounds A den 0 (2 ^ 53) Hden ltac:(lia)
                ltac:(lia)) as [Hm0 Hm1].
  set (m := round_half_even A den) in *.
  destruct (Z.eqb_spec m (2 ^ 53)) as [Em | Em].
  - destruct (Z.ltb_spec 971 (e + 1)); [reflexivity |].
    change (2 ^ 52) with (Zpos 4503599627370496). cbv iota.
    apply is_double_intro. left.
    change (2 ^ 52) with 4503599627370496.
    change (2 ^ 53) with 9007199254740992. lia.
  - destruct (Z.ltb_spec 971 e); [reflexivity |].
    destruct m as [| p | p] eqn:Ep; [reflexivity | | reflexivity].
    apply is_double_intro.
    destruct (Z.le_gt_cases (2 ^ 52) (Zpos p)) as [Hn | Hs]; [left; lia |].
    right. split; [assumption |].
    destruct (Z.eq_dec e (-1074)) as [| Hne]; [assumption |].
    assert (Hgt : -1074 < e) by lia. specialize (Hlo Hgt).
    pose proof (round_half_even_bounds A den (2 ^ 52) (2 ^ 53) Hden
                  ltac:(lia) ltac:(lia)) as [Hm2 _].
    fold m in Hm2. rewrite Ep in Hm2. lia.
Qed.

(** The rounded value is within half a unit in the last place of the
    rational: [|N / D - m * 2 ^ e| <= 2 ^ e / 2]. *)
Lemma round_ratio_nearest (N D : Z) (m : positive) (e : Z) :
  0 < N -> 0 < D -> round_ratio N D = Finite false m e ->
  Z.abs (2 * (N * 2 ^ Z.max (- e) 0) - 2 * (Zpos m * 2 ^ Z.max e 0 * D))
  <= 2 ^ Z.max e 0 * D.
Proof.
  intros HN HD. unfold round_ratio.
  set (eb := binary_exponent N D).
  destruct (Z.leb_spec 0 eb) as [H0 | H0].
  - (* the exponent is not negative *)
    pose proof (Z.pow_pos_nonneg 2 eb ltac:(lia) H0) as Hp.
    assert (HX : 0 < D * 2 ^ eb) by nia.
    pose proof (round_half_even_nearest N (D * 2 ^ eb) HX) as Hnear.
    set (mb := round_half_even N (D * 2 ^ eb)) in *.
    set (X := D * 2 ^ eb) in *.
    destruct (Z.eqb_spec mb (2 ^ 53)) as [Em | Em].
    + destruct (Z.ltb_spec 971 (eb + 1)); [discriminate |].
      change (2 ^ 52) with (Zpos 4503599627370496). cbv iota.
      intros [= <- <-]. rewrite Em in Hnear.
      change (Zpos 4503599627370496) with (2 ^ 52).
      rewrite Z.max_r, Z.max_l by lia.
      rewrite Z.pow_0_r, Z.pow_add_r, Z.pow_1_r by lia.
      replace (2 * (2 ^ 52 * (2 ^ eb * 2) * D)) with (2 * 2 ^ 53 * X)
        by (unfold X; change (2 ^ 53) with (2 ^ 52 * 2); ring).
      replace (2 ^ eb * 2 * D) with (2 * X) by (unfold X; ring).
      lia.
    + destruct (Z.ltb_spec 971 eb); [discriminate |].
      destruct mb as [| p | p] eqn:Ep; try discriminate.
      intros [= <- <-].
      rewrite Z.max_r, Z.max_l by lia. rewrite Z.pow_0_r.
      replace (2 * (Zpos p * 2 ^ eb * D)) with (2 * Zpos p * X)
        by (unfold X; ring).
      replace (2 ^ eb * D) with X by (unfold X; ring).
      lia.
  - (* the exponent is negative *)
    pose proof (round_half_even_nearest (N * 2 ^ (- eb)) D HD) as Hnear.
    set (mb := round_half_even (N * 2 ^ (- eb)) D) in *.
    destruct (Z.eqb_spec mb (2 ^ 53)) as [Em | Em].
    + destruct (Z.ltb_spec 971 (eb + 1)); [discriminate |].
      change (2 ^ 52) with (Zpos 4503599627370496). cbv iota.
      intros [= <- <-]. rewrite Em in Hnear.
      change (Zpos 4503599627370496) with (2 ^ 52).
      replace (- eb) with (- (eb + 1) + 1) in Hnear by lia.
      rewrite Z.pow_add_r, Z.pow_1_r in Hnear by lia.
      rewrite Z.max_l, Z.max_r by lia. rewrite Z.pow_0_r.
      set (Y := N * 2 ^ (- (eb + 1))) in *.
      replace (N * (2 ^ (- (eb + 1)) * 2)) with (2 * Y) in Hnear
        by (unfold Y; ring).
      change (2 ^ 53) with (2 * 2 ^ 52) in Hnear. lia.
    + destruct (Z.ltb_spec 971 eb); [discriminate |].
      destruct mb as [| p | p] eqn:Ep; try discriminate.
      intros [= <- <-].
      rewrite Z.max_l, Z.max_r by lia. rewrite Z.pow_0_r.
      set (Y := N * 2 ^ (- eb)) in *. lia.
Qed.

Lemma negate_is_double (x : number) :
  is_double (negate x) = is_double x.
Proof. now destruct x. Qed.

Lemma decimal_to_number_is_double (s E : Z) :
  is_double (decimal_to_number s E) = true.
Proof.
  unfold decimal_to_number.
  destruct (Z.leb_spec s 0); [reflexivity |].
  destruct (Z.leb_spec 0 E).
  - apply round_ratio_is_double; [| lia].
    pose proof (Z.pow_pos_nonneg 10 E). nia.
  - apply round_ratio_is_double; [lia |]. apply Z.pow_pos_nonneg; lia.
Qed.

Lemma of_Z_is_double (n : Z) : is_double (of_Z n) = true.
Proof.
  destruct n as [| p | p]; [reflexivity | |]; unfold of_Z;
    rewrite ?negate_is_double; apply round_ratio_is_double; lia.
Qed.

(** [Number] gives a double on every text. *)
Lemma Number_is_double (s : string) : is_double (Number s) = true.
Proof.
  unfold Number. destruct (units (trim s)) as [| c text]; [reflexivity |].
  destruct (non_decimal_literal (c :: text)) as [x |] eqn:En.
  - unfold non_decimal_literal in En.
    destruct text as [| p [| d ds]]; try discriminate En.
    destruct (is_char c 48); [| discriminate En].
    destruct (if is_char p 120 || is_char p 88 then Some 16%N
              else if is_char p 111 || is_char p 79 then Some 8%N
              else if is_char p 98 || is_char p 66 then Some 2%N
              else None) as [radix |]; [| discriminate En].
    destruct (radix_value radix 0 (d :: ds)) as [n |]; [| discriminate En].
    injection En as <-. apply of_Z_is_double.
  - destruct (decimal_literal (c :: text)) as [x |] eqn:Ed; [| reflexivity].
    unfold decimal_literal in Ed.
    destruct (parse_sign (c :: text)) as [negative r].
    destruct (unsigned_decimal_literal r) as [y |] eqn:Eu; [| discriminate Ed].
    injection Ed as <-.
    assert (Hy : is_double y = true).
    { unfold unsigned_decimal_literal in Eu.
      destruct (String.eqb (of_units r) "Infinity");
        [now injection Eu as <- |].
      destruct (span_digits r) as [int r0].
      destruct (match r0 with
                | [] => ([], [])
                | c0 :: r' => if is_char c0 46 then span_digits r' else ([], r0)
                end) as [frac r1].
      destruct (int ++ frac); [discriminate Eu |].
      destruct (parse_exponent r1) as [[ex [|]] |]; try discriminate Eu.
      injection Eu as <-. apply decimal_to_number_is_double. }
    destruct negative; [now rewrite negate_is_double | exact Hy].
Qed.

(** *** Numbers: the shortest decimal *)

Lemma number_eqb_eq (x y : number) : number_eqb x y = true -> x = y.
Proof.
  destruct x as [| a | a | a m e], y as [| b | b | b m' e']; cbn;
    try discriminate; try reflexivity.
  - intros H. apply Bool.eqb_prop in H. now subst.
  - intros H. apply Bool.eqb_prop in H. now subst.
  - intros H. apply andb_true_iff in H as [H He].
    apply andb_true_iff in H as [Ha Hm].
    apply Bool.eqb_prop in Ha. apply Pos.eqb_eq in Hm. apply Z.eqb_eq in He.
    now subst.
Qed.

Lemma search_found (fuel : nat) (x : number) (P Q n k : Z) (d : Z * Z) :
  search fuel x P Q n k = Some d ->
  decimal_to_number (fst d) (snd d) = x.
Proof.
  revert k. induction fuel as [| f IH]; intros k; cbn [search];
    [discriminate |].
  destruct (find _ (candidates P Q n k)) as [d' |] eqn:E.
  - intros [= <-]. apply find_some in E as [_ E]. now apply number_eqb_eq.
  - apply IH.
Qed.

Lemma exact_decimal_exact (m : positive) (e : Z) :
  is_double (Finite false m e) = true ->
  decimal_to_number (fst (exact_decimal m e)) (snd (exact_decimal m e))
  = Finite false m e.
Proof.
  intros Hd. unfold exact_decimal, decimal_to_number.
  destruct (Z.leb_spec 0 e) as [He | He]; cbn [fst snd].
  - assert (0 < Zpos m * 2 ^ e) by (pose proof (Z.pow_pos_nonneg 2 e); nia).
    destruct (Z.leb_spec (Zpos m * 2 ^ e) 0); [lia |].
    cbn [Z.leb]. apply round_ratio_exact; [lia | assumption |].
    rewrite Z.max_r, Z.max_l by lia. rewrite !Z.pow_0_r. ring.
  - assert (0 < Zpos m * 5 ^ (- e)) by (pose proof (Z.pow_pos_nonneg 5 (- e)); nia).
    destruct (Z.leb_spec (Zpos m * 5 ^ (- e)) 0); [lia |].
    destruct (Z.leb_spec 0 e); [lia |].
    apply round_ratio_exact; [apply Z.pow_pos_nonneg; lia | assumption |].
    rewrite Z.max_l, Z.max_r by lia. rewrite Z.pow_0_r.
    replace 10 with (5 * 2) by reflexivity. rewrite Z.pow_mul_l. ring.
Qed.

Lemma shortest_decimal_reads_back (m : positive) (e : Z) :
  is_double (Finite false m e) = true ->
  0 < fst (shortest_decimal m e)
  /\ decimal_to_number (fst (shortest_decimal m e)) (snd (shortest_decimal m e))
     = Finite false m e.
Proof.
  intros Hd.
  assert (H : decimal_to_number (fst (shortest_decimal m e))
                (snd (shortest_decimal m e)) = Finite false m e).
  { unfold shortest_decimal.
    destruct (search 17 _ _ _ _ 1) as [d |] eqn:E.
    - exact (search_found _ _ _ _ _ _ _ E).
    - now apply exact_decimal_exact. }
  split; [| exact H].
  unfold decimal_to_number in H.
  destruct (Z.leb_spec (fst (shortest_decimal m e)) 0); [discriminate | lia].
Qed.

(** *** Numbers: the text is read back *)

Lemma digits_value_app (acc : N) (a b : list code_unit) :
  digits_value acc (a ++ b) = digits_value (digits_value acc a) b.
Proof. revert acc. induction a as [| c a IH]; intros acc; cbn; auto. Qed.

Lemma digits_value_zeros (acc : N) (j : nat) :
  digits_value acc (repeat (char "0") j) = (acc * 10 ^ N.of_nat j)%N.
Proof.
  revert acc. induction j as [| j IH]; intros acc.
  - cbn [repeat digits_value]. change (N.of_nat 0) with 0%N.
    rewrite N.pow_0_r. lia.
  - cbn [repeat digits_value]. rewrite IH.
    change (digit_value (char "0")) with 0%N.
    rewrite Nat2N.inj_succ, N.pow_succ_r'. lia.
Qed.

Lemma zeros_are_digits (j : nat) : forallb is_digit (repeat (char "0") j) = true.
Proof. induction j; cbn; auto. Qed.

Lemma forallb_firstn {A} (f : A -> bool) (n : nat) (l : list A) :
  forallb f l = true -> forallb f (firstn n l) = true.
Proof.
  revert n. induction l as [| x l IH]; intros [| n] H; cbn in *; auto.
  apply andb_true_iff in H as [-> H]. cbn. auto.
Qed.

Lemma forallb_skipn {A} (f : A -> bool) (n : nat) (l : list A) :
  forallb f l = true -> forallb f (skipn n l) = true.
Proof.
  revert n. induction l as [| x l IH]; intros [| n] H; cbn in *; auto.
  apply andb_true_iff in H as [_ H]. auto.
Qed.

(** After a numeral that ends, there is no fraction and no exponent. *)
Lemma parse_fraction_end (rest : list code_unit) :
  number_end rest = true -> parse_fraction rest = Some ([], rest).
Proof.
  destruct rest as [| c r]; [reflexivity |]. cbn [number_end parse_fraction].
  intros H. apply negb_true_iff in H.
  apply orb_false_iff in H as [H _]. apply orb_false_iff in H as [H _].
  apply orb_false_iff in H as [_ H]. now rewrite H.
Qed.

Lemma parse_exponent_end (rest : list code_unit) :
  number_end rest = true -> parse_exponent rest = Some (0, rest).
Proof.
  destruct rest as [| c r]; [reflexivity |]. cbn [number_end parse_exponent].
  intros H. apply negb_true_iff in H.
  apply orb_false_iff in H as [H H69]. apply orb_false_iff in H as [H H101].
  now rewrite H101, H69.
Qed.

Lemma span_digits_stop (ds : list code_unit) (c : code_unit)
    (rest : list code_unit) :
  forallb is_digit ds = true -> is_digit c = false ->
  span_digits (ds ++ c :: rest) = (ds, c :: rest).
Proof.
  intros H Hc. apply span_digits_app; [assumption |]. now rewrite Hc.
Qed.

Lemma digits_not_nil (n : N) : digits n <> [].
Proof. destruct (digits_head n) as (c & r & E & _). congruence. Qed.

(** The exponent part that Number::toString writes. *)
Lemma parse_exponent_written (v : Z) (rest : list code_unit) :
  number_end rest = true ->
  parse_exponent
    (char "e" :: (if 0 <=? v then char "+" else char "-")
       :: digits (Z.to_N (Z.abs v)) ++ rest)
  = Some (v, rest).
Proof.
  intros Hend. cbn [parse_exponent]. change (is_char (char "e") 101%N) with true.
  cbn [orb].
  assert (Hs : span_digits (digits (Z.to_N (Z.abs v)) ++ rest)
               = (digits (Z.to_N (Z.abs v)), rest))
    by (apply span_digits_app;
        [apply digits_are_digits | now apply number_end_not_digit]).
  pose proof (digits_not_nil (Z.to_N (Z.abs v))) as Hne.
  pose proof (digits_value_digits (Z.to_N (Z.abs v))) as Hv.
  destruct (Z.leb_spec 0 v) as [Hv0 | Hv0]; cbn [parse_sign];
    [change (is_char (char "+") 45%N) with false; change (is_char (char "+") 43%N) with true
    | change (is_char (char "-") 45%N) with true];
    cbv iota; rewrite Hs;
    destruct (digits (Z.to_N (Z.abs v))) as [| d ds]; try congruence;
    rewrite Hv; repeat f_equal; lia.
Qed.

Lemma decimal_to_number_scaled (s : Z) (j : Z) :
  0 < s -> 0 <= j ->
  decimal_to_number (s * 10 ^ j) 0 = decimal_to_number s j.
Proof.
  intros Hs Hj. unfold decimal_to_number.
  assert (0 < s * 10 ^ j) by (pose proof (Z.pow_pos_nonneg 10 j); nia).
  destruct (Z.leb_spec (s * 10 ^ j) 0); [lia |].
  destruct (Z.leb_spec s 0); [lia |].
  destruct (Z.leb_spec 0 j); [| lia].
  cbn [Z.leb]. now rewrite Z.pow_0_r, Z.mul_1_r.
Qed.

Lemma parse_unsigned_int (int r : list code_unit) :
  forallb is_digit int = true ->
  match int with
  | [] => False
  | [_] => True
  | c :: _ => is_char c 48 = false
  end ->
  match r with [] => true | c :: _ => negb (is_digit c) end = true ->
  parse_unsigned (int ++ r) = after_int int r.
Proof.
  intros Hd Hz Hr. unfold parse_unsigned. rewrite span_digits_app by assumption.
  destruct int as [| c [| d more]]; [contradiction | |].
  - now rewrite andb_false_r.
  - now rewrite Hz.
Qed.

Lemma parse_unsigned_decimal_text (s E : Z) (rest : list code_unit) :
  0 < s -> number_end rest = true ->
  parse_unsigned (decimal_text s E ++ rest)
  = Some (decimal_to_number s E, rest).
Proof.
  intros Hs Hend. unfold decimal_text.
  pose proof (digits_are_digits (Z.to_N s)) as Hds.
  pose proof (digits_value_digits (Z.to_N s)) as Hv.
  destruct (digits_head (Z.to_N s)) as (c & r & Ec & Hc & Hz).
  assert (Hc0 : is_char c 48 = false).
  { destruct (is_char c 48) eqn:E0; [| reflexivity].
    rewrite Ec, (Hz eq_refl) in Hv. cbn [digits_value] in Hv.
    unfold is_char in E0. apply N.eqb_eq in E0. subst c.
    cbn in Hv. lia. }
  pose proof (parse_fraction_end rest Hend) as Hf.
  pose proof (parse_exponent_end rest Hend) as He.
  pose proof (number_end_not_digit rest Hend) as Hnd.
  set (ds := digits (Z.to_N s)) in *.
  set (k := Z.of_nat (List.length ds)).
  set (n := E + k).
  assert (Hk : 1 <= k) by (unfold k; rewrite Ec; cbn [List.length]; lia).
  destruct ((k <=? n) && (n <=? 21)) eqn:C1.
  { (* digits and zeros *)
    apply andb_true_iff in C1 as [C1 _]. apply Z.leb_le in C1.
    rewrite parse_unsigned_int;
      [| rewrite forallb_app, Hds, zeros_are_digits; reflexivity
       | rewrite Ec; cbn [app]; now destruct (r ++ _) | assumption].
    unfold after_int. rewrite Hf, He. f_equal. f_equal.
    rewrite List.app_nil_r, digits_value_app, Hv, digits_value_zeros.
    cbn [List.length]. rewrite Z.sub_0_r.
    rewrite N2Z.inj_mul, N2Z.inj_pow, Z2N.id by lia.
    rewrite nat_N_Z, Z2Nat.id by lia.
    rewrite decimal_to_number_scaled by lia. f_equal. lia. }
  destruct ((0 <? n) && (n <=? 21)) eqn:C2.
  { (* a point inside the digits *)
    apply andb_true_iff in C2 as [C2 C2']. apply Z.ltb_lt in C2.
    apply Z.leb_le in C2'.
    assert (C1' : n < k).
    { apply andb_false_iff in C1 as [C1 | C1]; [now apply Z.leb_gt in C1 |].
      apply Z.leb_gt in C1. lia. }
    rewrite <- app_assoc.
    assert (Hsk : skipn (Z.to_nat n) ds <> []).
    { intros Hnil. apply (f_equal (@List.length _)) in Hnil.
      rewrite length_skipn in Hnil. cbn [List.length] in Hnil. lia. }
    rewrite parse_unsigned_int;
      [| now apply forallb_firstn
       | rewrite Ec; destruct (Z.to_nat n) as [| j] eqn:Ej; [lia |];
         cbn [firstn]; now destruct (firstn j r)
       | reflexivity].
    unfold after_int. cbn [app parse_fraction].
    change (is_char (char ".") 46%N) with true. cbv iota.
    rewrite span_digits_app by (now apply forallb_skipn || assumption).
    destruct (skipn (Z.to_nat n) ds) as [| d sk] eqn:Esk; [congruence |].
    rewrite He. f_equal. f_equal.
    rewrite <- Esk, firstn_skipn, Hv, Z2N.id by lia.
    f_equal. rewrite length_skipn. lia. }
  destruct ((-6 <? n) && (n <=? 0)) eqn:C3.
  { (* zeros after the point *)
    apply andb_true_iff in C3 as [_ C3]. apply Z.leb_le in C3.
    change (char "0" :: char "." :: ?t) with ([char "0"] ++ char "." :: t).
    rewrite <- app_assoc.
    rewrite parse_unsigned_int by (reflexivity || exact I).
    unfold after_int. cbn [app parse_fraction].
    change (is_char (char ".") 46%N) with true. cbv iota.
    rewrite (span_digits_app (repeat (char "0") (Z.to_nat (- n)) ++ ds) rest);
      [| rewrite forallb_app, Hds, zeros_are_digits; reflexivity | assumption].
    destruct (repeat (char "0") (Z.to_nat (- n)) ++ ds) as [| d zs] eqn:Ez.
    { apply app_eq_nil in Ez as [_ Ez]. rewrite Ec in Ez. discriminate Ez. }
    rewrite He. f_equal. f_equal. rewrite <- Ez.
    cbn [digits_value]. change (0 * 10 + digit_value (char "0"))%N with 0%N.
    rewrite digits_value_app, digits_value_zeros, N.mul_0_l, Hv, Z2N.id by lia.
    f_equal. rewrite length_app, repeat_length. lia. }
  (* exponent notation *)
  assert (Hexp : forall v, parse_exponent
             (char "e" :: (if 0 <=? v then char "+" else char "-")
                :: digits (Z.to_N (Z.abs v)) ++ rest) = Some (v, rest))
    by (intros; now apply parse_exponent_written).
  rewrite Ec. destruct r as [| d r'].
  - (* one digit *)
    change ((c :: char "e" :: ?t) ++ rest) with ([c] ++ char "e" :: t ++ rest).
    rewrite parse_unsigned_int;
      [| cbn [forallb]; now rewrite Hc | exact I | reflexivity].
    unfold after_int. cbn [parse_fraction].
    change (is_char (char "e") 46%N) with false. cbv iota.
    cbn [app]. rewrite Hexp.
    f_equal. f_equal. rewrite <- Ec, Hv, Z2N.id by lia.
    f_equal. unfold n, k. rewrite Ec. cbn [List.length]. lia.
  - (* more digits *)
    assert (Hr : forallb is_digit (d :: r') = true).
    { rewrite Ec in Hds. cbn [forallb] in Hds.
      now apply andb_true_iff in Hds as [_ Hds]. }
    change ((c :: char "." :: ?t) ++ rest) with ([c] ++ char "." :: t ++ rest).
    rewrite parse_unsigned_int;
      [| cbn [forallb]; now rewrite Hc | exact I | reflexivity].
    unfold after_int. cbn [parse_fraction].
    change (is_char (char ".") 46%N) with true. cbv iota.
    rewrite <- app_assoc. cbn [app].
    change (d :: r' ++ char "e" :: ?t) with ((d :: r') ++ char "e" :: t).
    rewrite span_digits_stop by (assumption || reflexivity).
    rewrite Hexp.
    f_equal. f_equal.
    change ([c] ++ d :: r') with (c :: d :: r').
    rewrite <- Ec, Hv, Z2N.id by lia.
    f_equal. unfold n, k. rewrite Ec. cbn [List.length]. lia.
Qed.

Lemma shortest_decimal_positive (m : positive) (e : Z) :
  0 < fst (shortest_decimal m e).
Proof.
  unfold shortest_decimal.
  destruct (search 17 _ _ _ _ 1) as [d |] eqn:E.
  - apply search_found in E. unfold decimal_to_number in E.
    destruct (Z.leb_spec (fst d) 0); [discriminate | lia].
  - unfold exact_decimal. destruct (Z.leb_spec 0 e); cbn [fst].
    + pose proof (Z.pow_pos_nonneg 2 e). nia.
    + pose proof (Z.pow_pos_nonneg 5 (- e)). nia.
Qed.

Lemma decimal_text_head (s E : Z) :
  0 < s -> exists c t, decimal_text s E = c :: t /\ is_digit c = true.
Proof.
  intros Hs. unfold decimal_text.
  destruct (digits_head (Z.to_N s)) as (c & r & Ec & Hc & _).
  rewrite Ec.
  set (k := Z.of_nat (List.length (c :: r))). set (n := E + k).
  destruct ((k <=? n) && (n <=? 21)).
  { exists c. eexists. split; [reflexivity | assumption]. }
  destruct ((0 <? n) && (n <=? 21)) eqn:C2.
  { apply andb_true_iff in C2 as [C2 _]. apply Z.ltb_lt in C2.
    destruct (Z.to_nat n) as [| j] eqn:Ej; [lia |].
    exists c. eexists. split; [reflexivity | assumption]. }
  destruct ((-6 <? n) && (n <=? 0)).
  { do 2 eexists. split; reflexivity. }
  destruct r; exists c; eexists; (split; [reflexivity | assumption]).
Qed.

(** The text of a finite number starts with a digit or the sign. *)
Lemma number_text_head (x : number) :
  is_finite x = true ->
  exists c t, number_text x = c :: t
              /\ (is_digit c = true \/ c = char "-").
Proof.
  destruct x as [| neg | neg | neg m e]; try discriminate; intros _.
  - do 2 eexists. split; [reflexivity | left; reflexivity].
  - cbn [number_text].
    pose proof (shortest_decimal_positive m e) as Hs.
    destruct (shortest_decimal m e) as [s E]. cbn [fst] in Hs.
    destruct neg.
    + do 2 eexists. split; [reflexivity | right; reflexivity].
    + destruct (decimal_text_head s E Hs) as (c & t & -> & Hc).
      exists c, t. split; [reflexivity | now left].
Qed.

Lemma digit_is_not_minus (c : code_unit) :
  is_digit c = true -> is_char c 45 = false.
Proof.
  unfold is_digit, is_char. intros H. apply andb_true_iff in H as [H1 H2].
  apply N.leb_le in H1. apply N.eqb_neq. lia.
Qed.

Lemma parse_number_text (x : number) (rest : list code_unit) :
  is_double x = true -> json_number x = true -> number_end rest = true ->
  parse_number (number_text x ++ rest) = Some (VNum x, rest).
Proof.
  intros Hd Hj Hend.
  destruct x as [| neg | [] | neg m e]; try discriminate.
  - change (number_text (Zero false)) with [char "0"].
    cbn [app parse_number].
    change (is_char (char "0") 45) with false. cbv iota.
    change (char "0" :: rest) with ([char "0"] ++ rest).
    rewrite parse_unsigned_int
      by (reflexivity || exact I || now apply number_end_not_digit).
    unfold after_int.
    now rewrite parse_fraction_end, parse_exponent_end by assumption.
  - cbn [number_text].
    assert (Hd' : is_double (Finite false m e) = true) by exact Hd.
    destruct (shortest_decimal_reads_back m e Hd') as (Hs & Hv).
    destruct (shortest_decimal m e) as [s E]. cbn [fst snd] in Hs, Hv.
    pose proof (parse_unsigned_decimal_text s E rest Hs Hend) as Hp.
    destruct neg.
    + cbn [app parse_number]. change (is_char (char "-") 45) with true.
      cbv iota. now rewrite Hp, Hv.
    + destruct (decimal_text_head s E Hs) as (c & t & Et & Hc).
      rewrite Et in *. cbn [app parse_number] in *.
      now rewrite (digit_is_not_minus c Hc), Hp, Hv.
Qed.

(** A number that JSON text cannot hold is not read back: NaN and the
    infinities are written as [null], the negative zero as [0]. *)
Lemma number_outside_json_is_not_read_back (x : number) :
  json_number x = false ->
  exists text,
    JSON.stringify (VNum x) = Some text
    /\ JSON.parse text <> Some (VNum x).
Proof.
  destruct x as [| neg | [] | neg m e]; try discriminate; intros _;
    eexists; (split; [reflexivity |]); discriminate.
Qed.

(** *** Numbers: examples *)

(** The Number values for some decimals. *)
Example decimal_to_number_examples :
  decimal_to_number 15 (-1) = Finite false 6755399441055744 (-52)
  /\ decimal_to_number 1 (-1) = Finite false 7205759403792794 (-56)
  /\ decimal_to_number 9007199254740993 0 = Finite false 4503599627370496 1
  /\ decimal_to_number 5 (-324) = Finite false 1 (-1074)
  /\ decimal_to_number 2 (-324) = Zero false
  /\ decimal_to_number 17976931348623157 292
     = Finite false 9007199254740991 971
  /\ decimal_to_number 1 309 = Infinity false.
Proof. vm_compute. repeat split. Qed.

(** Number::toString on numbers whose text is known. *)
Example number_text_examples :
  map (fun d => of_units (number_text (decimal_to_number (fst d) (snd d))))
    [(1, -1); (15, -1); (3, 0); (1, 21); (123456789012345678901, 0);
     (5, -324); (17976931348623157, 292); (1, -6); (1, -7);
     (30000000000000004, -17); (9007199254740993, 0)]
  = ["0.1"; "1.5"; "3"; "1e+21"; "123456789012345680000"; "5e-324";
     "1.7976931348623157e+308"; "0.000001"; "1e-7"; "0.30000000000000004";
     "9007199254740992"].
Proof. vm_compute. reflexivity. Qed.

(** [Number] on texts of every kind. *)
Example Number_examples :
  map Number ["1.5"; " 12 "; ""; "0x1F"; "1e3"; ".5"; "-0"; "Infinity"]
  = [decimal_to_number 15 (-1); of_Z 12; Zero false; of_Z 31; of_Z 1000;
     decimal_to_number 5 (-1); Zero true; Infinity false]
  /\ map (fun text => isNaN (Number text))
       ["abc"; "12px"; "1e"; "."; "-"; "0x"; "1 2"; "-0x10"; "infinity"]
     = [true; true; true; true; true; true; true; true; true].
Proof. vm_compute. split; reflexivity. Qed.

(** [JSON.parse] on numerals. *)
Example JSON_parse_numerals :
  JSON.parse "[1.5, 1e2, -0.25E+1, 9007199254740993]"
  = Some (VArr [VNum (decimal_to_number 15 (-1)); VNum 100;
                VNum (negate (decimal_to_number 25 (-1)));
                VNum 9007199254740992])
  /\ map JSON.parse ["01"; "1."; ".5"; "+1"; "1e"; "0x10"; "NaN"; "-"]
     = [None; None; None; None; None; None; None; None].
Proof. vm_compute. split; reflexivity. Qed.

(** [JSON.parse] on escapes: the text is an array of one string, whose
    characters are an escaped euro sign, an escaped surrogate on its own
    and an escaped line feed. *)
Example JSON_parse_escapes :
  JSON.parse
    (of_units
       (char "[" :: dquote :: units "\u20ac\uD83D\n" ++ [dquote; char "]"]))
  = Some (VArr [VStr (String 8364%N
                          (String 55357%N (String 10%N EmptyString)))]).
Proof. reflexivity. Qed.

(** *** Structure *)

Lemma value_nested_ind (P : value -> Prop) :
  P VUndef -> P VNull -> (forall b, P (VBool b)) -> (forall n, P (VNum n)) ->
  (forall s, P (VStr s)) ->
  (forall l, Forall P l -> P (VArr l)) ->
  (forall o, Forall (fun kv => P (snd kv)) o -> P (VObj o)) ->
  forall x, P x.
Proof.
  intros HU HN HB HZ HS HA HO. fix IH 1.
  intros [| | b | n | s | l | o];
    [exact HU | exact HN | apply HB | apply HZ | apply HS | |].
  - apply HA. induction l as [| y l IHl]; constructor; [apply IH | exact IHl].
  - apply HO. induction o as [| [k y] o IHo]; constructor;
      [apply IH | exact IHo].
Qed.

Lemma need_arr (l : list value) : need (VArr l) = S (needs l).
Proof.
  reflexivity.
Qed.

Lemma need_obj (o : props) : need (VObj o) = S (needs_members o).
Proof.
  reflexivity.
Qed.

Lemma need_positive (x : value) : (1 <= need x)%nat.
Proof. destruct x; cbn [need]; lia. Qed.

Lemma well_formed_arr (l : list value) :
  well_formed (VArr l) <-> Forall well_formed l.
Proof.
  cbn [well_formed]. induction l as [| y l IH].
  - split; constructor.
  - split.
    + intros [Hy Hl]. constructor; [exact Hy | now apply IH].
    + intros H. inversion H; subst. split; [assumption | now apply IH].
Qed.

Lemma well_formed_obj (o : props) :
  well_formed (VObj o)
  <-> obj_lit_onto [] o = o /\ Forall (fun kv => well_formed (snd kv)) o.
Proof.
  cbn [well_formed].
  enough (E : (fix all (o : props) : Prop :=
                 match o with
                 | [] => True
                 | (_, y) :: r => well_formed y /\ all r
                 end) o
              <-> Forall (fun kv => well_formed (snd kv)) o) by now rewrite E.
  induction o as [| [k y] o IH].
  - split; constructor.
  - split.
    + intros [Hy Ho]. constructor; [exact Hy | now apply IH].
    + intros H. inversion H; subst. split; [assumption | now apply IH].
Qed.

Lemma serialize_arr (ind : list code_unit) (l : list value) :
  serialize ind (VArr l) = char "[" :: ser_elements ind true l ++ [char "]"].
Proof.
  cbn [serialize]. do 2 f_equal. generalize true.
  induction l as [| y l IH]; intros first; [reflexivity |].
  cbn [ser_elements]. now rewrite <- IH.
Qed.

Lemma serialize_obj (ind : list code_unit) (o : props) :
  serialize ind (VObj o) = char "{" :: ser_members ind true o ++ [char "}"].
Proof.
  cbn [serialize]. do 2 f_equal. generalize true.
  induction o as [| [k y] o IH]; intros first; [reflexivity |].
  cbn [ser_members]. destruct y; now rewrite <- IH.
Qed.

Lemma ser_members_cons (ind : list code_unit) (first : bool) (k : string)
    (y : value) (o : props) :
  y <> VUndef ->
  ser_members ind first ((k, y) :: o)
  = (if first then [newline] else [comma; newline])
    ++ (space :: space :: ind) ++ quote k ++ [colon; space]
    ++ serialize (space :: space :: ind) y ++ ser_members ind false o.
Proof. intros H. destruct y; [congruence | reflexivity ..]. Qed.

Lemma well_formed_defined (x : value) : well_formed x -> x <> VUndef.
Proof. intros H ->. exact H. Qed.

(** *** White space and the first character of a value *)

Lemma skip_ws_blank (ws s : list code_unit) :
  forallb is_ws ws = true -> skip_ws (ws ++ s) = skip_ws s.
Proof.
  induction ws as [| c ws IH]; [reflexivity |]. cbn [forallb app skip_ws].
  intros H. apply andb_true_iff in H as [Hc Hws]. rewrite Hc. auto.
Qed.

Lemma parse_value_blank (f : nat) (ws s : list code_unit) :
  forallb is_ws ws = true -> parse_value f (ws ++ s) = parse_value f s.
Proof.
  intros H. destruct f; [reflexivity |]. cbn [parse_value].
  now rewrite skip_ws_blank.
Qed.

Lemma parse_elements_blank (f : nat) (ws s : list code_unit) (acc : list value) :
  forallb is_ws ws = true ->
  parse_elements f (ws ++ s) acc = parse_elements f s acc.
Proof.
  intros H. destruct f; [reflexivity |]. cbn [parse_elements].
  now rewrite parse_value_blank.
Qed.

Lemma parse_members_blank (f : nat) (ws s : list code_unit) (acc : props) :
  forallb is_ws ws = true ->
  parse_members f (ws ++ s) acc = parse_members f s acc.
Proof.
  intros H. destruct f; [reflexivity |]. cbn [parse_members].
  now rewrite skip_ws_blank.
Qed.

Lemma blank_indent (ind : list code_unit) :
  forallb is_ws ind = true -> forallb is_ws (space :: space :: ind) = true.
Proof. intros H. cbn [forallb]. now rewrite H. Qed.

Lemma blank_line (ind : list code_unit) :
  forallb is_ws ind = true -> forallb is_ws (newline :: ind) = true.
Proof. intros H. cbn [forallb]. now rewrite H. Qed.

(** The characters a value can start with. *)
Lemma serialize_head (ind : list code_unit) (x : value) :
  exists c t,
    serialize ind x = c :: t
    /\ is_ws c = false /\ is_char c 93 = false /\ is_char c 125 = false.
Proof.
  destruct x as [| | [] | n | s | l | o].
  1-4, 6: do 2 eexists; split; [reflexivity | repeat split; reflexivity].
  - cbn [serialize]. destruct (is_finite n) eqn:Hn.
    + destruct (number_text_head n Hn) as (c & t & -> & [Hc | ->]).
      * exists c, t. split; [reflexivity |].
        unfold is_digit in Hc. apply andb_true_iff in Hc as [H1 H2].
        apply N.leb_le in H1, H2. unfold is_ws, is_char.
        repeat split; repeat (apply orb_false_iff; split); apply N.eqb_neq;
          lia.
      * do 2 eexists. split; [reflexivity | repeat split; reflexivity].
    + do 2 eexists. split; [reflexivity | repeat split; reflexivity].
  - rewrite serialize_arr. do 2 eexists.
    split; [reflexivity | repeat split; reflexivity].
  - rewrite serialize_obj. do 2 eexists.
    split; [reflexivity | repeat split; reflexivity].
Qed.

Lemma skip_ws_value (ind : list code_unit) (x : value) (rest : list code_unit) :
  skip_ws (serialize ind x ++ rest) = serialize ind x ++ rest.
Proof.
  destruct (serialize_head ind x) as (c & t & -> & Hc & _).
  cbn [app skip_ws]. now rewrite Hc.
Qed.

Lemma parse_value_numeral (f : nat) (n : number) (rest : list code_unit) :
  is_finite n = true ->
  parse_value (S f) (number_text n ++ rest)
  = parse_number (number_text n ++ rest).
Proof.
  intros Hn.
  destruct (number_text_head n Hn) as (c & r & -> & [Hc | ->]);
    [| reflexivity].
  unfold is_digit in Hc. apply andb_true_iff in Hc as [H1 H2].
  apply N.leb_le in H1, H2.
  assert (Hne : forall k, (k < 48 \/ 57 < k)%N -> is_char c k = false)
    by (intros k Hk; apply N.eqb_neq; lia).
  cbn [app parse_value skip_ws]. unfold is_ws.
  rewrite !Hne by lia. cbn [orb]. rewrite !Hne by lia. reflexivity.
Qed.

(** *** One step of the parser on written text *)

Lemma parse_value_array (f : nat) (r : list code_unit) :
  parse_value (S f) (char "[" :: r)
  = match skip_ws r with
    | c2 :: r2 =>
        if is_char c2 93 then Some (VArr [], r2) else parse_elements f r []
    | [] => None
    end.
Proof. reflexivity. Qed.

Lemma parse_value_object (f : nat) (r : list code_unit) :
  parse_value (S f) (char "{" :: r)
  = match skip_ws r with
    | c2 :: r2 =>
        if is_char c2 125 then Some (VObj [], r2) else parse_members f r []
    | [] => None
    end.
Proof. reflexivity. Qed.

Lemma parse_value_string (f : nat) (s : string) (rest : list code_unit) :
  parse_value (S f) (quote s ++ rest) = Some (VStr s, rest).
Proof.
  unfold quote. cbn [app]. rewrite <- app_assoc. cbn [app].
  change (parse_value (S f) (dquote :: ?r))
    with (match parse_chars r with
          | Some (str, rest') => Some (VStr str, rest')
          | None => None
          end).
  now rewrite parse_chars_quoted.
Qed.

Lemma parse_members_quoted
    (f : nat) (ws : list code_unit) (k : string) (s : list code_unit) (acc : props) :
  forallb is_ws ws = true ->
  parse_members (S f) (ws ++ quote k ++ colon :: space :: s) acc
  = match parse_value f s with
    | None => None
    | Some (x, r3) =>
        match skip_ws r3 with
        | c3 :: r4 =>
            if is_char c3 44 then parse_members f r4 (put k x acc)
            else if is_char c3 125 then Some (VObj (put k x acc), r4)
            else None
        | [] => None
        end
    end.
Proof.
  intros Hws. rewrite parse_members_blank by assumption.
  unfold quote. cbn [app]. rewrite <- app_assoc. cbn [app].
  change (parse_members (S f) (dquote :: ?r) acc)
    with (match parse_chars r with
          | None => None
          | Some (k', r1) =>
              match skip_ws r1 with
              | c1 :: r2 =>
                  if is_char c1 58 then
                    match parse_value f r2 with
                    | None => None
                    | Some (x, r3) =>
                        match skip_ws r3 with
                        | c3 :: r4 =>
                            if is_char c3 44
                            then parse_members f r4 (put k' x acc)
                            else if is_char c3 125
                            then Some (VObj (put k' x acc), r4)
                            else None
                        | [] => None
                        end
                    end
                  else None
              | [] => None
              end
          end).
  rewrite parse_chars_quoted.
  change (skip_ws (colon :: space :: s)) with (colon :: space :: s).
  change (is_char colon 58) with true. cbn iota.
  pose proof (parse_value_blank f [space] s eq_refl) as E.
  cbn [app] in E. now rewrite E.
Qed.

Lemma skip_ws_before_value
    (ws ind : list code_unit) (x : value) (tail : list code_unit) :
  forallb is_ws ws = true ->
  exists c t,
    skip_ws (ws ++ serialize ind x ++ tail) = c :: t
    /\ is_char c 93 = false /\ is_char c 125 = false.
Proof.
  intros Hws. rewrite skip_ws_blank, skip_ws_value by assumption.
  destruct (serialize_head ind x) as (c & t & -> & _ & H1 & H2).
  exists c, (t ++ tail). auto.
Qed.

Lemma number_end_elements (ind : list code_unit) (l : list value)
    (tail : list code_unit) :
  number_end (ser_elements ind false l ++ tail) = true.
Proof. destruct l; reflexivity. Qed.

Lemma number_end_members (ind : list code_unit) (o : props) (tail : list code_unit) :
  Forall (fun kv => well_formed (snd kv)) o ->
  number_end (ser_members ind false o ++ tail) = true.
Proof.
  intros H. destruct o as [| [k y] o]; [reflexivity |].
  inversion H as [| ? ? Hy _]; subst. cbn [snd] in Hy.
  now rewrite ser_members_cons by now apply well_formed_defined.
Qed.

Lemma serialize_obj_cons (ind : list code_unit) (k : string) (y : value)
    (o : props) (rest : list code_unit) :
  y <> VUndef ->
  serialize ind (VObj ((k, y) :: o)) ++ rest
  = char "{" :: (newline :: space :: space :: ind) ++ quote k
      ++ [colon; space] ++ serialize (space :: space :: ind) y
      ++ ser_members ind false o ++ char "}" :: rest.
Proof.
  intros Hy. rewrite serialize_obj, ser_members_cons by assumption.
  cbn [app]. do 4 f_equal. rewrite <- !app_assoc.
  do 2 f_equal. cbn [app]. now rewrite <- app_assoc.
Qed.

Section RoundTrip.

(** Values whose text parses with a fuel of at most [F] are read back. *)
Variable F : nat.
Hypothesis read_back :
  forall (f : nat) (x : value) (ind rest : list code_unit),
    (f <= F)%nat -> well_formed x -> (need x <= f)%nat ->
    forallb is_ws ind = true -> number_end rest = true ->
    parse_value f (serialize ind x ++ rest) = Some (x, rest).

Lemma parse_elements_written (l : list value) :
  forall (y : value) (g : nat) (acc : list value)
         (ind ws rest : list code_unit),
    (g <= S F)%nat -> (needs (y :: l) <= g)%nat ->
    well_formed y -> Forall well_formed l ->
    forallb is_ws ind = true -> forallb is_ws ws = true ->
    parse_elements g
      (ws ++ serialize (space :: space :: ind) y
          ++ ser_elements ind false l ++ char "]" :: rest) acc
    = Some (VArr (rev acc ++ y :: l), rest).
Proof.
  induction l as [| y2 l IH]; intros y g acc ind ws rest Hg Hn Hy Hl Hind Hws;
    (destruct g as [| g]; [cbn [needs] in Hn; lia |]);
    cbn [needs] in Hn; cbn [parse_elements];
    rewrite parse_value_blank by assumption;
    rewrite read_back;
      try lia; try assumption; try (now apply blank_indent);
      try apply number_end_elements.
  - cbn [ser_elements].
    rewrite (skip_ws_blank (newline :: ind)) by now apply blank_line.
    cbn [rev]. reflexivity.
  - cbn [ser_elements]. rewrite <- !app_assoc.
    change (skip_ws ([comma; newline] ++ ?t)) with (comma :: newline :: t).
    change (is_char comma 44) with true. cbn iota.
    inversion Hl as [| ? ? Hy2 Hl']; subst.
    pose proof (IH y2 g (y :: acc) ind (newline :: space :: space :: ind)
                  rest) as E.
    cbn [app] in E |- *.
    rewrite E;
      [| lia | cbn [needs]; lia | assumption | assumption | assumption
       | now apply blank_line, blank_indent].
    cbn [rev]. now rewrite <- app_assoc.
Qed.

Lemma parse_members_written (o : props) :
  forall (k : string) (y : value) (g : nat) (acc : props)
         (ind ws rest : list code_unit),
    (g <= S F)%nat -> (needs_members ((k, y) :: o) <= g)%nat ->
    well_formed y -> Forall (fun kv => well_formed (snd kv)) o ->
    forallb is_ws ind = true -> forallb is_ws ws = true ->
    parse_members g
      (ws ++ quote k ++ [colon; space]
          ++ serialize (space :: space :: ind) y
          ++ ser_members ind false o ++ char "}" :: rest) acc
    = Some (VObj (obj_lit_onto acc ((k, y) :: o)), rest).
Proof.
  induction o as [| [k2 y2] o IH];
    intros k y g acc ind ws rest Hg Hn Hy Ho Hind Hws;
    (destruct g as [| g]; [cbn [needs_members] in Hn; lia |]);
    cbn [needs_members] in Hn;
    cbn [app]; rewrite parse_members_quoted by assumption;
    rewrite read_back;
      try lia; try assumption; try (now apply blank_indent);
      try (now apply number_end_members).
  - cbn [ser_members].
    rewrite (skip_ws_blank (newline :: ind)) by now apply blank_line.
    reflexivity.
  - inversion Ho as [| ? ? Hy2 Ho']; subst. cbn [snd] in Hy2.
    rewrite ser_members_cons by now apply well_formed_defined.
    rewrite <- !app_assoc.
    change (skip_ws ([comma; newline] ++ ?t)) with (comma :: newline :: t).
    change (is_char comma 44) with true. cbn iota.
    pose proof (IH k2 y2 g (put k y acc) ind
                  (newline :: space :: space :: ind) rest) as E.
    cbn [app] in E |- *.
    rewrite E;
      [| lia | cbn [needs_members]; lia | assumption | assumption
       | assumption | now apply blank_line, blank_indent].
    reflexivity.
Qed.

Lemma parse_value_written (x : value) (ind rest : list code_unit) :
  well_formed x -> (need x <= S F)%nat ->
  forallb is_ws ind = true -> number_end rest = true ->
  parse_value (S F) (serialize ind x ++ rest) = Some (x, rest).
Proof.
  intros Hx Hn Hind Hrest.
  destruct x as [| | [] | n | s | l | o].
  - destruct Hx.
  - reflexivity.
  - reflexivity.
  - reflexivity.
  - destruct Hx as [Hd Hj]. cbn [serialize].
    assert (Hf : is_finite n = true) by now destruct n as [| | [] |].
    rewrite Hf, parse_value_numeral by assumption.
    now apply parse_number_text.
  - cbn [serialize]. apply parse_value_string.
  - rewrite serialize_arr. apply well_formed_arr in Hx.
    rewrite need_arr in Hn.
    destruct l as [| y l]; [reflexivity |].
    inversion Hx as [| ? ? Hy Hl]; subst.
    cbn [ser_elements app]. rewrite <- !app_assoc. cbn [app].
    rewrite parse_value_array.
    destruct (skip_ws_before_value (newline :: space :: space :: ind)
                (space :: space :: ind) y
                (ser_elements ind false l ++ char "]" :: rest))
      as (c & t & E & H93 & _); [now apply blank_line, blank_indent |].
    cbn [app] in E. rewrite E, H93.
    apply (parse_elements_written l y F [] ind
             (newline :: space :: space :: ind) rest);
      try lia; assumption.
  - apply well_formed_obj in Hx as [Ho Hx]. rewrite need_obj in Hn.
    destruct o as [| [k y] o]; [reflexivity |].
    inversion Hx as [| ? ? Hy Hl]; subst. cbn [snd] in Hy.
    rewrite serialize_obj_cons by now apply well_formed_defined.
    rewrite parse_value_object.
    rewrite skip_ws_blank by now apply blank_line, blank_indent.
    unfold quote at 1. cbn [app].
    change (skip_ws (dquote :: ?t)) with (dquote :: t).
    change (is_char dquote 125) with false. cbn iota.
    rewrite <- Ho at 1.
    apply (parse_members_written o k y F [] ind
             (newline :: space :: space :: ind) rest);
      try lia; assumption.
Qed.

End RoundTrip.

(** The text of a well-formed value is read back as that value, whatever
    the indentation and whatever follows that cannot continue a numeral. *)
Lemma parse_value_serialize (f : nat) :
  forall (g : nat) (x : value) (ind rest : list code_unit),
    (g <= f)%nat -> well_formed x -> (need x <= g)%nat ->
    forallb is_ws ind = true -> number_end rest = true ->
    parse_value g (serialize ind x ++ rest) = Some (x, rest).
Proof.
  induction f as [| f IH]; intros g x ind rest Hg Hx Hn Hind Hrest.
  - pose proof (need_positive x). lia.
  - destruct (Nat.eq_dec g (S f)) as [-> | Hne].
    + now apply parse_value_written.
    + apply IH; try assumption. lia.
Qed.

(** The text is at least as long as the fuel it takes. *)
Lemma need_le_length (x : value) :
  well_formed x ->
  forall ind, (need x <= List.length (serialize ind x))%nat.
Proof.
  induction x as [| | b | n | s | l IH | o IH] using value_nested_ind;
    intros Hx ind.
  - destruct Hx.
  - cbn. lia.
  - destruct b; cbn; lia.
  - destruct (serialize_head ind (VNum n)) as (c & r & -> & _).
    cbn [need List.length]. lia.
  - cbn [need serialize]. unfold quote. cbn [List.length]. lia.
  - rewrite need_arr, serialize_arr. cbn [List.length].
    rewrite length_app. apply well_formed_arr in Hx.
    enough (H : forall first,
               (needs l <= List.length (ser_elements ind first l))%nat)
      by (specialize (H true); lia).
    induction l as [| y l IHl]; intros first; [cbn; lia |].
    inversion IH as [| ? ? Py Pl]; inversion Hx as [| ? ? Hy Hl]; subst.
    cbn [needs ser_elements]. rewrite !length_app.
    specialize (Py Hy (space :: space :: ind)).
    specialize (IHl Pl Hl false).
    destruct first; cbn [List.length]; lia.
  - rewrite need_obj, serialize_obj. cbn [List.length].
    rewrite length_app. apply well_formed_obj in Hx as [_ Hx].
    enough (H : forall first,
               (needs_members o <= List.length (ser_members ind first o))%nat)
      by (specialize (H true); lia).
    induction o as [| [k y] o IHo]; intros first; [cbn; lia |].
    inversion IH as [| ? ? Py Po]; inversion Hx as [| ? ? Hy Ho]; subst.
    cbn [snd] in Py, Hy.
    rewrite ser_members_cons by now apply well_formed_defined.
    cbn [needs_members]. rewrite !length_app.
    specialize (Py Hy (space :: space :: ind)).
    specialize (IHo Po Ho false).
    destruct first; cbn [List.length]; lia.
Qed.

Lemma JSON_parse_stringify (x : value) :
  well_formed x ->
  exists text, JSON.stringify x = Some text /\ JSON.parse text = Some x.
Proof.
  intros Hx. exists (of_units (serialize [] x)). split.
  - destruct x; [destruct Hx | reflexivity ..].
  - unfold JSON.parse, chars. rewrite units_of_units.
    rewrite <- (List.app_nil_r (serialize [] x)) at 2.
    rewrite (parse_value_serialize (S (List.length (serialize [] x))));
      try reflexivity; try assumption.
    pose proof (need_le_length x Hx []). lia.
Qed.

Lemma stringify_not_empty (x : value) (text : string) :
  JSON.stringify x = Some text -> String.eqb text "" = false.
Proof.
  unfold JSON.stringify. intros H.
  assert (E : text = of_units (serialize [] x))
    by (destruct x; congruence).
  subst text. destruct (serialize_head [] x) as (c & t & -> & _).
  reflexivity.
Qed.

(** *** What is read back of any document *)

Lemma json_image_undefined (x : value) : json_image x = VUndef -> x = VUndef.
Proof. destruct x as [| | b | [] | s | l | o]; cbn; congruence. Qed.

Lemma serialize_json_image (x : value) :
  forall ind, serialize ind (json_image x) = serialize ind x.
Proof.
  induction x as [| | b | n | s | l IH | o IH] using value_nested_ind;
    intros ind; try reflexivity.
  - destruct n as [| neg | [] | neg m e]; reflexivity.
  - cbn [json_image]. rewrite !serialize_arr. do 2 f_equal.
    generalize true. induction IH as [| y l Hy _ IHl]; intros first;
      [reflexivity |].
    cbn [map ser_elements]. now rewrite Hy, IHl.
  - cbn [json_image]. rewrite !serialize_obj. do 2 f_equal.
    generalize true. induction IH as [| [k y] o Hy _ IHo]; intros first;
      [reflexivity |].
    cbn [map]. cbn [snd] in Hy.
    assert (D : y = VUndef \/ y <> VUndef)
      by (destruct y; (now left) || (right; discriminate)).
    destruct D as [-> | Hne]; [cbn [json_image ser_members]; apply IHo |].
    rewrite (ser_members_cons ind first k y o Hne).
    rewrite ser_members_cons
      by (intros E; apply json_image_undefined in E; contradiction).
    now rewrite Hy, IHo.
Qed.

(** Defining properties depends on the keys only. *)
Lemma own_get_image_members (k : string) (o : props) :
  own_get k (image_members o)
  = match own_get k o with Some y => Some (json_image y) | None => None end.
Proof.
  unfold image_members.
  induction o as [| [k' y] o IH]; cbn [map own_get]; [reflexivity |].
  now destruct (String.eqb k k').
Qed.

Lemma replace_prop_image_members (k : string) (v : value) (o : props) :
  replace_prop k (json_image v) (image_members o)
  = image_members (replace_prop k v o).
Proof.
  unfold image_members.
  induction o as [| [k' y] o IH]; cbn [map replace_prop]; [reflexivity |].
  destruct (String.eqb k k'); cbn [map]; [reflexivity | now rewrite IH].
Qed.

Lemma insert_prop_image_members (k : string) (v : value) (o : props) :
  insert_prop k (json_image v) (image_members o)
  = image_members (insert_prop k v o).
Proof.
  unfold image_members.
  induction o as [| [k' y] o IH]; cbn [map insert_prop]; [reflexivity |].
  destruct (key_before k k'); cbn [map]; [reflexivity | now rewrite IH].
Qed.

Lemma put_image_members (k : string) (v : value) (o : props) :
  put k (json_image v) (image_members o) = image_members (put k v o).
Proof.
  unfold put, has_own. rewrite own_get_image_members.
  destruct (own_get k o).
  - apply replace_prop_image_members.
  - apply insert_prop_image_members.
Qed.

Lemma obj_lit_onto_image_members (entries base : props) :
  obj_lit_onto (image_members base) (image_members entries)
  = image_members (obj_lit_onto base entries).
Proof.
  unfold obj_lit_onto. revert base.
  induction entries as [| [k v] entries IH]; intros base;
    [reflexivity |].
  change (image_members ((k, v) :: entries))
    with ((k, json_image v) :: image_members entries).
  cbn [fold_left fst snd]. rewrite put_image_members. apply IH.
Qed.

Lemma document_arr (l : list value) :
  document (VArr l) <-> Forall document l.
Proof.
  cbn [document]. induction l as [| y l IH].
  - split; constructor.
  - split.
    + intros [Hy Hl]. constructor; [exact Hy | now apply IH].
    + intros H. inversion H; subst. split; [assumption | now apply IH].
Qed.

Lemma document_obj (o : props) :
  document (VObj o)
  <-> obj_lit_onto [] o = o /\ Forall (fun kv => document (snd kv)) o.
Proof.
  cbn [document].
  enough (E : (fix all (o : props) : Prop :=
                 match o with
                 | [] => True
                 | (_, y) :: r => document y /\ all r
                 end) o
              <-> Forall (fun kv => document (snd kv)) o) by now rewrite E.
  induction o as [| [k y] o IH].
  - split; constructor.
  - split.
    + intros [Hy Ho]. constructor; [exact Hy | now apply IH].
    + intros H. inversion H; subst. split; [assumption | now apply IH].
Qed.

Lemma well_formed_json_image (x : value) :
  document x -> well_formed (json_image x).
Proof.
  induction x as [| | b | n | s | l IH | o IH] using value_nested_ind;
    intros Hx; try exact Hx.
  - cbn [document] in Hx.
    destruct n as [| neg | neg | neg m e];
      [exact I | exact I | split; reflexivity | split; [exact Hx | reflexivity]].
  - cbn [json_image]. apply well_formed_arr. apply document_arr in Hx.
    induction IH as [| y l Hy _ IHl]; [constructor |].
    inversion Hx; subst. constructor; auto.
  - change (json_image (VObj o)) with (VObj (image_members o)).
    apply well_formed_obj. apply document_obj in Hx as [Ho Hx]. split.
    + change (@nil (string * value)) with (image_members []).
      now rewrite obj_lit_onto_image_members, Ho.
    + clear Ho. unfold image_members.
      induction IH as [| [k y] o' Hy _ IHo]; [constructor |].
      inversion Hx; subst. constructor; [cbn [snd] in *; auto |].
      now apply IHo.
Qed.

Lemma json_image_well_formed (x : value) :
  well_formed x -> json_image x = x.
Proof.
  induction x as [| | b | n | s | l IH | o IH] using value_nested_ind;
    intros Hx; try reflexivity.
  - destruct Hx as [_ Hj]. now destruct n as [| neg | [] | neg m e].
  - cbn [json_image]. f_equal. apply well_formed_arr in Hx.
    induction IH as [| y l Hy _ IHl]; [reflexivity |].
    inversion Hx; subst. cbn [map]. f_equal; auto.
  - cbn [json_image]. f_equal. apply well_formed_obj in Hx as [_ Hx].
    induction IH as [| [k y] o' Hy _ IHo]; [reflexivity |].
    inversion Hx; subst. cbn [map snd] in *. f_equal; [f_equal |]; auto.
Qed.

Lemma document_defined (x : value) : document x -> x <> VUndef.
Proof. intros H ->. exact H. Qed.

(** The text of a document is read back as its image. *)
Lemma JSON_parse_stringify_image (x : value) :
  document x ->
  exists text,
    JSON.stringify x = Some text /\ JSON.parse text = Some (json_image x).
Proof.
  intros Hx.
  destruct (JSON_parse_stringify (json_image x) (well_formed_json_image x Hx))
    as (text & Hs & Hp).
  exists text. split; [| exact Hp].
  rewrite <- Hs. unfold JSON.stringify. rewrite serialize_json_image.
  pose proof (document_defined x Hx) as Hne.
  destruct x as [| | b | n | s | l | o]; try reflexivity; try congruence.
  now destruct n.
Qed.

(** C6 as stated fails: the text [Infinity], typed as the threshold of
    a count, is stored as the number it denotes, which JSON text cannot
    hold; the document is written with [null] in its place and read
    back with null there. *)
Lemma infinite_threshold_is_not_read_back :
  ~ (forall D : value,
        document D ->
        exists text, JSON.stringify D = Some text /\ JSON.parse text = Some D).
Proof.
  intros H.
  destruct (H (policy infinite_threshold_state)) as (text & Hs & Hp).
  - vm_compute. repeat split.
  - vm_compute in Hs. injection Hs as <-.
    vm_compute in Hp. discriminate Hp.
Qed.

(** C6, amended: the two-space JSON text of a document, put back
    through the handler of the preview pane, gives the document with
    null in the place of every number that is not finite and the
    positive zero in the place of the negative one.  So parsing the
    serialization yields a value equal to the one serialized exactly
    when the numbers of the document are finite and not the negative
    zero. *)
Theorem serialized_document_parses_back (st : editor_state) (D : value) :
  document D ->
  exists text,
    JSON.stringify D = Some text
    /\ JSON.parse text = Some (json_image D)
    /\ policy (handleEditorChange st (Some text)) = json_image D
    /\ (JSON.parse text = Some D <-> well_formed D).
Proof.
  intros HD. destruct (JSON_parse_stringify_image D HD) as (text & Hs & Hp).
  exists text. split; [exact Hs |]. split; [exact Hp |]. split.
  - unfold handleEditorChange.
    now rewrite (stringify_not_empty D text Hs), Hp.
  - rewrite Hp. split.
    + intros [= E]. rewrite <- E. now apply well_formed_json_image.
    + intros HW. now rewrite json_image_well_formed.
Qed.

Lemma serialized_document_parses_back_witness :
  document (policy sample_state)
  /\ exists text,
       JSON.stringify (policy sample_state) = Some text
       /\ JSON.parse text = Some (json_image (policy sample_state))
       /\ policy (handleEditorChange initial_state (Some text))
          = json_image (policy sample_state)
       /\ (JSON.parse text = Some (policy sample_state)
           <-> well_formed (policy sample_state)).
Proof.
  assert (W : document (policy sample_state)) by (vm_compute; repeat split).
  split; [exact W |].
  exact (serialized_document_parses_back initial_state (policy sample_state) W).
Defined.

(** * The rest of the handlers *)

(** ** Children of a group: removing, moving, replacing *)

Lemma filter_from_keeps (idx i : Z) (l : list value) :
  idx < i \/ i + Z.of_nat (List.length l) <= idx ->
  filter_from (fun _ j => negb (j =? idx)) i l = l.
Proof.
  revert i. induction l as [| x r IH]; intros i H; cbn [filter_from];
    [reflexivity |].
  cbn [List.length] in H.
  destruct (Z.eqb_spec i idx) as [-> | _]; [lia |].
  cbn [negb]. rewrite IH; [reflexivity | lia].
Qed.

Lemma filter_from_drops (before after : list value) (x : value) (i : Z) :
  filter_from (fun _ j => negb (j =? i + Z.of_nat (List.length before))) i
    (before ++ x :: after)
  = before ++ after.
Proof.
  revert i. induction before as [| b before IH]; intros i;
    cbn [app filter_from List.length].
  - replace (i + Z.of_nat 0) with i by lia. rewrite Z.eqb_refl. cbn [negb].
    apply filter_from_keeps. lia.
  - destruct (Z.eqb_spec i (i + Z.of_nat (S (List.length before)))) as [E | _];
      [lia |].
    cbn [negb]. f_equal.
    replace (i + Z.of_nat (S (List.length before)))
      with (i + 1 + Z.of_nat (List.length before)) by lia.
    apply IH.
Qed.

Lemma filter_from_drops_at_most_one (idx i : Z) (l : list value) :
  (List.length l
   <= S (List.length (filter_from (fun _ j => negb (j =? idx)%Z) i l)))%nat.
Proof.
  revert i. induction l as [| x r IH]; intros i; cbn [filter_from List.length];
    [lia |].
  destruct (Z.eqb_spec i idx) as [-> | _]; cbn [negb List.length].
  - rewrite filter_from_keeps by lia. lia.
  - specialize (IH (i + 1)). lia.
Qed.

(** X1: in a group of two or more children, removing the child at an
    index inside the group drops exactly that child: the others stay, in
    their order. *)
Theorem remove_drops_the_child_at_the_index
    (before after : list value) (x : value) :
  before ++ after <> [] ->
  handleRemoveCondition (before ++ x :: after) (Z.of_nat (List.length before))
  = before ++ after.
Proof.
  intros H. unfold handleRemoveCondition.
  destruct (Nat.eqb_spec (List.length (before ++ x :: after)) 1) as [E | _].
  - rewrite length_app in E. cbn [List.length] in E.
    destruct before, after; cbn in E; try lia. now destruct H.
  - apply (filter_from_drops before after x 0).
Qed.

Lemma remove_drops_the_child_at_the_index_witness :
  [VNum 1] ++ [VNum 3] <> []
  /\ handleRemoveCondition ([VNum 1] ++ VNum 2 :: [VNum 3])
       (Z.of_nat (List.length [VNum 1]))
     = [VNum 1] ++ [VNum 3].
Proof.
  split; [discriminate |].
  apply (remove_drops_the_child_at_the_index [VNum 1] [VNum 3] (VNum 2)).
  discriminate.
Defined.

(** X2: when the group does not have exactly one child, removing at an
    index outside the group (negative, or at or beyond the number of
    children) leaves the children as they are. *)
Theorem remove_outside_changes_nothing (conditions : list value) (idx : Z) :
  List.length conditions <> 1%nat ->
  idx < 0 \/ Z.of_nat (List.length conditions) <= idx ->
  handleRemoveCondition conditions idx = conditions.
Proof.
  intros Hlen H. unfold handleRemoveCondition.
  destruct (Nat.eqb_spec (List.length conditions) 1) as [E | _]; [easy |].
  apply filter_from_keeps. lia.
Qed.

Lemma remove_outside_changes_nothing_witness :
  List.length [VNum 1; VNum 2] <> 1%nat
  /\ (5 < 0 \/ Z.of_nat (List.length [VNum 1; VNum 2]) <= 5)
  /\ handleRemoveCondition [VNum 1; VNum 2] 5 = [VNum 1; VNum 2].
Proof.
  split; [discriminate |]. split; [right; simpl; lia |].
  apply (remove_outside_changes_nothing [VNum 1; VNum 2] 5);
    [discriminate | right; simpl; lia].
Defined.

(** X3: removing never empties a group: from a group that has children,
    whatever the index, at least one child is left. *)
Theorem remove_never_empties_a_group (conditions : list value) (idx : Z) :
  conditions <> [] -> handleRemoveCondition conditions idx <> [].
Proof.
  intros H. unfold handleRemoveCondition.
  destruct (Nat.eqb_spec (List.length conditions) 1) as [E | Hne];
    [discriminate |].
  pose proof (filter_from_drops_at_most_one idx 0 conditions) as L.
  unfold js_filter. intros E. rewrite E in L. cbn [List.length] in L.
  destruct conditions as [| a [| b r]]; cbn [List.length] in *;
    [now destruct H | lia | lia].
Qed.

Lemma remove_never_empties_a_group_witness :
  [VNum 1; VNum 2] <> []
  /\ handleRemoveCondition [VNum 1; VNum 2] 0 <> [].
Proof.
  split; [discriminate |].
  apply (remove_never_empties_a_group [VNum 1; VNum 2] 0). discriminate.
Defined.

Lemma arr_set_middle (before after : list value) (x y : value) :
  arr_set (before ++ x :: after) (Z.of_nat (List.length before)) y
  = Some (before ++ y :: after).
Proof.
  unfold arr_set.
  destruct (Z.ltb_spec (Z.of_nat (List.length before)) 0) as [H | _]; [lia |].
  rewrite Nat2Z.id.
  destruct (Nat.ltb_spec (List.length before)
              (List.length (before ++ x :: after))) as [_ | H].
  - now rewrite set_nth_middle.
  - rewrite length_app in H. cbn [List.length] in H. lia.
Qed.

Lemma arr_at_next (before after : list value) (x y : value) :
  arr_at (before ++ x :: y :: after) (Z.of_nat (List.length before) + 1) = y.
Proof.
  replace (Z.of_nat (List.length before) + 1)
    with (Z.of_nat (List.length (before ++ [x])))
    by (rewrite length_app; cbn [List.length]; lia).
  replace (before ++ x :: y :: after) with ((before ++ [x]) ++ y :: after)
    by now rewrite <- app_assoc.
  apply arr_at_middle.
Qed.

Lemma arr_set_next (before after : list value) (x y z : value) :
  arr_set (before ++ x :: y :: after) (Z.of_nat (List.length before) + 1) z
  = Some (before ++ x :: z :: after).
Proof.
  replace (Z.of_nat (List.length before) + 1)
    with (Z.of_nat (List.length (before ++ [x])))
    by (rewrite length_app; cbn [List.length]; lia).
  replace (before ++ x :: y :: after) with ((before ++ [x]) ++ y :: after)
    by now rewrite <- app_assoc.
  rewrite arr_set_middle. now rewrite <- app_assoc.
Qed.

Lemma handleMoveCondition_down (before after : list value) (a b : value) :
  handleMoveCondition (before ++ a :: b :: after)
    (Z.of_nat (List.length before)) down
  = Some (Updated (before ++ b :: a :: after)).
Proof.
  unfold handleMoveCondition.
  destruct (Z.eqb_spec (Z.of_nat (List.length before))
              (Z.of_nat (List.length (before ++ a :: b :: after)) - 1))
    as [E | _].
  - rewrite length_app in E. cbn [List.length] in E. lia.
  - rewrite arr_at_next, arr_at_middle, arr_set_middle.
    now rewrite arr_set_next.
Qed.

Lemma handleMoveCondition_up (before after : list value) (a b : value) :
  handleMoveCondition (before ++ a :: b :: after)
    (Z.of_nat (List.length before) + 1) up
  = Some (Updated (before ++ b :: a :: after)).
Proof.
  unfold handleMoveCondition.
  destruct (Z.eqb_spec (Z.of_nat (List.length before) + 1) 0) as [E | _];
    [lia |].
  replace (Z.of_nat (List.length before) + 1 - 1)
    with (Z.of_nat (List.length before)) by lia.
  rewrite arr_at_next, arr_at_middle, arr_set_next.
  now rewrite arr_set_middle.
Qed.

Lemma split_at_pair (l : list value) (n : nat) :
  (S n < List.length l)%nat ->
  exists before a b after,
    l = before ++ a :: b :: after /\ List.length before = n.
Proof.
  revert l. induction n as [| n IH]; intros l H.
  - destruct l as [| a [| b r]]; cbn [List.length] in H; try lia.
    now exists [], a, b, r.
  - destruct l as [| x r]; cbn [List.length] in H; [lia |].
    destruct (IH r) as (before & a & b & after & -> & <-); [lia |].
    now exists (x :: before), a, b, after.
Qed.

(** X4: moving a child down, or the next child up, swaps the two
    neighbours and leaves every other child in place; moving the swapped
    child back up restores the children. *)
Theorem move_swaps_neighbours (before after : list value) (a b : value) :
  let l := before ++ a :: b :: after in
  let i := Z.of_nat (List.length before) in
  handleMoveCondition l i down = Some (Updated (before ++ b :: a :: after))
  /\ handleMoveCondition l (i + 1) up
     = Some (Updated (before ++ b :: a :: after))
  /\ handleMoveCondition (before ++ b :: a :: after) (i + 1) up
     = Some (Updated l).
Proof.
  cbv zeta. split; [apply handleMoveCondition_down |].
  split; apply handleMoveCondition_up.
Qed.

(** X5: for every index inside the group and either direction, a move
    does nothing (the first child up, the last child down) or hands on a
    permutation of the children: no child is lost or duplicated. *)
Theorem move_loses_no_child
    (conditions : list value) (idx : Z) (direction : Direction) :
  0 <= idx < Z.of_nat (List.length conditions) ->
  handleMoveCondition conditions idx direction = Some NoUpdate
  \/ exists moved,
       handleMoveCondition conditions idx direction = Some (Updated moved)
       /\ Permutation conditions moved.
Proof.
  intros H. destruct direction.
  - destruct (Z.eq_dec idx 0) as [-> | Hne]; [now left |]. right.
    destruct (split_at_pair conditions (Z.to_nat (idx - 1)))
      as (before & a & b & after & -> & E); [lia |].
    exists (before ++ b :: a :: after). split.
    + replace idx with (Z.of_nat (List.length before) + 1) by lia.
      apply handleMoveCondition_up.
    + apply Permutation_app_head, perm_swap.
  - destruct (Z.eq_dec idx (Z.of_nat (List.length conditions) - 1))
      as [-> | Hne].
    + left. unfold handleMoveCondition. now rewrite Z.eqb_refl.
    + right.
      destruct (split_at_pair conditions (Z.to_nat idx))
        as (before & a & b & after & -> & E); [lia |].
      exists (before ++ b :: a :: after). split.
      * replace idx with (Z.of_nat (List.length before)) by lia.
        apply handleMoveCondition_down.
      * apply Permutation_app_head, perm_swap.
Qed.

Lemma move_loses_no_child_witness :
  0 <= 1 < Z.of_nat (List.length [VNum 1; VNum 2; VNum 3])
  /\ (handleMoveCondition [VNum 1; VNum 2; VNum 3] 1 down = Some NoUpdate
      \/ exists moved,
           handleMoveCondition [VNum 1; VNum 2; VNum 3] 1 down
           = Some (Updated moved)
           /\ Permutation [VNum 1; VNum 2; VNum 3] moved).
Proof.
  split; [simpl; lia |].
  apply (move_loses_no_child [VNum 1; VNum 2; VNum 3] 1 down). simpl. lia.
Defined.

(** X6: replacing the child at an index inside the group changes that
    child only; in particular the children a nested group hands up
    through its item replace the children of that group, which keeps its
    kind and negation, and leave its siblings as they are. *)
Theorem update_reaches_only_that_child :
  (forall (before after : list value) (x y : value),
      handleUpdateCondition (before ++ x :: after)
        (Z.of_nat (List.length before)) y
      = Some (before ++ y :: after))
  /\ (forall (before after : list value) (negated : bool) (k : kind)
             (cs cs' : list value),
         exists g,
           ConditionItem.group (group_object negated k cs) = Ok g
           /\ handleUpdateCondition
                (before ++ group_object negated k cs :: after)
                (Z.of_nat (List.length before))
                (ConditionItem.onUpdate g cs')
              = Some (before ++ group_object negated k cs' :: after)).
Proof.
  split.
  - intros. apply arr_set_middle.
  - intros. unfold handleUpdateCondition.
    destruct negated, k; eexists; (split; [reflexivity |]);
      now rewrite arr_set_middle.
Qed.

(** ** The type guards and the group item *)

(** X7: on every condition of the typed shapes, bare or negated, each
    guard answers by the shape: exactly one of the three holds. *)
Theorem guards_tell_the_shapes_apart (c : condition) :
  isSimpleCondition (condition_object c) = Ok (is_simple c)
  /\ isCountCondition (condition_object c) = Ok (is_count c)
  /\ isNestedCondition (condition_object c) = Ok (is_nested c).
Proof.
  destruct c as [[f op v | k cs | f w op n] | [f op v | k cs | f w op n]];
    try (destruct op; repeat split; reflexivity);
    destruct k; repeat split; reflexivity.
Qed.

(** X8: an object the item renders as a group (the guards for a leaf
    and for a count, asked first, fail on it and the guard for a group
    holds) is read as a group, and the object its [onUpdate] hands up is
    rendered as a group again and read back as one of the same kind and
    negation whose children are the updated ones. *)
Theorem group_reads_back_its_update (c : value) (cs : list value) :
  ConditionItem.render c = Ok ConditionItem.ConditionGroup ->
  exists g,
    ConditionItem.group c = Ok g
    /\ ConditionItem.render (ConditionItem.onUpdate g cs)
       = Ok ConditionItem.ConditionGroup
    /\ ConditionItem.group (ConditionItem.onUpdate g cs)
       = Ok {| ConditionItem.gp_isNot := ConditionItem.gp_isNot g;
               ConditionItem.gp_type := ConditionItem.gp_type g;
               ConditionItem.gp_conditions := VArr cs |}.
Proof.
  intros H.
  assert (N : isNestedCondition c = Ok true).
  { unfold ConditionItem.render in H.
    destruct (isSimpleCondition c) as [[] |]; try discriminate H.
    cbn [bind] in H.
    destruct (isCountCondition c) as [[] |]; try discriminate H.
    cbn [bind] in H.
    now destruct (isNestedCondition c) as [[] |]. }
  clear H. unfold isNestedCondition in N. unfold ConditionItem.group.
  destruct c as [| | b | n | s | l | o]; try discriminate N.
  - rewrite !js_in_array_named in N by reflexivity. discriminate N.
  - cbn [js_in bind] in N |- *. unfold has_own in N |- *.
    destruct (own_get "not" o) as [inner |] eqn:En.
    + cbn [bind js_get] in N |- *. rewrite En in N |- *.
      destruct inner as [| | b | n | s | l | io]; try discriminate N.
      * rewrite !js_in_array_named in N by reflexivity. discriminate N.
      * cbn [js_in bind] in N |- *. unfold has_own in N |- *.
        destruct (own_get "allOf" io) as [x |] eqn:Ea; cbn [bind js_get].
        -- rewrite ?Ea. eexists. split; [reflexivity |]. split; reflexivity.
        -- destruct (own_get "anyOf" io) as [x |] eqn:Ey; [| discriminate N].
           eexists. split; [reflexivity |]. split; reflexivity.
    + cbn [bind js_get js_in] in N |- *. unfold has_own in N |- *.
      destruct (own_get "allOf" o) as [x |] eqn:Ea; cbn [bind js_get].
      * rewrite ?Ea. eexists. split; [reflexivity |]. split; reflexivity.
      * destruct (own_get "anyOf" o) as [x |] eqn:Ey; [| discriminate N].
        cbn [bind js_get]. rewrite ?Ey.
        eexists. split; [reflexivity |]. split; reflexivity.
Qed.

Lemma group_reads_back_its_update_witness :
  ConditionItem.render
    (group_object true AllOf
       [plain_object (Simple "location" OpEquals (VStr "westus"))])
  = Ok ConditionItem.ConditionGroup
  /\ exists g,
       ConditionItem.group
         (group_object true AllOf
            [plain_object (Simple "location" OpEquals (VStr "westus"))])
       = Ok g
       /\ ConditionItem.render (ConditionItem.onUpdate g [])
          = Ok ConditionItem.ConditionGroup
       /\ ConditionItem.group (ConditionItem.onUpdate g [])
          = Ok {| ConditionItem.gp_isNot := ConditionItem.gp_isNot g;
                  ConditionItem.gp_type := ConditionItem.gp_type g;
                  ConditionItem.gp_conditions := VArr [] |}.
Proof.
  split; [reflexivity |].
  apply (group_reads_back_its_update
           (group_object true AllOf
              [plain_object (Simple "location" OpEquals (VStr "westus"))])
           []).
  reflexivity.
Defined.

(** ** Leaves, counts and their where clauses *)

(** X9: changing the field of a leaf keeps its operator, its value and
    its negation. *)
Theorem field_change_keeps_operator_and_value
    (negated : bool) (f : string) (op : operator) (v : value) (f' : string) :
  exists st,
    useCondition.state (condition_object (with_negation negated (Simple f op v)))
    = Ok st
    /\ useCondition.handleFieldChange st f'
       = condition_object (with_negation negated (Simple f' op v)).
Proof.
  destruct negated, op; eexists; split; reflexivity.
Qed.

(** X10: changing the operator of a leaf to any of the available
    operators moves the value under the new operator and keeps the field
    and the negation. *)
Theorem operator_change_keeps_field_and_value
    (negated : bool) (f : string) (op op' : operator) (v : value) :
  exists st,
    useCondition.state (condition_object (with_negation negated (Simple f op v)))
    = Ok st
    /\ useCondition.handleOperatorChange st (operator_name op')
       = Ok (condition_object (with_negation negated (Simple f op' v))).
Proof.
  destruct negated, op; eexists; (split; [reflexivity |]);
    destruct op'; reflexivity.
Qed.

(** X11: changing the field of a count keeps its where clause, its
    operator, its threshold and its negation, and the new field is what
    the editor shows. *)
Theorem count_field_change_keeps_the_rest
    (negated : bool) (f : string) (w : value) (op : count_operator)
    (n : value) (f' : string) :
  useCountCondition.handleFieldChange
    (condition_object (with_negation negated (Count f w op n))) f'
  = Ok (condition_object (with_negation negated (Count f' w op n)))
  /\ getCountField (condition_object (with_negation negated (Count f' w op n)))
     = Ok (VStr f').
Proof. destruct negated, op; split; reflexivity. Qed.

(** X12: changing the operator of a count moves the threshold under the
    new operator and keeps the field, the where clause and the negation. *)
Theorem count_operator_change_keeps_the_rest
    (negated : bool) (f : string) (w : value) (op op' : count_operator)
    (n : value) :
  useCountCondition.handleOperatorChange
    (condition_object (with_negation negated (Count f w op n)))
    (count_operator_name op')
  = Ok (condition_object (with_negation negated (Count f w op' n)))
  /\ getCurrentValue (condition_object (with_negation negated (Count f w op' n)))
     = Ok n.
Proof. destruct negated, op, op'; split; reflexivity. Qed.

(** X29: typing into the threshold field of a count keeps its field,
    its where clause, its operator and its negation.  A text that
    [Number] reads as a number, the empty text left out, is stored as
    that number (so [Infinity] is stored as the infinite number, and a
    blank text as zero); any other text is stored as the string it is. *)
Theorem count_value_change_stores
    (negated : bool) (f : string) (w : value) (op : count_operator)
    (n : value) (text : string) :
  useCountCondition.handleValueChange
    (condition_object (with_negation negated (Count f w op n))) text
  = Ok (condition_object
          (with_negation negated
             (Count f w op
                (if isNaN (Number text) || String.eqb text "" then VStr text
                 else VNum (Number text))))).
Proof.
  unfold useCountCondition.handleValueChange.
  destruct negated, op; cbn -[Number];
    destruct (isNaN (Number text)), (String.eqb text ""); reflexivity.
Qed.

(** X13: new children for the where clause of a count replace the old
    ones and nothing else: the kind and negation of the clause, and the
    field, operator, threshold and negation of the count are kept, and
    the new children are what the hook reads back. *)
Theorem where_update_keeps_the_rest
    (negated : bool) (f : string) (wn : bool) (wk : kind)
    (wcs new : list value) (op : count_operator) (n : value) :
  useWhereCondition.handleWhereConditionsUpdate
    (counted negated f wn wk wcs op n) new
  = Ok (counted negated f wn wk new op n)
  /\ useWhereCondition.getWhereConditions (counted negated f wn wk new op n)
     = Ok (VArr new).
Proof. destruct negated, wn, wk, op; split; reflexivity. Qed.

(** X14: the two toggles of a where clause flip its kind, respectively
    its negation, and nothing else; each toggle applied twice returns the
    count condition it started from. *)
Theorem where_toggles_flip_and_return
    (negated : bool) (f : string) (wn : bool) (wk : kind)
    (wcs : list value) (op : count_operator) (n : value) :
  let c := counted negated f wn wk wcs op n in
  useWhereCondition.handleToggleWhereType c
  = Ok (counted negated f wn (flip_kind wk) wcs op n)
  /\ useWhereCondition.handleToggleWhereNot c
     = Ok (counted negated f (negb wn) wk wcs op n)
  /\ (c1 <- useWhereCondition.handleToggleWhereType c ;;
      useWhereCondition.handleToggleWhereType c1) = Ok c
  /\ (c1 <- useWhereCondition.handleToggleWhereNot c ;;
      useWhereCondition.handleToggleWhereNot c1) = Ok c.
Proof. destruct negated, wn, wk, op; repeat split; reflexivity. Qed.

(** ** The value field of a leaf *)

(** *** Compact JSON text is read back *)

Lemma serialize_compact_arr (l : list value) :
  serialize_compact (VArr l)
  = char "[" :: compact_elements true l ++ [char "]"].
Proof.
  reflexivity.
Qed.

Lemma serialize_compact_obj (o : props) :
  serialize_compact (VObj o)
  = char "{" :: compact_members true o ++ [char "}"].
Proof.
  reflexivity.
Qed.

Lemma compact_members_cons (first : bool) (k : string) (y : value)
    (o : props) :
  y <> VUndef ->
  compact_members first ((k, y) :: o)
  = (if first then [] else [comma])
    ++ quote k ++ [colon] ++ serialize_compact y ++ compact_members false o.
Proof. intros H. destruct y; [congruence | reflexivity ..]. Qed.

Lemma serialize_compact_head (x : value) :
  exists c t,
    serialize_compact x = c :: t
    /\ is_ws c = false /\ is_char c 93 = false /\ is_char c 125 = false.
Proof.
  destruct x as [| | [] | n | s | l | o].
  1-4, 6: do 2 eexists; split; [reflexivity | repeat split; reflexivity].
  - destruct (serialize_head [] (VNum n)) as (c & t & E & H).
    now exists c, t.
  - rewrite serialize_compact_arr. do 2 eexists.
    split; [reflexivity | repeat split; reflexivity].
  - rewrite serialize_compact_obj. do 2 eexists.
    split; [reflexivity | repeat split; reflexivity].
Qed.

Lemma skip_ws_compact (x : value) (tail : list code_unit) :
  exists c t,
    skip_ws (serialize_compact x ++ tail) = c :: t
    /\ is_char c 93 = false /\ is_char c 125 = false.
Proof.
  destruct (serialize_compact_head x) as (c & t & -> & Hws & H1 & H2).
  exists c, (t ++ tail). cbn [app skip_ws]. rewrite Hws. auto.
Qed.

Lemma serialize_compact_obj_cons (k : string) (y : value) (o : props)
    (rest : list code_unit) :
  y <> VUndef ->
  serialize_compact (VObj ((k, y) :: o)) ++ rest
  = char "{" :: quote k ++ colon :: serialize_compact y
      ++ compact_members false o ++ char "}" :: rest.
Proof.
  intros Hy. rewrite serialize_compact_obj, compact_members_cons by assumption.
  cbn [app]. f_equal. rewrite <- !app_assoc. f_equal. cbn [app].
  f_equal. now rewrite <- !app_assoc.
Qed.

Lemma parse_value_object_key (f : nat) (k : string) (tail : list code_unit) :
  parse_value (S f) (char "{" :: quote k ++ tail)
  = parse_members f (quote k ++ tail) [].
Proof. reflexivity. Qed.

Lemma parse_members_compact_key
    (f : nat) (k : string) (s : list code_unit) (acc : props) :
  parse_members (S f) (quote k ++ colon :: s) acc
  = match parse_value f s with
    | None => None
    | Some (x, r3) =>
        match skip_ws r3 with
        | c3 :: r4 =>
            if is_char c3 44 then parse_members f r4 (put k x acc)
            else if is_char c3 125 then Some (VObj (put k x acc), r4)
            else None
        | [] => None
        end
    end.
Proof.
  unfold quote. cbn [app]. rewrite <- app_assoc. cbn [app].
  change (parse_members (S f) (dquote :: ?r) acc)
    with (match parse_chars r with
          | None => None
          | Some (k', r1) =>
              match skip_ws r1 with
              | c1 :: r2 =>
                  if is_char c1 58 then
                    match parse_value f r2 with
                    | None => None
                    | Some (x, r3) =>
                        match skip_ws r3 with
                        | c3 :: r4 =>
                            if is_char c3 44
                            then parse_members f r4 (put k' x acc)
                            else if is_char c3 125
                            then Some (VObj (put k' x acc), r4)
                            else None
                        | [] => None
                        end
                    end
                  else None
              | [] => None
              end
          end).
  rewrite parse_chars_quoted.
  change (skip_ws (colon :: s)) with (colon :: s).
  change (is_char colon 58) with true. reflexivity.
Qed.

Lemma number_end_compact_elements (l : list value) (tail : list code_unit) :
  number_end (compact_elements false l ++ char "]" :: tail) = true.
Proof. destruct l; reflexivity. Qed.

Lemma number_end_compact_members (o : props) (tail : list code_unit) :
  Forall (fun kv => well_formed (snd kv)) o ->
  number_end (compact_members false o ++ char "}" :: tail) = true.
Proof.
  intros H. destruct o as [| [k y] o]; [reflexivity |].
  inversion H as [| ? ? Hy _]; subst. cbn [snd] in Hy.
  now rewrite compact_members_cons by now apply well_formed_defined.
Qed.

Section CompactRoundTrip.

Variable F : nat.
Hypothesis read_back :
  forall (f : nat) (x : value) (rest : list code_unit),
    (f <= F)%nat -> well_formed x -> (need x <= f)%nat ->
    number_end rest = true ->
    parse_value f (serialize_compact x ++ rest) = Some (x, rest).

Lemma parse_elements_compact (l : list value) :
  forall (y : value) (g : nat) (acc : list value) (rest : list code_unit),
    (g <= S F)%nat -> (needs (y :: l) <= g)%nat ->
    well_formed y -> Forall well_formed l ->
    parse_elements g
      (serialize_compact y ++ compact_elements false l ++ char "]" :: rest) acc
    = Some (VArr (rev acc ++ y :: l), rest).
Proof.
  induction l as [| y2 l IH]; intros y g acc rest Hg Hn Hy Hl;
    (destruct g as [| g]; [cbn [needs] in Hn; lia |]);
    cbn [needs] in Hn; cbn [parse_elements];
    rewrite read_back;
      try lia; try assumption; try apply number_end_compact_elements.
  - reflexivity.
  - cbn [compact_elements]. rewrite <- !app_assoc.
    change (skip_ws ([comma] ++ ?t)) with (comma :: t).
    change (is_char comma 44) with true. cbn iota.
    inversion Hl as [| ? ? Hy2 Hl']; subst.
    rewrite IH; [| lia | cbn [needs]; lia | assumption | assumption].
    cbn [rev]. now rewrite <- app_assoc.
Qed.

Lemma parse_members_compact (o : props) :
  forall (k : string) (y : value) (g : nat) (acc : props) (rest : list code_unit),
    (g <= S F)%nat -> (needs_members ((k, y) :: o) <= g)%nat ->
    well_formed y -> Forall (fun kv => well_formed (snd kv)) o ->
    parse_members g
      (quote k ++ colon :: serialize_compact y
         ++ compact_members false o ++ char "}" :: rest) acc
    = Some (VObj (obj_lit_onto acc ((k, y) :: o)), rest).
Proof.
  induction o as [| [k2 y2] o IH]; intros k y g acc rest Hg Hn Hy Ho;
    (destruct g as [| g]; [cbn [needs_members] in Hn; lia |]);
    cbn [needs_members] in Hn;
    rewrite parse_members_compact_key;
    rewrite read_back;
      try lia; try assumption; try (now apply number_end_compact_members).
  - reflexivity.
  - inversion Ho as [| ? ? Hy2 Ho']; subst. cbn [snd] in Hy2.
    rewrite compact_members_cons by now apply well_formed_defined.
    rewrite <- !app_assoc.
    change (skip_ws ([comma] ++ ?t)) with (comma :: t).
    change (is_char comma 44) with true. cbn iota.
    pose proof (IH k2 y2 g (put k y acc) rest) as E.
    cbn [app] in E |- *.
    rewrite E;
      [| lia | cbn [needs_members]; lia | assumption | assumption].
    reflexivity.
Qed.

Lemma parse_value_compact_written (x : value) (rest : list code_unit) :
  well_formed x -> (need x <= S F)%nat -> number_end rest = true ->
  parse_value (S F) (serialize_compact x ++ rest) = Some (x, rest).
Proof.
  intros Hx Hn Hrest.
  destruct x as [| | [] | n | s | l | o].
  - destruct Hx.
  - reflexivity.
  - reflexivity.
  - reflexivity.
  - destruct Hx as [Hd Hj]. cbn [serialize_compact].
    assert (Hf : is_finite n = true) by now destruct n as [| | [] |].
    rewrite Hf, parse_value_numeral by assumption.
    now apply parse_number_text.
  - cbn [serialize_compact]. apply parse_value_string.
  - rewrite serialize_compact_arr. apply well_formed_arr in Hx.
    rewrite need_arr in Hn.
    destruct l as [| y l]; [reflexivity |].
    inversion Hx as [| ? ? Hy Hl]; subst.
    cbn [compact_elements app]. rewrite <- !app_assoc. cbn [app].
    rewrite parse_value_array.
    destruct (skip_ws_compact y
                (compact_elements false l ++ char "]" :: rest))
      as (c & t & E & H93 & _).
    rewrite E, H93.
    apply (parse_elements_compact l y F [] rest); try lia; assumption.
  - apply well_formed_obj in Hx as [Ho Hx]. rewrite need_obj in Hn.
    destruct o as [| [k y] o]; [reflexivity |].
    inversion Hx as [| ? ? Hy Hl]; subst. cbn [snd] in Hy.
    rewrite serialize_compact_obj_cons by now apply well_formed_defined.
    rewrite parse_value_object_key. rewrite <- Ho at 1.
    apply (parse_members_compact o k y F [] rest); try lia; assumption.
Qed.

End CompactRoundTrip.

Lemma parse_value_serialize_compact (f : nat) :
  forall (g : nat) (x : value) (rest : list code_unit),
    (g <= f)%nat -> well_formed x -> (need x <= g)%nat ->
    number_end rest = true ->
    parse_value g (serialize_compact x ++ rest) = Some (x, rest).
Proof.
  induction f as [| f IH]; intros g x rest Hg Hx Hn Hrest.
  - pose proof (need_positive x). lia.
  - destruct (Nat.eq_dec g (S f)) as [-> | Hne].
    + now apply parse_value_compact_written.
    + apply IH; try assumption. lia.
Qed.

Lemma need_le_compact_length (x : value) :
  well_formed x -> (need x <= List.length (serialize_compact x))%nat.
Proof.
  induction x as [| | b | n | s | l IH | o IH] using value_nested_ind;
    intros Hx.
  - destruct Hx.
  - cbn. lia.
  - destruct b; cbn; lia.
  - pose proof (need_le_length (VNum n) Hx []) as H. exact H.
  - cbn [need serialize_compact]. unfold quote. cbn [List.length]. lia.
  - rewrite need_arr, serialize_compact_arr. cbn [List.length].
    rewrite length_app. apply well_formed_arr in Hx.
    enough (H : forall first,
               (needs l <= List.length (compact_elements first l) + (if first then 1 else 0))%nat)
      by (specialize (H true); cbv iota in H; cbn [List.length]; lia).
    induction l as [| y l IHl]; intros first; [cbn; lia |].
    inversion IH as [| ? ? Py Pl]; inversion Hx as [| ? ? Hy Hl]; subst.
    cbn [needs compact_elements]. rewrite !length_app.
    specialize (Py Hy). specialize (IHl Pl Hl false). cbv iota in IHl.
    destruct first; cbn [List.length app]; lia.
  - rewrite need_obj, serialize_compact_obj. cbn [List.length].
    rewrite length_app. apply well_formed_obj in Hx as [_ Hx].
    enough (H : forall first,
               (needs_members o <= List.length (compact_members first o) + (if first then 1 else 0))%nat)
      by (specialize (H true); cbv iota in H; cbn [List.length]; lia).
    induction o as [| [k y] o IHo]; intros first; [cbn; lia |].
    inversion IH as [| ? ? Py Po]; inversion Hx as [| ? ? Hy Ho]; subst.
    cbn [snd] in Py, Hy.
    rewrite compact_members_cons by now apply well_formed_defined.
    cbn [needs_members]. rewrite !length_app.
    specialize (Py Hy). specialize (IHo Po Ho false). cbv iota in IHo.
    destruct first; cbn [List.length app]; lia.
Qed.

Lemma JSON_parse_stringify_compact (x : value) :
  well_formed x ->
  exists text, JSON.stringify_compact x = Some text /\ JSON.parse text = Some x.
Proof.
  intros Hx. exists (of_units (serialize_compact x)). split.
  - destruct x; [destruct Hx | reflexivity ..].
  - unfold JSON.parse, chars. rewrite units_of_units.
    rewrite <- (List.app_nil_r (serialize_compact x)) at 2.
    rewrite (parse_value_serialize_compact
               (S (List.length (serialize_compact x))));
      try reflexivity; try assumption.
    pose proof (need_le_compact_length x Hx). lia.
Qed.



(** ** The policy document *)

Lemma with_property_own (o po : props) (k : string) (x : value) :
  own_get "properties" o = Some (VObj po) ->
  with_property (VObj o) k x
  = Ok (VObj (put "properties" (VObj (put k x po)) o)).
Proof.
  intros Ho. unfold with_property. rewrite (js_get_own _ _ _ Ho).
  reflexivity.
Qed.

Lemma policy_shape_properties
    (o po' pa ro : props) (negated : bool) (k : kind) (cs : list value) :
  own_get "parameters" po' = Some (VObj pa) ->
  own_get "policyRule" po' = Some (VObj ro) ->
  own_get "if" ro = Some (group_object negated k cs) ->
  policy_shape (VObj (put "properties" (VObj po') o)).
Proof.
  intros Hpa Hro Hif.
  exists (put "properties" (VObj po') o), po', pa, ro, negated, k, cs.
  repeat split; try assumption. apply own_get_put_same.
Qed.

(** Every handler but the JSON pane's succeeds on a document of the
    shape and hands on a document of the shape. *)
Lemma apply_edit_keeps_shape (st : editor_state) (e : edit) :
  policy_shape (policy st) -> is_editor_change e = false ->
  exists st', apply_edit st e = Ok st' /\ policy_shape (policy st').
Proof.
  intros (o & po & pa & ro & negated & k & cs & Hp & Ho & Hpa & Hro & Hif) He.
  destruct st as [p sel]. cbn [policy] in Hp. subst p.
  assert (Hprop : forall key x,
             key <> "parameters" -> key <> "policyRule" ->
             exists st',
               (p <- with_property (VObj o) key x ;;
                Ok (set_policy {| policy := VObj o; selectedEffect := sel |} p))
               = Ok st'
               /\ policy_shape (policy st')).
  { intros key x H1 H2. rewrite (with_property_own _ _ _ _ Ho). cbn [bind].
    eexists. split; [reflexivity |]. cbn [policy set_policy].
    apply (policy_shape_properties _ _ pa ro negated k cs);
      try assumption; now rewrite own_get_put_other. }
  assert (Hview : policy_if (VObj o) = Ok (group_object negated k cs)).
  { apply (root_shape_policy_if _ o po ro). now repeat split. }
  destruct (root_view _ _ _ _ Hview) as (Hnot & Htype & Hcs).
  assert (Hroot : forall negated' k' cs',
             exists st',
               (p <- set_if (VObj o) (group_object negated' k' cs') ;;
                Ok (set_policy {| policy := VObj o; selectedEffect := sel |} p))
               = Ok st'
               /\ policy_shape (policy st')).
  { intros negated' k' cs'.
    destruct (set_if_shape (VObj o) o po ro (group_object negated k cs)
                (group_object negated' k' cs')) as (Hset & _);
      [now repeat split |].
    rewrite Hset. cbn [bind]. eexists. split; [reflexivity |].
    cbn [policy set_policy]. unfold with_if.
    eapply (policy_shape_properties _ _ pa _ negated' k' cs').
    - now rewrite own_get_put_other.
    - apply own_get_put_same.
    - apply own_get_put_same. }
  destruct e as [v | v | v | v | v | v | new | | | d | n x | n];
    cbn [apply_edit]; try discriminate He.
  - apply Hprop; discriminate.
  - apply Hprop; discriminate.
  - unfold handleCategoryChange. cbn [policy].
    rewrite (js_get_own _ _ _ Ho). cbn [bind].
    cbn [js_get bind]. apply Hprop; discriminate.
  - apply Hprop; discriminate.
  - unfold handleEffectChange. cbn [policy].
    rewrite (js_get_own _ _ _ Ho). cbn [bind].
    rewrite (js_get_own _ _ _ Hpa). cbn [bind].
    rewrite (js_get_own _ _ _ Hro). cbn [js_get bind].
    eexists. split; [reflexivity |]. cbn [policy]. lit.
    eapply (policy_shape_properties _ _ _ _ negated k cs).
    + rewrite own_get_put_other by discriminate. apply own_get_put_same.
    + apply own_get_put_same.
    + now rewrite own_get_put_other.
  - unfold handleUpdateConditions. cbn [policy]. rewrite Htype, Hnot.
    cbn [bind].
    replace (if negated then obj [("not", obj [(kind_key k, VArr new)])]
             else obj [(kind_key k, VArr new)])
      with (group_object negated k new) by now destruct negated, k.
    apply Hroot.
  - unfold usePolicyEditorState.handleToggleGroupType. cbn [policy].
    rewrite Htype, Hcs, Hnot. cbn [bind].
    replace (if negated
             then obj [("not",
                        obj [(if String.eqb (kind_key k) "allOf"
                              then "anyOf" else "allOf", VArr cs)])]
             else obj [(if String.eqb (kind_key k) "allOf"
                        then "anyOf" else "allOf", VArr cs)])
      with (group_object negated (flip_kind k) cs) by now destruct negated, k.
    apply Hroot.
  - unfold handleToggleNot. cbn [policy]. rewrite Htype, Hcs, Hnot.
    cbn [bind].
    replace (if negated then obj [(kind_key k, VArr cs)]
             else obj [("not", obj [(kind_key k, VArr cs)])])
      with (group_object (negb negated) k cs) by now destruct negated, k.
    apply Hroot.
  - unfold handleUpdateDetails. cbn [policy].
    rewrite (js_get_own _ _ _ Ho). cbn [bind].
    rewrite (js_get_own _ _ _ Hro). cbn [bind].
    rewrite (with_property_own _ _ _ _ Ho). cbn [bind].
    eexists. split; [reflexivity |]. cbn [policy set_policy]. lit.
    eapply (policy_shape_properties _ _ pa _ negated k cs).
    + now rewrite own_get_put_other.
    + apply own_get_put_same.
    + now rewrite own_get_put_other.
  - unfold handleUpdateParameter. cbn [policy].
    rewrite (js_get_own _ _ _ Ho). cbn [bind].
    rewrite (js_get_own _ _ _ Hpa). cbn [bind].
    rewrite (with_property_own _ _ _ _ Ho). cbn [bind].
    eexists. split; [reflexivity |]. cbn [policy set_policy]. lit.
    eapply (policy_shape_properties _ _ _ ro negated k cs).
    + apply own_get_put_same.
    + now rewrite own_get_put_other.
    + assumption.
  - unfold handleRemoveParameter. destruct (String.eqb n "effect").
    + eexists. split; [reflexivity |].
      exists o, po, pa, ro, negated, k, cs. now repeat split.
    + cbn [policy]. rewrite (js_get_own _ _ _ Ho). cbn [bind].
      rewrite (js_get_own _ _ _ Hpa). cbn [bind].
      rewrite (with_property_own _ _ _ _ Ho). cbn [bind].
      eexists. split; [reflexivity |]. cbn [policy set_policy own_props].
      eapply (policy_shape_properties _ _ _ ro negated k cs).
      * apply own_get_put_same.
      * now rewrite own_get_put_other.
      * assumption.
Qed.

Lemma form_reachable_shape (st : editor_state) :
  form_reachable st -> policy_shape (policy st).
Proof.
  induction 1 as [| st e st' _ IH He Hstep].
  - exists (own_props initialPolicyTemplate). cbn. do 3 eexists.
    exists false, AllOf, []. repeat split; reflexivity.
  - destruct (apply_edit_keeps_shape st e IH) as (st'' & Hstep' & Hshape).
    + now destruct e.
    + congruence.
Qed.


Lemma form_reachable_one_leaf_state : form_reachable one_leaf_state.
Proof.
  apply (form_step initial_state
           (UpdateConditions
              [plain_object (Simple "location" OpEquals (VStr "westus"))])
           one_leaf_state form_init eq_refl).
  reflexivity.
Qed.





Lemma changes_only_with_property
    (o po : props) (sel : string) (k : string) (x : value) :
  own_get "properties" o = Some (VObj po) ->
  exists st',
    (p <- with_property (VObj o) k x ;;
     Ok (set_policy {| policy := VObj o; selectedEffect := sel |} p)) = Ok st'
    /\ changes_only k x {| policy := VObj o; selectedEffect := sel |} st'.
Proof.
  intros Ho. rewrite (with_property_own _ _ _ _ Ho). cbn [bind].
  eexists. split; [reflexivity |].
  exists o, po, (put "properties" (VObj (put k x po)) o), (put k x po).
  cbn [policy set_policy selectedEffect].
  repeat split; try assumption.
  - apply own_get_put_same.
  - apply own_get_put_same.
  - intros k' Hk. now rewrite own_get_put_other by congruence.
  - intros k' Hk. now rewrite own_get_put_other by congruence.
Qed.

(** X18: on a document with a [properties] object, the display name,
    description, mode and category handlers succeed and change one
    property of [properties] only ([displayName], [description], [mode],
    and [metadata], whose [category] is set): every other property of
    [properties], every other property of the document and the selected
    effect are as before. *)
Theorem basic_information_changes_one_property
    (st : editor_state) (o po : props) (v : string) :
  policy st = VObj o -> own_get "properties" o = Some (VObj po) ->
  (exists st', handleDisplayNameChange st v = Ok st'
               /\ changes_only "displayName" (VStr v) st st')
  /\ (exists st', handleDescriptionChange st v = Ok st'
                  /\ changes_only "description" (VStr v) st st')
  /\ (exists st', handleModeChange st v = Ok st'
                  /\ changes_only "mode" (VStr v) st st')
  /\ (exists st' metadata,
         js_get (VObj po) "metadata" = Ok metadata
         /\ handleCategoryChange st v = Ok st'
         /\ changes_only "metadata"
              (spread_lit metadata [("category", VStr v)]) st st').
Proof.
  intros Hp Ho. destruct st as [p sel]. cbn [policy] in Hp. subst p.
  split; [exact (changes_only_with_property o po sel _ _ Ho) |].
  split; [exact (changes_only_with_property o po sel _ _ Ho) |].
  split; [exact (changes_only_with_property o po sel _ _ Ho) |].
  unfold handleCategoryChange. cbn [policy].
  rewrite (js_get_own _ _ _ Ho). cbn [bind].
  destruct (js_get (VObj po) "metadata") as [metadata |] eqn:E;
    [| discriminate E].
  cbn [bind].
  destruct (changes_only_with_property o po sel "metadata"
              (spread_lit metadata [("category", VStr v)]) Ho)
    as (st' & H1 & H2).
  now exists st', metadata.
Qed.


Lemma basic_information_changes_one_property_witness :
  exists po,
    policy initial_state = VObj (own_props initialPolicyTemplate)
    /\ own_get "properties" (own_props initialPolicyTemplate)
       = Some (VObj po)
    /\ exists st',
         handleDisplayNameChange initial_state "Allowed locations" = Ok st'
         /\ changes_only "displayName" (VStr "Allowed locations")
              initial_state st'.
Proof.
  eexists. split; [reflexivity |]. split; [reflexivity |].
  refine (proj1 (basic_information_changes_one_property initial_state
                   (own_props initialPolicyTemplate) _ "Allowed locations"
                   eq_refl eq_refl)).
Defined.

Lemma changes_rule_only_put
    (o po ro : props) (sel : string) (k : string) (x : value) :
  own_get "properties" o = Some (VObj po) ->
  own_get "policyRule" po = Some (VObj ro) ->
  changes_rule_only k x
    {| policy := VObj o; selectedEffect := sel |}
    {| policy :=
         VObj (put "properties"
                 (VObj (put "policyRule" (VObj (put k x ro)) po)) o);
       selectedEffect := sel |}.
Proof.
  intros Ho Hro. exists po, ro, (put k x ro). cbn [policy].
  split; [now apply js_get_own |]. split; [assumption |].
  split; [| split].
  - exists o, po,
      (put "properties" (VObj (put "policyRule" (VObj (put k x ro)) po)) o),
      (put "policyRule" (VObj (put k x ro)) po).
    cbn [policy selectedEffect]. repeat split; try assumption.
    + apply own_get_put_same.
    + apply own_get_put_same.
    + intros k' Hk. now rewrite own_get_put_other by congruence.
    + intros k' Hk. now rewrite own_get_put_other by congruence.
  - apply own_get_put_same.
  - intros k' Hk. now rewrite own_get_put_other by congruence.
Qed.

(** X19: on a document whose [properties] and [policyRule] are objects
    and whose [if] is a group, the three root handlers (new children,
    which Clear all calls with none; the kind toggle; the NOT toggle)
    succeed and change the [if] of the rule only, and the details
    handler changes its [then] only: every other property of the rule,
    of [properties] and of the document, and the selected effect, are as
    before. *)
Theorem rule_edits_change_one_property
    (st : editor_state) (o po ro : props) (negated : bool) (k : kind)
    (cs new : list value) (details : value) :
  policy st = VObj o ->
  own_get "properties" o = Some (VObj po) ->
  own_get "policyRule" po = Some (VObj ro) ->
  own_get "if" ro = Some (group_object negated k cs) ->
  (exists st',
      handleUpdateConditions st new = Ok st'
      /\ changes_rule_only "if" (group_object negated k new) st st')
  /\ (exists st',
         usePolicyEditorState.handleToggleGroupType st = Ok st'
         /\ changes_rule_only "if" (group_object negated (flip_kind k) cs)
              st st')
  /\ (exists st',
         handleToggleNot st = Ok st'
         /\ changes_rule_only "if" (group_object (negb negated) k cs) st st')
  /\ (exists st',
         handleUpdateDetails st details = Ok st'
         /\ changes_rule_only "then"
              (obj [("effect", VStr "[parameters('effect')]");
                    ("details", details)])
              st st').
Proof.
  intros Hp Ho Hro Hif. destruct st as [p sel]. cbn [policy] in Hp. subst p.
  assert (Hshape : root_shape (VObj o) o po ro (group_object negated k cs))
    by now repeat split.
  pose proof (root_shape_policy_if _ _ _ _ _ Hshape) as Hview.
  destruct (root_view _ _ _ _ Hview) as (Hnot & Htype & Hcs).
  assert (Hroot : forall g,
             exists st',
               (p <- set_if (VObj o) g ;;
                Ok (set_policy {| policy := VObj o; selectedEffect := sel |} p))
               = Ok st'
               /\ changes_rule_only "if" g
                    {| policy := VObj o; selectedEffect := sel |} st').
  { intros g. destruct (set_if_shape _ _ _ _ _ g Hshape) as (Hset & _).
    rewrite Hset. cbn [bind]. eexists. split; [reflexivity |].
    now apply changes_rule_only_put. }
  split; [| split; [| split]].
  - unfold handleUpdateConditions. cbn [policy]. rewrite Htype, Hnot.
    cbn [bind].
    replace (if negated then obj [("not", obj [(kind_key k, VArr new)])]
             else obj [(kind_key k, VArr new)])
      with (group_object negated k new) by now destruct negated, k.
    apply Hroot.
  - unfold usePolicyEditorState.handleToggleGroupType. cbn [policy].
    rewrite Htype, Hcs, Hnot. cbn [bind].
    replace (if negated
             then obj [("not",
                        obj [(if String.eqb (kind_key k) "allOf"
                              then "anyOf" else "allOf", VArr cs)])]
             else obj [(if String.eqb (kind_key k) "allOf"
                        then "anyOf" else "allOf", VArr cs)])
      with (group_object negated (flip_kind k) cs) by now destruct negated, k.
    apply Hroot.
  - unfold handleToggleNot. cbn [policy]. rewrite Htype, Hcs, Hnot.
    cbn [bind].
    replace (if negated then obj [(kind_key k, VArr cs)]
             else obj [("not", obj [(kind_key k, VArr cs)])])
      with (group_object (negb negated) k cs) by now destruct negated, k.
    apply Hroot.
  - unfold handleUpdateDetails. cbn [policy].
    rewrite (js_get_own _ _ _ Ho). cbn [bind].
    rewrite (js_get_own _ _ _ Hro). cbn [bind].
    rewrite (with_property_own _ _ _ _ Ho). cbn [bind].
    eexists. split; [reflexivity |].
    now apply changes_rule_only_put.
Qed.

Lemma rule_edits_change_one_property_witness :
  exists st',
    handleUpdateConditions one_leaf_state [] = Ok st'
    /\ changes_rule_only "if" (group_object false AllOf []) one_leaf_state st'.
Proof.
  refine (proj1 (rule_edits_change_one_property one_leaf_state
                   (own_props (policy one_leaf_state)) _ _ false AllOf
                   [plain_object (Simple "location" OpEquals (VStr "westus"))]
                   [] VNull eq_refl eq_refl eq_refl eq_refl)).
Defined.

(** X20: on a document whose [properties], [parameters] and [policyRule]
    are objects, changing the effect succeeds, keeps the [if] of the rule
    and rebuilds [then] from the chosen effect alone: the details the
    rule had are dropped, and under [modify] they are the template's (no
    role, one empty [add] operation). *)
Theorem effect_change_rebuilds_then
    (st : editor_state) (o po pa ro : props) (val : string) :
  policy st = VObj o ->
  own_get "properties" o = Some (VObj po) ->
  own_get "parameters" po = Some (VObj pa) ->
  own_get "policyRule" po = Some (VObj ro) ->
  exists st',
    handleEffectChange st val = Ok st'
    /\ policy_if (policy st') = policy_if (policy st)
    /\ policy_then (policy st')
       = Ok (if String.eqb (toLowerCase val) "modify"
             then obj [("effect", VStr "[parameters('effect')]");
                       ("details", obj [
                          ("roleDefinitionIds", VArr []);
                          ("operations",
                           VArr [obj [("operation", VStr "add");
                                      ("field", VStr "");
                                      ("value", VStr "")]])])]
             else obj [("effect", VStr "[parameters('effect')]")]).
Proof.
  intros Hp Ho Hpa Hro. destruct st as [p sel]. cbn [policy] in Hp. subst p.
  unfold handleEffectChange. cbn [policy].
  rewrite (js_get_own _ _ _ Ho). cbn [bind].
  rewrite (js_get_own _ _ _ Hpa). cbn [bind].
  rewrite (js_get_own _ _ _ Hro). cbn [js_get bind].
  eexists. split; [reflexivity |]. cbn [policy]. lit.
  unfold policy_if, policy_then.
  rewrite (js_get_own _ "properties" _ (own_get_put_same _ _ _)).
  rewrite (js_get_own _ _ _ Ho). cbn [bind].
  rewrite (js_get_own _ "policyRule" _ (own_get_put_same _ _ _)).
  rewrite (js_get_own _ _ _ Hro). cbn [bind]. split.
  - cbn [js_get]. now rewrite own_get_put_other.
  - apply js_get_own, own_get_put_same.
Qed.

Lemma effect_change_rebuilds_then_witness :
  exists st',
    handleEffectChange modify_state "audit" = Ok st'
    /\ policy_if (policy st') = policy_if (policy modify_state)
    /\ policy_then (policy st')
       = Ok (obj [("effect", VStr "[parameters('effect')]")]).
Proof.
  eapply (effect_change_rebuilds_then modify_state _ _ _ _ "audit");
    reflexivity.
Defined.

Lemma remove_prop_insert_prop (k : string) (v : value) (o : props) :
  own_get k o = None -> remove_prop k (insert_prop k v o) = o.
Proof.
  induction o as [| [k' v'] r IH]; cbn [own_get insert_prop remove_prop].
  - now rewrite string_eqb_refl.
  - destruct (String.eqb k k') eqn:E; [discriminate |]. intros H.
    destruct (key_before k k'); cbn [remove_prop].
    + now rewrite string_eqb_refl.
    + rewrite E. now rewrite IH.
Qed.

Lemma remove_prop_absent (k : string) (o : props) :
  own_get k o = None -> remove_prop k o = o.
Proof.
  induction o as [| [k' v'] r IH]; cbn [own_get remove_prop];
    [reflexivity |].
  destruct (String.eqb k k'); [discriminate |]. intros H. now rewrite IH.
Qed.

(** X21: defining a parameter under a name that is not in use (and is
    not [effect]) stores it under that name, and removing it again gives
    back the state from before. *)
Theorem add_then_remove_parameter_restores
    (st : editor_state) (o po pa : props) (name : string) (parameter : value) :
  policy st = VObj o ->
  own_get "properties" o = Some (VObj po) ->
  own_get "parameters" po = Some (VObj pa) ->
  own_get name pa = None -> name <> "effect" ->
  exists st1 parameters,
    handleUpdateParameter st name parameter = Ok st1
    /\ policy_parameters (policy st1) = Ok parameters
    /\ js_get parameters name = Ok parameter
    /\ handleRemoveParameter st1 name = Ok st.
Proof.
  intros Hp Ho Hpa Hname Hne. destruct st as [p sel]. cbn [policy] in Hp.
  subst p. unfold handleUpdateParameter. cbn [policy].
  rewrite (js_get_own _ _ _ Ho). cbn [bind].
  rewrite (js_get_own _ _ _ Hpa). cbn [bind].
  rewrite (with_property_own _ _ _ _ Ho). cbn [bind]. lit.
  eexists. exists (VObj (put name parameter pa)).
  split; [reflexivity |]. cbn [policy set_policy].
  assert (Ho' : own_get "properties"
                  (put "properties"
                     (VObj (put "parameters" (VObj (put name parameter pa)) po))
                     o)
                = Some (VObj (put "parameters"
                                (VObj (put name parameter pa)) po)))
    by apply own_get_put_same.
  split; [| split].
  - unfold policy_parameters. rewrite (js_get_own _ _ _ Ho'). cbn [bind].
    apply js_get_own, own_get_put_same.
  - apply js_get_own, own_get_put_same.
  - unfold handleRemoveParameter.
    apply string_eqb_neq in Hne. rewrite Hne.
    unfold set_policy. cbn [policy selectedEffect].
    rewrite (js_get_own _ _ _ Ho'). cbn [bind].
    rewrite (js_get_own _ "parameters" _ (own_get_put_same _ _ _)).
    cbn [bind]. rewrite (with_property_own _ _ _ _ Ho'). cbn [bind].
    cbn [own_props]. do 3 f_equal.
    rewrite !put_put_same.
    unfold put at 3. unfold has_own. rewrite Hname.
    rewrite (remove_prop_insert_prop _ _ _ Hname).
    rewrite (put_own _ _ _ Hpa). now rewrite (put_own _ _ _ Ho).
Qed.

Lemma add_then_remove_parameter_restores_witness :
  exists st1 parameters,
    handleUpdateParameter initial_state "location" (obj [("type", VStr "string")])
    = Ok st1
    /\ policy_parameters (policy st1) = Ok parameters
    /\ js_get parameters "location" = Ok (obj [("type", VStr "string")])
    /\ handleRemoveParameter st1 "location" = Ok initial_state.
Proof.
  eapply (add_then_remove_parameter_restores initial_state _ _ _ "location");
    try reflexivity.
  discriminate.
Defined.

(** X22: when the document is [null] (which the JSON pane accepts),
    every handler other than the JSON pane's throws a TypeError, but for
    the removal of the parameter [effect], which is refused before the
    document is read. *)
Theorem null_document_stops_every_handler (st : editor_state) (e : edit) :
  policy st = VNull -> is_editor_change e = false ->
  e <> RemoveParameter "effect" ->
  apply_edit st e = TypeError.
Proof.
  intros Hp He Hne. destruct st as [p sel]. cbn [policy] in Hp. subst p.
  destruct e as [v | v | v | v | v | v | new | | | d | n x | n];
    try discriminate He; try reflexivity.
  cbn [apply_edit]. unfold handleRemoveParameter.
  destruct (string_eqb_spec n "effect") as [-> | _]; [now destruct Hne |].
  reflexivity.
Qed.

Lemma null_document_stops_every_handler_witness :
  policy (handleEditorChange initial_state (Some "null")) = VNull
  /\ apply_edit (handleEditorChange initial_state (Some "null"))
       (DisplayNameChange "Allowed locations")
     = TypeError.
Proof.
  split; [reflexivity |].
  apply (null_document_stops_every_handler
           (handleEditorChange initial_state (Some "null"))
           (DisplayNameChange "Allowed locations"));
    [reflexivity | reflexivity | discriminate].
Defined.

(** ** The details of a modify rule *)

Lemma map_from_other (f : value -> Z -> value) (idx i : Z) (l : list value) :
  idx < i \/ i + Z.of_nat (List.length l) <= idx ->
  map_from (fun x j => if j =? idx then f x j else x) i l = l.
Proof.
  revert i. induction l as [| x r IH]; intros i H; cbn [map_from];
    [reflexivity |].
  cbn [List.length] in H.
  destruct (Z.eqb_spec i idx) as [-> | _]; [lia |].
  rewrite IH; [reflexivity | lia].
Qed.

Lemma map_from_middle
    (f : value -> Z -> value) (before after : list value) (x : value) (i : Z) :
  map_from (fun y j => if j =? i + Z.of_nat (List.length before)
                       then f y j else y) i
    (before ++ x :: after)
  = before ++ f x (i + Z.of_nat (List.length before)) :: after.
Proof.
  revert i. induction before as [| b before IH]; intros i;
    cbn [app map_from List.length].
  - replace (i + Z.of_nat 0) with i by lia. rewrite Z.eqb_refl.
    f_equal. apply map_from_other. lia.
  - destruct (Z.eqb_spec i (i + Z.of_nat (S (List.length before)))) as [E | _];
      [lia |].
    f_equal.
    replace (i + Z.of_nat (S (List.length before)))
      with (i + 1 + Z.of_nat (List.length before)) by lia.
    apply IH.
Qed.

Lemma own_get_remove_prop_same (k : string) (o : props) :
  NoDup (map fst o) -> own_get k (remove_prop k o) = None.
Proof.
  induction o as [| [k' v] r IH]; cbn [map fst remove_prop own_get];
    [reflexivity |].
  intros H. inversion H as [| ? ? Hk Hr]; subst.
  destruct (string_eqb_spec k k') as [-> | Hne].
  - now apply own_get_absent.
  - cbn [own_get]. destruct (string_eqb_spec k k'); [contradiction | auto].
Qed.

Lemma trim_start_blank (s : list code_unit) :
  trim_start s = [] <-> forallb is_trim_space s = true.
Proof.
  induction s as [| c r IH]; cbn [trim_start forallb]; [easy |].
  destruct (is_trim_space c); cbn [andb]; [exact IH | easy].
Qed.

Lemma trim_start_last (s : list code_unit) (c : code_unit) :
  is_trim_space c = false -> trim_start (s ++ [c]) <> [].
Proof.
  intros Hc. induction s as [| d r IH]; cbn [app trim_start].
  - now rewrite Hc.
  - destruct (is_trim_space d); [exact IH | discriminate].
Qed.

Lemma trim_blank (s : string) :
  String.eqb (trim s) ""
  = forallb is_trim_space (units s).
Proof.
  unfold trim.
  destruct (forallb is_trim_space (units s)) eqn:E.
  - apply trim_start_blank in E. now rewrite E.
  - destruct (trim_start (units s)) as [| c r] eqn:Es.
    + apply trim_start_blank in Es. congruence.
    + assert (Hc : is_trim_space c = false).
      { revert Es. clear E.
        induction (units s) as [| d t IH]; cbn [trim_start];
          [discriminate |].
        destruct (is_trim_space d) eqn:Ed; [exact IH |].
        now intros [= -> _]. }
      cbn [rev]. pose proof (trim_start_last (rev r) c Hc) as Hne.
      destruct (trim_start (rev r ++ [c])) as [| d t]; [congruence |].
      cbn [rev]. destruct (rev t) as [| e u]; reflexivity.
Qed.

Lemma own_get_none_not_in (k : string) (o : props) :
  own_get k o = None -> ~ In k (map fst o).
Proof.
  induction o as [| [k' v] r IH]; cbn [own_get map fst In]; [tauto |].
  destruct (string_eqb_spec k k') as [-> | Hne]; [discriminate |].
  intros H [E | Hin]; [congruence | now apply IH].
Qed.

Lemma keys_replace_prop (k : string) (v : value) (o : props) :
  map fst (replace_prop k v o) = map fst o.
Proof.
  induction o as [| [k' v'] r IH]; cbn [replace_prop map fst]; [reflexivity |].
  destruct (String.eqb k k'); cbn [map fst]; [reflexivity | now rewrite IH].
Qed.

Lemma keys_insert_prop (k k0 : string) (v : value) (o : props) :
  In k0 (map fst (insert_prop k v o)) <-> k0 = k \/ In k0 (map fst o).
Proof.
  induction o as [| [k' v'] r IH]; cbn [insert_prop map fst In].
  - intuition.
  - destruct (key_before k k'); cbn [map fst In]; [intuition |].
    rewrite IH. intuition.
Qed.

Lemma NoDup_insert_prop (k : string) (v : value) (o : props) :
  own_get k o = None -> NoDup (map fst o) ->
  NoDup (map fst (insert_prop k v o)).
Proof.
  induction o as [| [k' v'] r IH]; cbn [insert_prop own_get map fst].
  - intros _ _. repeat constructor. intros [].
  - destruct (string_eqb_spec k k') as [-> | Hne]; [discriminate |].
    intros Hk Hnd. inversion Hnd as [| ? ? Hk' Hr]; subst.
    destruct (key_before k k'); cbn [map fst].
    + constructor; [| exact Hnd].
      intros [E | Hin]; [congruence |].
      now apply (own_get_none_not_in k r).
    + constructor; [| now apply IH].
      rewrite keys_insert_prop. intros [E | Hin]; [congruence | tauto].
Qed.

Lemma NoDup_put (k : string) (v : value) (o : props) :
  NoDup (map fst o) -> NoDup (map fst (put k v o)).
Proof.
  intros H. unfold put, has_own. destruct (own_get k o) eqn:E.
  - now rewrite keys_replace_prop.
  - now apply NoDup_insert_prop.
Qed.

Lemma NoDup_obj_lit_onto (entries acc : props) :
  NoDup (map fst acc) -> NoDup (map fst (obj_lit_onto acc entries)).
Proof.
  revert acc. unfold obj_lit_onto.
  induction entries as [| [k v] r IH]; intros acc H; cbn [fold_left fst snd];
    [exact H |].
  apply IH. now apply NoDup_put.
Qed.

(** The properties of an object have distinct keys. *)
Lemma object_keys_distinct (o : props) :
  obj_lit_onto [] o = o -> NoDup (map fst o).
Proof.
  intros <-. apply NoDup_obj_lit_onto. constructor.
Qed.

(** X24: changing a field of the operation at an index inside the list
    leaves the other operations as they are and, in that operation, the
    other properties; the field is set to the text, but for [condition]
    with a text of white space only, which removes the property. *)
Theorem operation_change_touches_one_operation
    (before after : list value) (o : props) (field val : string) :
  obj_lit_onto [] o = o ->
  exists o',
    OperationsList.handleOperationChange (before ++ VObj o :: after)
      (Z.of_nat (List.length before)) field val
    = before ++ VObj o' :: after
    /\ (forall k, k <> field -> own_get k o' = own_get k o)
    /\ own_get field o'
       = if String.eqb field "condition"
            && forallb is_trim_space (units val)
         then None else Some (VStr val).
Proof.
  intros Ho. pose proof (object_keys_distinct o Ho) as Hnd.
  rewrite <- trim_blank.
  unfold OperationsList.handleOperationChange, js_map.
  pose proof
    (map_from_middle
       (fun op _ =>
          if String.eqb field "condition" && negb (truthy (VStr (trim val)))
          then VObj (remove_prop "condition" (own_props op))
          else spread_lit op [(field, VStr val)])
       before after (VObj o) 0) as E.
  rewrite Z.add_0_l in E. rewrite E. clear E.
  cbn [truthy]. rewrite negb_involutive.
  destruct (string_eqb_spec field "condition") as [-> | Hf]; cbn [andb].
  - destruct (String.eqb (trim val) "").
    + eexists. split; [reflexivity |]. cbn [own_props]. split.
      * intros k Hk. apply own_get_remove_prop_other. congruence.
      * now apply own_get_remove_prop_same.
    + eexists. split; [reflexivity |]. lit. split.
      * intros k Hk. apply own_get_put_other. congruence.
      * apply own_get_put_same.
  - eexists. split; [reflexivity |]. lit. split.
    + intros k Hk. apply own_get_put_other. congruence.
    + apply own_get_put_same.
Qed.


Lemma operation_change_touches_one_operation_witness :
  obj_lit_onto []
    [("operation", VStr "add"); ("field", VStr "tags.env");
     ("value", VStr "prod"); ("condition", VStr "[true]")]
  = [("operation", VStr "add"); ("field", VStr "tags.env");
     ("value", VStr "prod"); ("condition", VStr "[true]")]
  /\ exists o',
       OperationsList.handleOperationChange
         ([] ++ VObj [("operation", VStr "add"); ("field", VStr "tags.env");
                      ("value", VStr "prod"); ("condition", VStr "[true]")]
             :: [])
         (Z.of_nat (List.length (@nil value))) "condition" "  "
       = [] ++ VObj o' :: []
       /\ (forall k, k <> "condition" ->
                     own_get k o'
                     = own_get k
                         [("operation", VStr "add"); ("field", VStr "tags.env");
                          ("value", VStr "prod");
                          ("condition", VStr "[true]")])
       /\ own_get "condition" o'
          = if String.eqb "condition" "condition"
               && forallb is_trim_space (units "  ")
            then None else Some (VStr "  ").
Proof.
  split; [reflexivity |].
  apply (operation_change_touches_one_operation [] []
           [("operation", VStr "add"); ("field", VStr "tags.env");
            ("value", VStr "prod"); ("condition", VStr "[true]")]
           "condition" "  ").
  reflexivity.
Defined.

(** X25: a new operation, with an empty operation, field and value, is
    added last; removing the operation at an index inside the list drops
    exactly that operation, also when it is the only one (the list
    becomes empty); and removing the operation just added gives back the
    list from before. *)
Theorem operations_are_added_last_and_removed_in_place
    (before after : list value) (x : value) :
  OperationsList.handleAddOperation before
  = before ++ [VObj [("operation", VStr ""); ("field", VStr "");
                     ("value", VStr "")]]
  /\ OperationsList.handleRemoveOperation (before ++ x :: after)
       (Z.of_nat (List.length before))
     = before ++ after
  /\ OperationsList.handleRemoveOperation
       (OperationsList.handleAddOperation before)
       (Z.of_nat (List.length before))
     = before.
Proof.
  split; [reflexivity |]. split.
  - apply (filter_from_drops before after x 0).
  - unfold OperationsList.handleAddOperation.
    rewrite <- (List.app_nil_r before) at 3.
    apply (filter_from_drops before [] _ 0).
Qed.

(** X26: on a document whose [properties] and [policyRule] are objects,
    the details the form hands up are stored and read back by the tab as
    the same roles, conflict effect and operations; the [conflictEffect]
    key is in the stored details exactly when the effect is not the
    empty string. *)
Theorem details_are_read_back
    (st : editor_state) (o po ro : props)
    (roles : list value) (effect : string) (ops : list value) :
  policy st = VObj o ->
  own_get "properties" o = Some (VObj po) ->
  own_get "policyRule" po = Some (VObj ro) ->
  exists st',
    handleUpdateDetails st
      (DetailsForm.details (VArr roles) (VStr effect) (VArr ops))
    = Ok st'
    /\ DetailsTab.form_props (policy st')
       = Ok {| DetailsForm.roleDefinitionIds := VArr roles;
               DetailsForm.conflictEffect := VStr effect;
               DetailsForm.operations := VArr ops |}
    /\ (js_in "conflictEffect"
          (DetailsForm.details (VArr roles) (VStr effect) (VArr ops))
        = Ok (negb (String.eqb effect ""))).
Proof.
  intros Hp Ho Hro. destruct st as [p sel]. cbn [policy] in Hp. subst p.
  unfold handleUpdateDetails. cbn [policy].
  rewrite (js_get_own _ _ _ Ho). cbn [bind].
  rewrite (js_get_own _ _ _ Hro). cbn [bind].
  rewrite (with_property_own _ _ _ _ Ho). cbn [bind].
  eexists. split; [reflexivity |]. unfold set_policy. cbn [policy].
  unfold DetailsTab.form_props.
  rewrite (js_get_own _ "properties" _ (own_get_put_same _ _ _)).
  cbn [bind].
  rewrite (js_get_own _ "policyRule" _ (own_get_put_same _ _ _)).
  cbn [bind]. lit.
  rewrite (js_get_own _ "then" _ (own_get_put_same _ _ _)).
  cbn [bind].
  destruct effect as [| c s]; split; reflexivity.
Qed.

Lemma details_are_read_back_witness :
  exists st',
    handleUpdateDetails modify_state
      (DetailsForm.details (VArr [VStr "role"]) (VStr "") (VArr []))
    = Ok st'
    /\ DetailsTab.form_props (policy st')
       = Ok {| DetailsForm.roleDefinitionIds := VArr [VStr "role"];
               DetailsForm.conflictEffect := VStr "";
               DetailsForm.operations := VArr [] |}
    /\ (js_in "conflictEffect"
          (DetailsForm.details (VArr [VStr "role"]) (VStr "") (VArr []))
        = Ok (negb (String.eqb "" ""))).
Proof.
  eapply (details_are_read_back modify_state _ _ _ [VStr "role"] "" []);
    reflexivity.
Defined.

(** ** The parameter form *)

Lemma isValidJSONArray_array (s : string) :
  isValidJSONArray s = true -> exists l, JSON.parse s = Some (VArr l).
Proof.
  unfold isValidJSONArray.
  destruct (JSON.parse s) as [[| | b | n | t | l | o] |]; try discriminate.
  now exists l.
Qed.

(** X27: whenever the parameter form hands a parameter on, its name is
    the form's, is not blank and has no space; the parameter carries the
    form's type; its allowed values, when it has any, are an array; and
    its default value is what the type calls for: for [integer] and
    [float] the number [Number] reads in the text, for [array] the value
    the text denotes, for [object] that value or the empty object when
    the text is empty, and the text itself for every other type. *)
Theorem parameter_form_hands_on_checked_parameters
    (form : useParameters.ParameterForm) (n : string) (p : value) :
  useParameters.handleAddParameter form = Updated (n, p) ->
  let type := useParameters.type form in
  let text := useParameters.defaultValue form in
  n = useParameters.name form
  /\ String.eqb (trim n) "" = false
  /\ useParameters.includes_space n = false
  /\ js_get p "type" = Ok (VStr type)
  /\ (js_in "allowedValues" p = Ok false
      \/ exists l, js_get p "allowedValues" = Ok (VArr l))
  /\ exists d,
       js_get p "defaultValue" = Ok d
       /\ (type = "integer" \/ type = "float" -> d = VNum (Number text))
       /\ (type = "array" -> JSON.parse text = Some d)
       /\ (type = "object" ->
           (text = "" /\ d = VObj []) \/ JSON.parse text = Some d)
       /\ (type <> "integer" -> type <> "float" -> type <> "array" ->
           type <> "object" -> d = VStr text).
Proof.
  unfold useParameters.handleAddParameter, useParameters.validateForm,
    useParameters.validateParameterName.
  destruct form as [name type description displayName allowedValues dv].
  cbn [useParameters.name useParameters.type useParameters.description
       useParameters.displayName useParameters.allowedValues
       useParameters.defaultValue truthy].
  rewrite !negb_involutive.
  destruct (String.eqb (trim name) "") eqn:Et; [discriminate |].
  destruct (useParameters.includes_space name) eqn:Es; [discriminate |].
  cbn [negb].
  assert (Hallowed :
            forall parsed (d : value),
              (parsed = [] \/ exists l, parsed = [("allowedValues", VArr l)]) ->
              Updated
                (name,
                 VObj
                   (obj_lit_onto
                      (obj_lit_onto
                         (obj_lit_onto []
                            [("type", VStr type);
                             ("metadata",
                              obj [("displayName", VStr displayName);
                                   ("description", VStr description)])])
                         parsed)
                      [("defaultValue", d)]))
              = Updated (n, p) ->
              n = name
              /\ String.eqb (trim n) "" = false
              /\ useParameters.includes_space n = false
              /\ js_get p "type" = Ok (VStr type)
              /\ (js_in "allowedValues" p = Ok false
                  \/ exists l, js_get p "allowedValues" = Ok (VArr l))
              /\ js_get p "defaultValue" = Ok d).
  { intros parsed d [-> | (l & ->)] [= <- <-];
      repeat split; try assumption; try reflexivity;
      [now left | right; now exists l]. }
  assert (Hrest :
            forall parsed,
              (parsed = [] \/ exists l, parsed = [("allowedValues", VArr l)]) ->
              (if negb
                    (if String.eqb type "object" && negb (String.eqb dv "")
                     then match JSON.parse dv with
                          | Some _ => true
                          | None => false
                          end
                     else true)
               then NoUpdate
               else
                 match
                   (if String.eqb type "object"
                    then if negb (String.eqb dv "") then JSON.parse dv
                         else Some (obj [])
                    else if String.eqb type "array" then JSON.parse dv
                    else if String.eqb type "integer"
                            || String.eqb type "float"
                    then Some (VNum (Number dv))
                    else Some (VStr dv))
                 with
                 | Some default =>
                     Updated
                       (name,
                        VObj
                          (obj_lit_onto
                             (obj_lit_onto
                                (obj_lit_onto []
                                   [("type", VStr type);
                                    ("metadata",
                                     obj [("displayName",
                                           VStr displayName);
                                          ("description",
                                           VStr description)])])
                                parsed)
                             [("defaultValue", default)]))
                 | None => NoUpdate
                 end)
              = Updated (n, p) ->
              n = name
              /\ String.eqb (trim n) "" = false
              /\ useParameters.includes_space n = false
              /\ js_get p "type" = Ok (VStr type)
              /\ (js_in "allowedValues" p = Ok false
                  \/ exists l, js_get p "allowedValues" = Ok (VArr l))
              /\ exists d,
                   js_get p "defaultValue" = Ok d
                   /\ (type = "integer" \/ type = "float" ->
                       d = VNum (Number dv))
                   /\ (type = "array" -> JSON.parse dv = Some d)
                   /\ (type = "object" ->
                       (dv = "" /\ d = VObj []) \/ JSON.parse dv = Some d)
                   /\ (type <> "integer" -> type <> "float" ->
                       type <> "array" -> type <> "object" -> d = VStr dv)).
  { intros parsed Hparsed.
    destruct (string_eqb_spec type "object") as [Ho | Ho].
    - destruct (string_eqb_spec dv "") as [Hdv | Hdv]; cbn [andb negb].
      + intros H.
        destruct (Hallowed parsed _ Hparsed H) as (H1 & H2 & H3 & H4 & H5 & H6).
        repeat (split; [assumption |]). exists (obj []).
        split; [assumption |]. subst type.
        repeat split; try discriminate; try congruence.
        * intros [E | E]; discriminate E.
        * intros _. left. now split.
      + destruct (JSON.parse dv) as [d |]; cbn [negb]; [| discriminate].
        intros H.
        destruct (Hallowed parsed _ Hparsed H) as (H1 & H2 & H3 & H4 & H5 & H6).
        repeat (split; [assumption |]). exists d.
        split; [assumption |]. subst type.
        repeat split; try discriminate; try congruence.
        * intros [E | E]; discriminate E.
        * intros _. now right.
    - cbn [andb negb].
      destruct (string_eqb_spec type "array") as [Ha | Ha].
      + destruct (JSON.parse dv) as [d |]; [| discriminate].
        intros H.
        destruct (Hallowed parsed _ Hparsed H) as (H1 & H2 & H3 & H4 & H5 & H6).
        repeat (split; [assumption |]). exists d.
        split; [assumption |]. subst type.
        repeat split; try discriminate; try congruence.
        intros [E | E]; discriminate E.
      + destruct (string_eqb_spec type "integer") as [Hi | Hi]; cbn [orb].
        * intros H.
          destruct (Hallowed parsed _ Hparsed H)
            as (H1 & H2 & H3 & H4 & H5 & H6).
          repeat (split; [assumption |]). eexists.
          split; [exact H6 |]. repeat split; congruence.
        * destruct (string_eqb_spec type "float") as [Hf | Hf].
          -- intros H.
             destruct (Hallowed parsed _ Hparsed H)
               as (H1 & H2 & H3 & H4 & H5 & H6).
             repeat (split; [assumption |]). eexists.
             split; [exact H6 |]. repeat split; congruence.
          -- intros H.
             destruct (Hallowed parsed _ Hparsed H)
               as (H1 & H2 & H3 & H4 & H5 & H6).
             repeat (split; [assumption |]). eexists.
             split; [exact H6 |]. repeat split; try congruence.
             intros [E | E]; congruence. }
  destruct allowedValues as [| first rest].
  - apply Hrest. now left.
  - destruct (String.eqb first "") eqn:Ef; cbn [negb andb].
    + apply Hrest. now left.
    + destruct (isValidJSONArray first) eqn:Ev; cbn [negb]; [| discriminate].
      destruct (isValidJSONArray_array _ Ev) as (l & Hl). rewrite Hl.
      apply Hrest. right. now exists l.
Qed.

Lemma parameter_form_hands_on_checked_parameters_witness :
  exists p,
    useParameters.handleAddParameter
      {| useParameters.name := "maxCount";
         useParameters.type := "float";
         useParameters.description := "";
         useParameters.displayName := "Maximum";
         useParameters.allowedValues := ["[1, 2.5]"];
         useParameters.defaultValue := "2.5" |}
    = Updated ("maxCount", p)
    /\ String.eqb (trim "maxCount") "" = false
    /\ js_get p "type" = Ok (VStr "float").
Proof.
  eexists. split; [vm_compute; reflexivity |].
  refine ((fun H => conj (proj1 (proj2 H)) (proj1 (proj2 (proj2 (proj2 H)))))
            (parameter_form_hands_on_checked_parameters
               {| useParameters.name := "maxCount";
                  useParameters.type := "float";
                  useParameters.description := "";
                  useParameters.displayName := "Maximum";
                  useParameters.allowedValues := ["[1, 2.5]"];
                  useParameters.defaultValue := "2.5" |}
               "maxCount" _ _)).
  vm_compute. reflexivity.
Defined.
